(** * Hippocampus Game (Simon on the STK500): model and verification

    Shallow embedding of [hippocampusgame.c].  The program runs on an
    ATmega8515: [int] is 16 bits, [unsigned char] 8 bits and
    [unsigned long] 32 bits.  Integers are modelled in [Z] with the
    conversions of the C code written out where they can matter.

    The two hardware registers the program talks to are modelled as follows.
    - [PIND] (switches, active low) is an input stream: the [n]-th read of
      the register returns [PIND n].  The state counts the reads in [clock];
      since every busy-wait iteration of the program reads [PIND] exactly
      once, [clock] is also the program's notion of elapsed time.
    - [PORTB] (LEDs, active low) is an output trace: every assignment is
      recorded, newest first, together with the value of [clock] at which
      it happened.
    The library function [random()] is an oracle stream of the same kind. *)

From Stdlib Require Import ZArith List Lia Bool Arith.
Import ListNotations.
Open Scope Z_scope.

(** ** Program state *)

Record state : Type := mkState {
  sleep    : Z;               (* int sleep = 1 *)
  keyboard : Z;               (* unsigned char keyboard *)
  seq      : Z;               (* unsigned long seq *)
  seq_len  : Z;               (* int seq_len *)
  portb    : list (nat * Z);  (* writes to PORTB, newest first, time-stamped *)
  clock    : nat;             (* number of reads of PIND so far *)
  rcalls   : nat              (* number of calls of random() so far *)
}.

(** Globals as the C start-up code leaves them. *)
Definition initial_state : state :=
  mkState 1 0 0 0 [] 0 0.

(** The loops that poll the switches are unbounded; they are run with a
    fuel that bounds the number of iterations.  [OutOfFuel] is the outcome
    of a run that is still polling when the fuel is spent, [OutOfBounds]
    that of an array access outside the array (undefined behaviour in C).
    Every outcome carries the state reached, so that the output trace of a
    run that does not finish can still be inspected. *)
Inductive outcome (A : Type) : Type :=
| Ret (a : A) (st : state)
| OutOfFuel (st : state)
| OutOfBounds (idx : Z) (st : state).

Arguments Ret {A} a st.
Arguments OutOfFuel {A} st.
Arguments OutOfBounds {A} idx st.

Definition bind {A B : Type} (m : outcome A) (k : A -> state -> outcome B)
  : outcome B :=
  match m with
  | Ret a st => k a st
  | OutOfFuel st => OutOfFuel st
  | OutOfBounds i st => OutOfBounds i st
  end.

Definition final_state {A : Type} (m : outcome A) : state :=
  match m with
  | Ret _ st => st
  | OutOfFuel st => st
  | OutOfBounds _ st => st
  end.

Notation "x <- m ;; k" := (bind m (fun x => k))
  (at level 61, m at next level, right associativity).
Notation "m ;;; k" := (bind m (fun _ => k))
  (at level 61, right associativity).

(** ** Constants *)

Definition lengths : list Z := [5; 7; 9; 11].   (* Max length is 15 *)
Definition DELAYTIME : Z := 300.
Definition STANDBYTIMEOUT : Z := 20.
Definition KEYTIMEOUT : Z := 1000000.

(** Iterations the timed loop of [wait_for_key] may run: those with
    [count] from 0 to [KEYTIMEOUT]. *)
Definition key_budget : nat := Z.to_nat (KEYTIMEOUT + 1).

(** [a[i]] for a C array: defined only inside the array. *)
Definition array_get (a : list Z) (i : Z) : option Z :=
  if i <? 0 then None else nth_error a (Z.to_nat i).

(** ** Pure helpers of the program *)

(** [return ~(0b1 << number);] converted to [unsigned char]. *)
Definition number2bits (number : Z) : Z :=
  Z.lnot (Z.shiftl 1 number) mod 256.

Definition bits2number (bits : Z) : Z :=
  if bits =? 254 then 0          (* 0b11111110 *)
  else if bits =? 253 then 1     (* 0b11111101 *)
  else if bits =? 251 then 2     (* 0b11111011 *)
  else if bits =? 247 then 3     (* 0b11110111 *)
  else 8.

(** [seq >> (j<<1) & 0b11], the [j]-th symbol of the packed sequence. *)
Definition symbol (s j : Z) : Z :=
  Z.land (Z.shiftr s (Z.shiftl j 1)) 3.

(** Number of LEDs a value written to [PORTB] lights (zero bits among the
    eight, the port being active low). *)
Definition leds_lit (v : Z) : nat :=
  length (filter (fun b => negb (Z.testbit v (Z.of_nat b))) (List.seq 0 8)).

(** The upper four LEDs are off: bits 4..7 of the value are one. *)
Definition high_nibble_off (v : Z) : Prop := Z.land v 240 = 240.

Section Program.

(** The environment: the samples of the switch register and the values
    returned by the successive calls of [random()]. *)
Variable PIND : nat -> Z.
Variable random : nat -> Z.

(** ** Register accesses *)

(** [keyboard = PIND;] *)
Definition read_PIND (st : state) : state :=
  mkState (sleep st) (PIND (clock st)) (seq st) (seq_len st)
          (portb st) (S (clock st)) (rcalls st).

(** [PORTB = v;] *)
Definition write_PORTB (v : Z) (st : state) : state :=
  mkState (sleep st) (keyboard st) (seq st) (seq_len st)
          ((clock st, v) :: portb st) (clock st) (rcalls st).

(** [random();] with the result dropped. *)
Definition call_random (st : state) : state :=
  mkState (sleep st) (keyboard st) (seq st) (seq_len st)
          (portb st) (clock st) (S (rcalls st)).

Definition set_sleep (v : Z) (st : state) : state :=
  mkState v (keyboard st) (seq st) (seq_len st)
          (portb st) (clock st) (rcalls st).

(** ** delay, delay_long *)

(** The body of [delay]'s loop, [n] iterations left. *)
Fixpoint delay_loop (n : nat) (interruptible : Z) (st : state) : Z * state :=
  match n with
  | O => (0, st)
  | S n' =>
      let st1 := read_PIND st in
      if negb (interruptible =? 0) && negb (keyboard st1 =? 255)
      then (1, write_PORTB (keyboard st1) st1)
      else delay_loop n' interruptible (call_random st1)
  end.

Definition delay (interruptible : Z) (st : state) : Z * state :=
  delay_loop (Z.to_nat DELAYTIME) interruptible st.

Fixpoint delay_long_loop (n : nat) (interruptible : Z) (st : state)
  : Z * state :=
  match n with
  | O => (0, st)
  | S n' =>
      let (r, st1) := delay interruptible st in
      if r =? 0 then delay_long_loop n' interruptible st1 else (1, st1)
  end.

Definition delay_long (count interruptible : Z) (st : state) : Z * state :=
  delay_long_loop (Z.to_nat count) interruptible st.

(** ** gen_seq *)

(** [seq_len = lengths[level]; seq = random();] the [long] returned by
    [random] being converted to [unsigned long]. *)
Definition gen_seq (level : Z) (st : state) : outcome unit :=
  match array_get lengths level with
  | None => OutOfBounds level st
  | Some len =>
      Ret tt (mkState (sleep st) (keyboard st)
                      (random (rcalls st) mod 2 ^ 32) len
                      (portb st) (clock st) (S (rcalls st)))
  end.

(** ** standby *)

(** The inner loop of [standby], [n] iterations left; the boolean tells
    whether a key interrupted it. *)
Fixpoint standby_chase (n : nat) (leds : Z) (st : state) : bool * state :=
  match n with
  | O => (false, st)
  | S n' =>
      let st1 := if sleep st =? 0 then write_PORTB leds st else st in
      let (r, st2) := delay 1 st1 in
      if r =? 0
      then standby_chase n' (Z.lor (Z.shiftl leds 1 mod 256) 1) st2
      else (true, write_PORTB 255 st2)
  end.

Fixpoint standby_loop (n : nat) (st : state) : Z * state :=
  match n with
  | O => (1, write_PORTB 255 st)
  | S n' =>
      let (hit, st1) := standby_chase 4 254 st in
      if hit then (0, st1) else standby_loop n' st1
  end.

Definition standby (st : state) : Z * state :=
  standby_loop (Z.to_nat STANDBYTIMEOUT) (write_PORTB 255 st).

(** ** The polling loops *)

(** [do keyboard = PIND; while(keyboard == key);] *)
Fixpoint while_key (fuel : nat) (key : Z) (st : state) : outcome unit :=
  match fuel with
  | O => OutOfFuel st
  | S fuel' =>
      let st1 := read_PIND st in
      if keyboard st1 =? key then while_key fuel' key st1 else Ret tt st1
  end.

(** [do keyboard = PIND; while(keyboard != key);] *)
Fixpoint while_key_not (fuel : nat) (key : Z) (st : state) : outcome unit :=
  match fuel with
  | O => OutOfFuel st
  | S fuel' =>
      let st1 := read_PIND st in
      if keyboard st1 =? key then Ret tt st1 else while_key_not fuel' key st1
  end.

Fixpoint while_keypattern_not (fuel : nat) (keypattern : Z) (st : state)
  : outcome unit :=
  match fuel with
  | O => OutOfFuel st
  | S fuel' =>
      let (timeout, st1) := standby st in
      if negb (timeout =? 0) then Ret tt (set_sleep 1 st1)
      else if Z.land (Z.land (Z.lnot (keyboard st1)) keypattern) 255 =? 0
           then while_keypattern_not fuel' keypattern st1
           else Ret tt (set_sleep 0 st1)
  end.

(** The timed loop of [wait_for_key]:
    [do { if(count > KEYTIMEOUT) break; ++count; keyboard = PIND; }
     while(keyboard == 0b11111111);]
    [budget] is the number of iterations the test [count > KEYTIMEOUT]
    still lets through, that is [KEYTIMEOUT + 1 - count]. *)
Fixpoint key_poll (budget : nat) (st : state) : state :=
  match budget with
  | O => st                                    (* count > KEYTIMEOUT: break *)
  | S budget' =>
      let st1 := read_PIND st in               (* ++count; keyboard = PIND *)
      if keyboard st1 =? 255 then key_poll budget' st1 else st1
  end.

Definition wait_for_key (fuel : nat) (key : Z) (st : state) : outcome Z :=
  while_key_not fuel 255 st ;;; fun st1 =>
  let st2 := key_poll key_budget st1 in
  let st3 := write_PORTB (keyboard st2) st2 in
  let error := if keyboard st3 =? key then 0 else 1 in
  while_key_not fuel 255 st3 ;;; fun st4 =>
  Ret error (write_PORTB (keyboard st4) st4).

(** ** init *)

Definition init (fuel : nat) (st : state) : outcome unit :=
  while_keypattern_not fuel 3 st ;;; fun st1 =>
  if negb (sleep st1 =? 0) then Ret tt st1 else
  let st2 := write_PORTB (keyboard st1) st1 in
  while_key_not fuel 255 st2 ;;; fun st3 =>
  while_keypattern_not fuel 15 st3 ;;; fun st4 =>
  if negb (sleep st4 =? 0) then Ret tt st4 else
  let st5 := write_PORTB (keyboard st4) st4 in
  let level := bits2number (keyboard st5) in
  while_key_not fuel 255 st5 ;;; fun st6 =>
  let st7 := write_PORTB (keyboard st6) st6 in
  gen_seq level st7.

(** ** play *)

(** First inner loop of [play]: show symbols [j], [j+1], ... ([n] of them). *)
Fixpoint play_playback (n : nat) (j : Z) (st : state) : state :=
  match n with
  | O => st
  | S n' =>
      let led := symbol (seq st) j in
      let st1 := write_PORTB (number2bits led) st in
      let st2 := snd (delay_long 4 0 st1) in
      let st3 := write_PORTB 255 st2 in
      let st4 := snd (delay_long 4 0 st3) in
      play_playback n' (j + 1) st4
  end.

(** Second inner loop of [play]: check symbols [j], [j+1], ...  The result
    is [true] when the loop left [play] through [return 0]. *)
Fixpoint play_verify (fuel : nat) (n : nat) (j : Z) (st : state)
  : outcome bool :=
  match n with
  | O => Ret false st
  | S n' =>
      let led := symbol (seq st) j in
      error <- wait_for_key fuel (number2bits led) st ;; fun st1 =>
      if negb (error =? 0) then Ret true st1
      else play_verify fuel n' (j + 1) st1
  end.

(** Outer loop of [play] from round position [i] on, [n] positions left. *)
Fixpoint play_rounds (fuel : nat) (n : nat) (i : Z) (st : state)
  : outcome Z :=
  match n with
  | O => Ret 1 st
  | S n' =>
      let st1 := snd (delay_long 12 0 st) in
      let st2 := play_playback (Z.to_nat i) 0 st1 in
      lost <- play_verify fuel (Z.to_nat i) 0 st2 ;; fun st3 =>
      if lost then Ret 0 st3 else play_rounds fuel n' (i + 1) st3
  end.

Definition play (fuel : nat) (st : state) : outcome Z :=
  play_rounds fuel (Z.to_nat (seq_len st)) 1 st.

(** ** celebrate, mock *)

(** [PORTB = v; delay(0);] *)
Definition show (v : Z) (st : state) : state :=
  snd (delay 0 (write_PORTB v st)).

(** The body of the loop of [celebrate]. *)
Definition celebrate_cycle (st : state) : state :=
  let st := show 254 st in   (* 0b11111110 *)
  let st := show 255 st in
  let st := show 254 st in
  let st := show 255 st in
  let st := show 253 st in   (* 0b11111101 *)
  let st := show 255 st in
  let st := show 253 st in
  let st := show 255 st in
  let st := show 251 st in   (* 0b11111011 *)
  let st := show 255 st in
  let st := show 251 st in
  let st := show 255 st in
  let st := show 247 st in   (* 0b11110111 *)
  let st := show 255 st in
  let st := show 247 st in
  show 255 st.

Fixpoint celebrate_loop (n : nat) (st : state) : state :=
  match n with
  | O => st
  | S n' => celebrate_loop n' (celebrate_cycle st)
  end.

Definition celebrate (st : state) : state := celebrate_loop 3 st.

Fixpoint mock_loop (n : nat) (st : state) : state :=
  match n with
  | O => st
  | S n' => mock_loop n' (show 255 (show 240 st))
  end.

Definition mock (st : state) : state := mock_loop 15 st.

(** ** main *)

(** [if(win) celebrate(); else mock();] *)
Definition feedback (win : Z) (st : state) : state :=
  if negb (win =? 0) then celebrate st else mock st.

(** One iteration of the [for(;;)] of [main]. *)
Definition main_round (fuel : nat) (st : state) : outcome unit :=
  init fuel st ;;; fun st1 =>
  if negb (sleep st1 =? 0) then Ret tt st1 else
  win <- play fuel st1 ;; fun st2 =>
  while_key_not fuel 255 (feedback win st2).

Fixpoint main_loop (rounds fuel : nat) (st : state) : outcome unit :=
  match rounds with
  | O => OutOfFuel st
  | S rounds' => main_round fuel st ;;; main_loop rounds' fuel
  end.

(** [DDRD] and [DDRB] only set the direction of the ports. *)
Definition main (rounds fuel : nat) (st : state) : outcome unit :=
  while_key fuel 255 (write_PORTB 255 st) ;;; main_loop rounds fuel.

End Program.

Arguments delay_loop PIND !n interruptible st.
Arguments key_poll PIND !budget st.

(** * Vocabulary of the specification *)

(** ** Time and traces *)

(** Ticks of one [delay]. *)
Definition delay_ticks : nat := Z.to_nat DELAYTIME.

(** The state after [n] iterations of a delay loop that nothing
    interrupts: only the last sample is kept, and [random] has been called
    [n] times. *)
Definition idle (PIND : nat -> Z) (n : nat) (st : state) : state :=
  match n with
  | O => st
  | S m => mkState (sleep st) (PIND (clock st + m)%nat) (seq st) (seq_len st)
                   (portb st) (clock st + n)%nat (rcalls st + n)%nat
  end.

(** The writes to [PORTB] in the order they happened. *)
Definition writes (st : state) : list (nat * Z) := rev (portb st).

(** The values [vals] written one after the other, [period] ticks apart,
    the first at time [t0]. *)
Definition periodic (t0 period : nat) (vals : list Z) : list (nat * Z) :=
  combine (map (fun k => (t0 + k * period)%nat) (List.seq 0 (length vals)))
          vals.

(** The patterns one cycle of [celebrate] writes: each of the four LEDs
    blinks twice. *)
Definition celebrate_pattern : list Z :=
  [254; 255; 254; 255; 253; 255; 253; 255;
   251; 255; 251; 255; 247; 255; 247; 255].

(** The state after [n] reads of [PIND] with nothing else in between. *)
Definition sampled (PIND : nat -> Z) (n : nat) (st : state) : state :=
  match n with
  | O => st
  | S m => mkState (sleep st) (PIND (clock st + m)%nat) (seq st) (seq_len st)
                   (portb st) (clock st + n)%nat (rcalls st)
  end.

(** The globals a function leaves alone. *)
Definition same_globals (st st' : state) : Prop :=
  seq st' = seq st /\ seq_len st' = seq_len st /\ sleep st' = sleep st.

(** ** The switches *)

(** From time [c] on the switch register delivers the samples [l]. *)
Definition feeds (PIND : nat -> Z) (c : nat) (l : list Z) : Prop :=
  forall n, (n < length l)%nat -> PIND (c + n)%nat = nth n l 0.

(** ** What the player does at one position *)

(** The samples the switch register delivers while [wait_for_key] runs:
    keys still held from before ([lead]), then all keys released for
    [S reaction] samples, then the key pattern that is pressed and whatever
    is held after it ([pressed], no sample of which shows all keys
    released), then the release. *)
Record gesture : Type := mkGesture {
  lead     : list Z;
  reaction : nat;
  pressed  : list Z
}.

(** The samples of a gesture in the order [wait_for_key] reads them. *)
Definition samples (g : gesture) : list Z :=
  (lead g ++ [255]) ++ repeat 255 (reaction g) ++ pressed g ++ [255].

(** The player was too slow: the timed loop ran out of budget. *)
Definition timed_out (g : gesture) : bool :=
  (key_budget <=? reaction g)%nat.

(** The key pattern [wait_for_key] compares with the expected one. *)
Definition seen (g : gesture) : Z :=
  if timed_out g then 255 else hd 255 (pressed g).

(** Samples read before the pattern is mirrored to the LEDs. *)
Definition detect_ticks (g : gesture) : nat :=
  (length (lead g) + 1 + reaction g + (if timed_out g then 0 else 1))%nat.

(** A gesture is what its fields say, and the fuel lets the two release
    loops of [wait_for_key] run to their end. *)
Definition valid_gesture (fuel : nat) (g : gesture) : Prop :=
  Forall (fun v => v <> 255) (lead g) /\
  Forall (fun v => v <> 255) (pressed g) /\
  (reaction g <= key_budget)%nat /\
  (timed_out g = false -> pressed g <> []) /\
  (length (lead g) < fuel)%nat /\
  (length (pressed g) < fuel)%nat.

(** ** Symbols and what is shown for them *)

(** The [n] symbols of the packed sequence [s] from index [j] on. *)
Definition symbols_from (s j : Z) (n : nat) : list Z :=
  map (fun k => symbol s (j + Z.of_nat k)) (List.seq 0 n).

(** The first [n] symbols of [s]. *)
Definition symbols (s : Z) (n : nat) : list Z := symbols_from s 0 n.

(** What playback writes for a list of symbols: the LED of each symbol,
    then all LEDs off. *)
Definition frames (syms : list Z) : list Z :=
  flat_map (fun sym => [number2bits sym; 255]) syms.

(** The key patterns [play] expects at indices [j], [j+1], ... *)
Definition expected_keys (s j : Z) (n : nat) : list Z :=
  map number2bits (symbols_from s j n).

(** ** What the player does in a whole game *)

(** Ticks from the start of round position [i] to the end of its playback:
    [delay_long(12, 0)], then [i] symbols of two [delay_long(4, 0)] each. *)
Definition playback_ticks (i : nat) : nat :=
  (12 * delay_ticks + i * (8 * delay_ticks))%nat.

(** A script lists, for the round positions [i], [i+1], ..., the gestures
    the player makes after the playback of that position. *)
Definition script : Type := list (list gesture).

(** Ticks the rounds of a script take when each is played to its end. *)
Fixpoint script_ticks (i : nat) (sc : script) : nat :=
  match sc with
  | [] => 0
  | gs :: rest =>
      (playback_ticks i + length (flat_map samples gs)
       + script_ticks (S i) rest)%nat
  end.

(** The switch register delivers the script from time [c] on; what it
    delivers during the playbacks is left open. *)
Fixpoint script_feeds (PIND : nat -> Z) (c i : nat) (sc : script) : Prop :=
  match sc with
  | [] => True
  | gs :: rest =>
      feeds PIND (c + playback_ticks i) (flat_map samples gs) /\
      script_feeds PIND (c + playback_ticks i + length (flat_map samples gs))
                   (S i) rest
  end.

(** One gesture for every symbol shown, each of them valid. *)
Fixpoint well_formed (fuel : nat) (i : nat) (sc : script) : Prop :=
  match sc with
  | [] => True
  | gs :: rest =>
      length gs = i /\ Forall (valid_gesture fuel) gs /\
      well_formed fuel (S i) rest
  end.

(** The player reproduces the first [i] symbols at position [i], the first
    [i+1] at the next, and so on. *)
Fixpoint reproduces (s : Z) (i : nat) (sc : script) : Prop :=
  match sc with
  | [] => True
  | gs :: rest =>
      map seen gs = map number2bits (symbols s i) /\ reproduces s (S i) rest
  end.

(** ** Concrete players *)

(** A switch register that delivers the samples of [l] and shows all keys
    released afterwards. *)
Definition stream (l : list Z) : nat -> Z := fun n => nth n l 255.

(** The samples of a whole script: nobody touches the switches during the
    playbacks. *)
Fixpoint script_input (i : nat) (sc : script) : list Z :=
  match sc with
  | [] => []
  | gs :: rest =>
      repeat 255 (playback_ticks i) ++ flat_map samples gs
      ++ script_input (S i) rest
  end.

(** Press [k] as soon as asked and let go at once. *)
Definition tap (k : Z) : gesture := mkGesture [] 0 [k].

(** The player who repeats what was shown, for [n] round positions. *)
Definition perfect_script (s : Z) (n : nat) : script :=
  map (fun i => map (fun sym => tap (number2bits sym)) (symbols s i))
      (List.seq 1 n).

(** Boolean versions of the predicates on scripts, for concrete ones. *)
Definition valid_gestureb (fuel : nat) (g : gesture) : bool :=
  forallb (fun v => negb (v =? 255)) (lead g) &&
  forallb (fun v => negb (v =? 255)) (pressed g) &&
  (reaction g <=? key_budget)%nat &&
  (timed_out g || negb (length (pressed g) =? 0)%nat) &&
  (length (lead g) <? fuel)%nat &&
  (length (pressed g) <? fuel)%nat.

Fixpoint well_formedb (fuel : nat) (i : nat) (sc : script) : bool :=
  match sc with
  | [] => true
  | gs :: rest =>
      (length gs =? i)%nat && forallb (valid_gestureb fuel) gs &&
      well_formedb fuel (S i) rest
  end.

Fixpoint keys_eqb (a b : list Z) : bool :=
  match a, b with
  | [], [] => true
  | x :: a', y :: b' => (x =? y) && keys_eqb a' b'
  | _, _ => false
  end.

Fixpoint reproducesb (s : Z) (i : nat) (sc : script) : bool :=
  match sc with
  | [] => true
  | gs :: rest =>
      keys_eqb (map seen gs) (map number2bits (symbols s i)) &&
      reproducesb s (S i) rest
  end.

(** The state in which [play] starts when [gen_seq] has drawn the sequence
    [s] of length [len]. *)
Definition round_state (s len : Z) : state := mkState 0 255 s len [] 0 0.

(** ** Invariants *)

(** The patterns the inner loop of [standby] shows in its [n] remaining
    iterations, starting with [leds], are all in [ok]. *)
Fixpoint chase_ok (ok : Z -> Prop) (n : nat) (leds : Z) : Prop :=
  match n with
  | O => True
  | S n' => ok leds /\ chase_ok ok n' (Z.lor (Z.shiftl leds 1 mod 256) 1)
  end.

(** All writes so far, and the last sample, leave the upper LEDs off. *)
Definition upper_leds_off (st : state) : Prop :=
  Forall (fun w => high_nibble_off (snd w)) (portb st) /\
  high_nibble_off (keyboard st).

(** ** Standby and the selections *)

(** The state with the writes [new] added to the trace. *)
Definition add_writes (new : list (nat * Z)) (st : state) : state :=
  mkState (sleep st) (keyboard st) (seq st) (seq_len st)
          (rev new ++ portb st) (clock st) (rcalls st).

(** Ticks of a [standby] that no key interrupts: [STANDBYTIMEOUT] rounds
    of four [delay(1)]. *)
Definition standby_ticks : nat :=
  (Z.to_nat STANDBYTIMEOUT * (4 * delay_ticks))%nat.

(** The values [leds] takes in [n] successive iterations of the inner loop
    of [standby]: [leds <<= 1; leds |= 1;] on an [unsigned char]. *)
Fixpoint leds_seq (n : nat) (leds : Z) : list Z :=
  match n with
  | O => []
  | S n' => leds :: leds_seq n' (Z.lor (Z.shiftl leds 1 mod 256) 1)
  end.

(** One round of the chase: LED0, LED1, LED2, LED3 lit in turn. *)
Definition chase_pattern : list Z := [254; 253; 251; 247].

(** What [standby] shows from time [c] on: the values [vals], one per
    [delay(1)], when [sleep] is 0, nothing otherwise. *)
Definition chase_writes (sleeping : Z) (c : nat) (vals : list Z)
  : list (nat * Z) :=
  if sleeping =? 0 then periodic c delay_ticks vals else [].

(** The test that ends [while_keypattern_not]: a switch of [keypattern]
    is pressed in the sample [k]. *)
Definition pattern_hit (keypattern k : Z) : bool :=
  negb (Z.land (Z.land (Z.lnot k) keypattern) 255 =? 0).

(** A key press during standby: [fst a] samples with all keys released,
    then the sample [snd a]. *)
Definition attempt_samples (a : nat * Z) : list Z :=
  repeat 255 (fst a) ++ [snd a].

(** A press that interrupts [standby] without ending the selection. *)
Definition ignored (keypattern : Z) (a : nat * Z) : Prop :=
  (fst a < standby_ticks)%nat /\ snd a <> 255 /\
  pattern_hit keypattern (snd a) = false.

(** A press that ends the selection. *)
Definition accepted (keypattern : Z) (a : nat * Z) : Prop :=
  (fst a < standby_ticks)%nat /\ snd a <> 255 /\
  pattern_hit keypattern (snd a) = true.

(** The samples of a selection: presses that are ignored, the press [a]
    that is accepted, keys held after it, the release. *)
Definition selection_samples (tries : list (nat * Z)) (a : nat * Z)
           (held : list Z) : list Z :=
  flat_map attempt_samples tries ++ attempt_samples a ++ held ++ [255].

(** Ticks without a key in a list of presses; [random] is called once
    in each. *)
Definition idle_ticks (tries : list (nat * Z)) : nat :=
  fold_right (fun a n => (fst a + n)%nat) 0%nat tries.

(** From [st] to [st'] the program has read [ticks] samples and called
    [random] [rnd] times; it has not touched the sequence, and has only
    added to the trace. *)
Definition advanced (st st' : state) (ticks rnd : nat) : Prop :=
  clock st' = (clock st + ticks)%nat /\
  rcalls st' = (rcalls st + rnd)%nat /\
  seq st' = seq st /\ seq_len st' = seq_len st /\
  exists more, writes st' = writes st ++ more.

(** The value the LEDs show: the last one written to [PORTB]. *)
Definition port_value (st : state) : option Z :=
  option_map snd (hd_error (portb st)).

(** A selection that ends with an accepted press, under a fuel that
    lets its loops run to their end. *)
Definition valid_selection (fuel : nat) (keypattern : Z)
           (tries : list (nat * Z)) (a : nat * Z) (held : list Z) : Prop :=
  Forall (ignored keypattern) tries /\ accepted keypattern a /\
  Forall (fun v => v <> 255) held /\
  (length tries < fuel)%nat /\ (length held < fuel)%nat.

(** Boolean versions, for concrete selections. *)
Definition ignoredb (keypattern : Z) (a : nat * Z) : bool :=
  (fst a <? standby_ticks)%nat && negb (snd a =? 255)
  && negb (pattern_hit keypattern (snd a)).

Definition acceptedb (keypattern : Z) (a : nat * Z) : bool :=
  (fst a <? standby_ticks)%nat && negb (snd a =? 255)
  && pattern_hit keypattern (snd a).

Definition valid_selectionb (fuel : nat) (keypattern : Z)
           (tries : list (nat * Z)) (a : nat * Z) (held : list Z) : bool :=
  forallb (ignoredb keypattern) tries && acceptedb keypattern a
  && forallb (fun v => negb (v =? 255)) held
  && (length tries <? fuel)%nat && (length held <? fuel)%nat.

(** The samples of the two selections of [init]. *)
Definition both_selections (tries1 : list (nat * Z)) (a1 : nat * Z)
           (held1 : list Z) (tries2 : list (nat * Z)) (a2 : nat * Z)
           (held2 : list Z) : list Z :=
  selection_samples tries1 a1 held1 ++ selection_samples tries2 a2 held2.

(** The sequence [gen_seq] draws after these selections: the value of the
    call of [random] numbered by the samples without a key. *)
Definition drawn_sequence (random : nat -> Z) (st : state)
           (tries1 : list (nat * Z)) (a1 : nat * Z)
           (tries2 : list (nat * Z)) (a2 : nat * Z) : Z :=
  random (rcalls st + (idle_ticks (tries1 ++ [a1])
                       + idle_ticks (tries2 ++ [a2])))%nat mod 2 ^ 32.

(** What the feedback after [play] writes, and how many delays it takes. *)
Definition feedback_values (win : Z) : list Z :=
  if win =? 0 then concat (repeat [240; 255] 15)
  else concat (repeat celebrate_pattern 3).

Definition feedback_ticks (win : Z) : nat :=
  (length (feedback_values win) * delay_ticks)%nat.

(** ** Packed sequences *)

(** The integer whose base-4 digits, least significant first, are the
    symbols of [l]. *)
Fixpoint pack (l : list Z) : Z :=
  match l with
  | [] => 0
  | d :: l' => d + 4 * pack l'
  end.

(** * Verification *)

(** ** Bit patterns *)

Lemma number2bits_values :
  number2bits 0 = 254 /\ number2bits 1 = 253 /\
  number2bits 2 = 251 /\ number2bits 3 = 247.
Proof. repeat split; reflexivity. Qed.

Lemma symbol_range (s j : Z) : 0 <= symbol s j <= 3.
Proof.
  unfold symbol. set (x := Z.shiftr s (Z.shiftl j 1)).
  change (Z.land x 3) with (Z.land x (Z.ones 2)).
  rewrite Z.land_ones by lia. change (2 ^ 2) with 4.
  pose proof (Z.mod_pos_bound x 4 eq_refl). lia.
Qed.

Lemma small_cases (n : Z) : 0 <= n <= 3 -> n = 0 \/ n = 1 \/ n = 2 \/ n = 3.
Proof. lia. Qed.

Lemma number2bits_not_idle (n : Z) : 0 <= n <= 3 -> number2bits n <> 255.
Proof.
  intros H. destruct (small_cases n H) as [-> | [-> | [-> | ->]]];
    vm_compute; discriminate.
Qed.

Lemma number2bits_high (n : Z) : 0 <= n <= 3 -> high_nibble_off (number2bits n).
Proof.
  intros H. destruct (small_cases n H) as [-> | [-> | [-> | ->]]];
    reflexivity.
Qed.

(** ** Non-interruptible delays *)

Section Delays.

Variable PIND : nat -> Z.

Lemma idle_idle (a b : nat) (st : state) :
  idle PIND a (idle PIND b st) = idle PIND (b + a) st.
Proof.
  destruct b as [|b]; [reflexivity|].
  destruct a as [|a]; simpl.
  - rewrite Nat.add_0_r. reflexivity.
  - f_equal; try lia. f_equal; lia.
Qed.

Lemma delay_loop_0 (n : nat) (st : state) :
  delay_loop PIND n 0 st = (0, idle PIND n st).
Proof.
  revert st. induction n as [|n IH]; intros st; [reflexivity|].
  cbn [delay_loop]. change (negb (0 =? 0)) with false. cbn [andb].
  rewrite IH. f_equal.
  destruct n as [|n]; destruct st; unfold call_random, read_PIND; simpl;
    f_equal; try lia; f_equal; lia.
Qed.

Lemma delay_0 (st : state) :
  delay PIND 0 st = (0, idle PIND delay_ticks st).
Proof. apply delay_loop_0. Qed.

Lemma delay_long_loop_0 (n : nat) (st : state) :
  delay_long_loop PIND n 0 st = (0, idle PIND (n * delay_ticks) st).
Proof.
  revert st. induction n as [|n IH]; intros st; [reflexivity|].
  cbn [delay_long_loop]. rewrite delay_0. cbn [Z.eqb].
  rewrite IH, idle_idle. reflexivity.
Qed.

Lemma delay_long_0 (count : Z) (st : state) :
  delay_long PIND count 0 st
  = (0, idle PIND (Z.to_nat count * delay_ticks) st).
Proof. apply delay_long_loop_0. Qed.

Lemma idle_portb n st : portb (idle PIND n st) = portb st.
Proof. destruct n; reflexivity. Qed.

Lemma idle_clock n st : clock (idle PIND n st) = (clock st + n)%nat.
Proof. destruct n; simpl; lia. Qed.

Lemma idle_rcalls n st : rcalls (idle PIND n st) = (rcalls st + n)%nat.
Proof. destruct n; simpl; lia. Qed.

Lemma idle_seq n st : seq (idle PIND n st) = seq st.
Proof. destruct n; reflexivity. Qed.

Lemma idle_seq_len n st : seq_len (idle PIND n st) = seq_len st.
Proof. destruct n; reflexivity. Qed.

Lemma idle_sleep n st : sleep (idle PIND n st) = sleep st.
Proof. destruct n; reflexivity. Qed.

Lemma idle_keyboard n st :
  keyboard (idle PIND (S n) st) = PIND (clock st + n)%nat.
Proof. reflexivity. Qed.

End Delays.

(** ** Output traces *)

Lemma periodic_nil t0 p : periodic t0 p [] = [].
Proof. reflexivity. Qed.

Lemma periodic_cons t0 p v vs :
  periodic t0 p (v :: vs) = (t0, v) :: periodic (t0 + p) p vs.
Proof.
  unfold periodic. cbn [length List.seq map combine].
  f_equal; [f_equal; lia|].
  rewrite <- seq_shift, map_map. f_equal.
  apply map_ext. intros k. lia.
Qed.

Lemma periodic_app t0 p a b :
  periodic t0 p (a ++ b)
  = periodic t0 p a ++ periodic (t0 + length a * p) p b.
Proof.
  revert t0. induction a as [|v a IH]; intros t0.
  - cbn [app length]. rewrite periodic_nil. cbn [app]. f_equal. lia.
  - cbn [app length]. rewrite !periodic_cons, IH. cbn [app].
    do 3 f_equal. lia.
Qed.

Lemma periodic_values t0 p vals : map snd (periodic t0 p vals) = vals.
Proof.
  revert t0. induction vals as [|v vs IH]; intros t0; [reflexivity|].
  rewrite periodic_cons. cbn [map snd]. now rewrite IH.
Qed.

Lemma periodic_length t0 p vals : length (periodic t0 p vals) = length vals.
Proof. rewrite <- (periodic_values t0 p vals) at 2. now rewrite length_map. Qed.

(** Two traces that differ only in how their time stamps are written. *)
Ltac same_trace := repeat first [reflexivity | lia | f_equal].

Section Animations.

Variable PIND : nat -> Z.

Lemma writes_write v st :
  writes (write_PORTB v st) = writes st ++ [(clock st, v)].
Proof. reflexivity. Qed.

Lemma writes_idle n st : writes (idle PIND n st) = writes st.
Proof. unfold writes. now rewrite idle_portb. Qed.

Lemma show_eq v st :
  show PIND v st = idle PIND delay_ticks (write_PORTB v st).
Proof. unfold show. now rewrite delay_0. Qed.

Lemma show_writes v st :
  writes (show PIND v st) = writes st ++ [(clock st, v)].
Proof. now rewrite show_eq, writes_idle, writes_write. Qed.

Lemma show_clock v st :
  clock (show PIND v st) = (clock st + delay_ticks)%nat.
Proof. now rewrite show_eq, idle_clock. Qed.

Lemma show_seq v st : seq (show PIND v st) = seq st.
Proof. now rewrite show_eq, idle_seq. Qed.

Lemma show_seq_len v st : seq_len (show PIND v st) = seq_len st.
Proof. now rewrite show_eq, idle_seq_len. Qed.

Lemma show_sleep v st : sleep (show PIND v st) = sleep st.
Proof. now rewrite show_eq, idle_sleep. Qed.

(** A straight run of [PORTB = v; delay(0);] statements. *)
Lemma shows_trace (vals : list Z) (st : state) :
  let st' := fold_left (fun s v => show PIND v s) vals st in
  writes st' = writes st ++ periodic (clock st) delay_ticks vals /\
  clock st' = (clock st + length vals * delay_ticks)%nat /\
  seq st' = seq st /\ seq_len st' = seq_len st /\ sleep st' = sleep st.
Proof.
  revert st. induction vals as [|v vs IH]; intros st; cbn [fold_left].
  - cbn zeta. rewrite periodic_nil, app_nil_r. cbn [length]. repeat split. lia.
  - specialize (IH (show PIND v st)). cbn zeta in *.
    destruct IH as (Hw & Hc & Hs & Hl & Hz).
    rewrite Hw, Hc, Hs, Hl, Hz, show_writes, show_clock, show_seq,
      show_seq_len, show_sleep, periodic_cons, <- app_assoc.
    cbn [app length]. repeat split. lia.
Qed.

Lemma celebrate_cycle_eq st :
  celebrate_cycle PIND st
  = fold_left (fun s v => show PIND v s) celebrate_pattern st.
Proof. reflexivity. Qed.

Lemma celebrate_loop_trace (n : nat) (st : state) :
  let st' := celebrate_loop PIND n st in
  writes st' = writes st
    ++ periodic (clock st) delay_ticks (concat (repeat celebrate_pattern n)) /\
  clock st' = (clock st + n * (16 * delay_ticks))%nat.
Proof.
  revert st. induction n as [|n IH]; intros st.
  - cbn [celebrate_loop mock_loop repeat concat]. cbn zeta.
    rewrite periodic_nil, app_nil_r. split; [reflexivity | lia].
  - cbn [celebrate_loop repeat concat]. cbn zeta.
    destruct (IH (celebrate_cycle PIND st)) as [Hw Hc].
    rewrite Hw, Hc, celebrate_cycle_eq.
    destruct (shows_trace celebrate_pattern st) as (Hw1 & Hc1 & _).
    rewrite Hw1, Hc1, periodic_app, <- app_assoc.
    change (length celebrate_pattern) with 16%nat. split; [reflexivity | lia].
Qed.

Lemma mock_loop_trace (n : nat) (st : state) :
  let st' := mock_loop PIND n st in
  writes st' = writes st
    ++ periodic (clock st) delay_ticks (concat (repeat [240; 255] n)) /\
  clock st' = (clock st + n * (2 * delay_ticks))%nat.
Proof.
  revert st. induction n as [|n IH]; intros st.
  - cbn [celebrate_loop mock_loop repeat concat]. cbn zeta.
    rewrite periodic_nil, app_nil_r. split; [reflexivity | lia].
  - cbn [mock_loop repeat concat]. cbn zeta.
    destruct (IH (show PIND 255 (show PIND 240 st))) as [Hw Hc].
    rewrite Hw, Hc, !show_writes, !show_clock, <- !app_assoc.
    cbn [app]. rewrite !periodic_cons. split; [reflexivity | lia].
Qed.

End Animations.

(** ** Polling the switches *)

Section Polling.

Variable PIND : nat -> Z.

Lemma feeds_nil c : feeds PIND c [].
Proof. intros n H. cbn in H. lia. Qed.

Lemma feeds_cons c v l :
  feeds PIND c (v :: l) <-> PIND c = v /\ feeds PIND (S c) l.
Proof.
  split.
  - intros H. split.
    + specialize (H 0%nat). cbn in H. rewrite Nat.add_0_r in H. apply H. lia.
    + intros n Hn. specialize (H (S n)). cbn in H.
      replace (S c + n)%nat with (c + S n)%nat by lia. apply H. lia.
  - intros [H0 H] [|n] Hn.
    + cbn. rewrite Nat.add_0_r. exact H0.
    + cbn in *. replace (c + S n)%nat with (S c + n)%nat by lia.
      apply H. lia.
Qed.

Lemma feeds_app c a b :
  feeds PIND c (a ++ b)
  <-> feeds PIND c a /\ feeds PIND (c + length a) b.
Proof.
  revert c. induction a as [|v a IH]; intros c.
  - cbn [app length]. rewrite Nat.add_0_r. split.
    + intros H. split; [apply feeds_nil | exact H].
    + intros [_ H]. exact H.
  - cbn [app length]. rewrite !feeds_cons, IH.
    replace (S c + length a)%nat with (c + S (length a))%nat by lia.
    tauto.
Qed.

Lemma sampled_sampled a b st :
  sampled PIND a (sampled PIND b st) = sampled PIND (b + a) st.
Proof.
  destruct b as [|b]; [reflexivity|].
  destruct a as [|a]; simpl.
  - rewrite Nat.add_0_r. reflexivity.
  - f_equal; try lia. f_equal; lia.
Qed.

Lemma read_PIND_sampled st : read_PIND PIND st = sampled PIND 1 st.
Proof.
  unfold read_PIND, sampled. f_equal; try lia. f_equal; lia.
Qed.

Lemma sampled_clock n st : clock (sampled PIND n st) = (clock st + n)%nat.
Proof. destruct n; simpl; lia. Qed.

Lemma sampled_portb n st : portb (sampled PIND n st) = portb st.
Proof. destruct n; reflexivity. Qed.

Lemma sampled_writes n st : writes (sampled PIND n st) = writes st.
Proof. unfold writes. now rewrite sampled_portb. Qed.

Lemma sampled_seq n st : seq (sampled PIND n st) = seq st.
Proof. destruct n; reflexivity. Qed.

Lemma sampled_seq_len n st : seq_len (sampled PIND n st) = seq_len st.
Proof. destruct n; reflexivity. Qed.

Lemma sampled_sleep n st : sleep (sampled PIND n st) = sleep st.
Proof. destruct n; reflexivity. Qed.

Lemma sampled_rcalls n st : rcalls (sampled PIND n st) = rcalls st.
Proof. destruct n; reflexivity. Qed.

Lemma sampled_keyboard n st :
  keyboard (sampled PIND (S n) st) = PIND (clock st + n)%nat.
Proof. reflexivity. Qed.

(** [while_key_not key] skips the samples that differ from [key] and stops
    at the first that equals it. *)
Lemma while_key_not_feeds (key : Z) (l : list Z) (fuel : nat) (st : state) :
  Forall (fun v => v <> key) l ->
  feeds PIND (clock st) (l ++ [key]) ->
  (length l < fuel)%nat ->
  while_key_not PIND fuel key st = Ret tt (sampled PIND (S (length l)) st).
Proof.
  revert fuel st. induction l as [|v l IH]; intros fuel st Hl Hf Hfuel.
  - destruct fuel as [|fuel]; [cbn in Hfuel; lia|].
    cbn [app] in Hf. apply feeds_cons in Hf. destruct Hf as [H0 _].
    cbn [while_key_not]. cbn [read_PIND keyboard]. rewrite H0, Z.eqb_refl.
    now rewrite read_PIND_sampled.
  - destruct fuel as [|fuel]; [cbn in Hfuel; lia|].
    cbn [app] in Hf. apply feeds_cons in Hf. destruct Hf as [H0 Hf].
    apply Forall_cons_iff in Hl. destruct Hl as [Hv Hl'].
    cbn [while_key_not]. cbn [read_PIND keyboard]. rewrite H0.
    destruct (Z.eqb_spec v key) as [E|_]; [contradiction|].
    rewrite read_PIND_sampled, IH.
    + rewrite sampled_sampled. reflexivity.
    + exact Hl'.
    + rewrite sampled_clock. now replace (clock st + 1)%nat with (S (clock st)) by lia.
    + cbn [length] in Hfuel. lia.
Qed.

(** The timed loop stops at the first sample that shows a pressed key... *)
Lemma key_poll_pressed (m budget : nat) (k : Z) (st : state) :
  feeds PIND (clock st) (repeat 255 m ++ [k]) ->
  k <> 255 -> (m < budget)%nat ->
  key_poll PIND budget st = sampled PIND (S m) st.
Proof.
  revert budget st. induction m as [|m IH]; intros budget st Hf Hk Hb;
    (destruct budget as [|budget]; [lia|]);
    cbn [repeat app] in Hf; apply feeds_cons in Hf; destruct Hf as [H0 Hf];
    cbn [key_poll]; cbn [read_PIND keyboard]; rewrite H0.
  - destruct (Z.eqb_spec k 255) as [E|_]; [contradiction|].
    now rewrite read_PIND_sampled.
  - cbn [Z.eqb Pos.eqb]. rewrite read_PIND_sampled, IH.
    + now rewrite sampled_sampled.
    + rewrite sampled_clock. now replace (clock st + 1)%nat with (S (clock st)) by lia.
    + exact Hk.
    + lia.
Qed.

(** ... and gives up after [budget] samples without one. *)
Lemma key_poll_timeout (budget : nat) (st : state) :
  feeds PIND (clock st) (repeat 255 budget) ->
  key_poll PIND budget st = sampled PIND budget st.
Proof.
  revert st. induction budget as [|budget IH]; intros st Hf; [reflexivity|].
  cbn [repeat] in Hf. apply feeds_cons in Hf. destruct Hf as [H0 Hf].
  cbn [key_poll]. cbn [read_PIND keyboard]. rewrite H0. cbn [Z.eqb Pos.eqb].
  rewrite read_PIND_sampled, IH.
  - now rewrite sampled_sampled.
  - rewrite sampled_clock. now replace (clock st + 1)%nat with (S (clock st)) by lia.
Qed.

End Polling.

(** ** One key *)

Lemma same_globals_refl st : same_globals st st.
Proof. repeat split. Qed.

Lemma same_globals_trans a b c :
  same_globals a b -> same_globals b c -> same_globals a c.
Proof. unfold same_globals. intuition congruence. Qed.

Section WaitForKey.

Variable PIND : nat -> Z.

Lemma wait_for_key_unfold fuel key st :
  wait_for_key PIND fuel key st =
  (while_key_not PIND fuel 255 st ;;; fun st1 =>
   let st2 := key_poll PIND key_budget st1 in
   let st3 := write_PORTB (keyboard st2) st2 in
   let error := if keyboard st3 =? key then 0 else 1 in
   while_key_not PIND fuel 255 st3 ;;; fun st4 =>
   Ret error (write_PORTB (keyboard st4) st4)).
Proof. reflexivity. Qed.

(** The common part of the two cases: [n] samples are read before the
    pattern [k] is mirrored, then [held] is skipped up to the release. *)
Lemma wait_for_key_tail (fuel : nat) (key k : Z) (held : list Z)
      (st2 : state) :
  keyboard st2 = k ->
  Forall (fun v => v <> 255) held ->
  (length held < fuel)%nat ->
  feeds PIND (clock st2) (held ++ [255]) ->
  exists st',
    (let st3 := write_PORTB (keyboard st2) st2 in
     let error := if keyboard st3 =? key then 0 else 1 in
     while_key_not PIND fuel 255 st3 ;;; fun st4 =>
     Ret error (write_PORTB (keyboard st4) st4))
    = Ret (if k =? key then 0 else 1) st' /\
    clock st' = (clock st2 + S (length held))%nat /\
    writes st' = writes st2
      ++ [(clock st2, k); ((clock st2 + S (length held))%nat, 255)] /\
    same_globals st2 st'.
Proof.
  intros Hk Hheld Hfuel Hf. cbn zeta.
  rewrite (while_key_not_feeds PIND 255 held fuel) by assumption.
  cbn [bind].
  eexists. split; [|split; [|split]].
  - cbn [write_PORTB keyboard]. rewrite Hk. reflexivity.
  - cbn [write_PORTB clock]. cbn. lia.
  - rewrite writes_write, sampled_writes, writes_write, sampled_clock,
      sampled_keyboard, <- app_assoc.
    cbn [write_PORTB clock app].
    assert (E : PIND (clock st2 + length held)%nat = 255).
    { destruct (proj1 (feeds_app PIND _ _ _) Hf) as [_ H].
      apply feeds_cons in H. apply H. }
    rewrite E. reflexivity.
  - repeat split.
Qed.

Lemma wait_for_key_gesture (fuel : nat) (key : Z) (g : gesture) (st : state) :
  valid_gesture fuel g ->
  feeds PIND (clock st) (samples g) ->
  exists st',
    wait_for_key PIND fuel key st
    = Ret (if seen g =? key then 0 else 1) st' /\
    clock st' = (clock st + length (samples g))%nat /\
    writes st' = writes st
      ++ [((clock st + detect_ticks g)%nat, seen g);
          ((clock st + length (samples g))%nat, 255)] /\
    same_globals st st'.
Proof.
  intros (Hlead & Hpressed & Hreact & Hne & Hfl & Hfp) Hf.
  unfold samples in Hf.
  apply feeds_app in Hf. destruct Hf as [Hf1 Hf2].
  rewrite length_app in Hf2. cbn [length] in Hf2.
  rewrite wait_for_key_unfold.
  rewrite (while_key_not_feeds PIND 255 (lead g) fuel st) by assumption.
  cbn [bind].
  set (st1 := sampled PIND (S (length (lead g))) st) in *.
  assert (Hc1 : clock st1 = (clock st + (length (lead g) + 1))%nat).
  { unfold st1. rewrite sampled_clock. lia. }
  rewrite <- Hc1 in Hf2.
  unfold seen, detect_ticks, samples, timed_out in *.
  rewrite !length_app, repeat_length. cbn [length].
  destruct (Nat.leb_spec key_budget (reaction g)) as [Hto | Hto].
  - (* time-out *)
    assert (reaction g = key_budget) as Er by lia.
    apply feeds_app in Hf2. destruct Hf2 as [Hf2 Hf3].
    rewrite repeat_length in Hf3. rewrite Er in Hf2.
    pose proof (key_poll_timeout PIND key_budget st1 Hf2) as Hp.
    rewrite Hp. set (st2 := sampled PIND key_budget st1) in *.
    assert (Hc2 : clock st2 = (clock st1 + reaction g)%nat).
    { unfold st2. rewrite sampled_clock. lia. }
    rewrite <- Hc2 in Hf3.
    assert (Hw2 : writes st2 = writes st)
      by (unfold st2, st1; now rewrite !sampled_writes).
    assert (Hk2 : keyboard st2 = 255).
    { unfold st2. destruct key_budget as [|b] eqn:Eb.
      - discriminate.
      - rewrite sampled_keyboard.
        rewrite (Hf2 b) by (rewrite repeat_length; lia).
        apply nth_repeat_lt. lia. }
    destruct (wait_for_key_tail fuel key 255 (pressed g) st2 Hk2 Hpressed Hfp Hf3)
      as (st' & Hrun & Hc & Hw & Hg).
    exists st'. split; [exact Hrun|]. split; [lia|]. split.
    + rewrite Hw, Hw2, Hc2, Hc1. same_trace.
    + eapply same_globals_trans; [|exact Hg].
      unfold st2, st1. repeat split;
        now rewrite ?sampled_seq, ?sampled_seq_len, ?sampled_sleep.
  - (* a key is pressed in time *)
    destruct (pressed g) as [|k held] eqn:Ep; [now destruct Hne|].
    apply Forall_cons_iff in Hpressed. destruct Hpressed as [Hk Hheld].
    cbn [hd].
    replace (repeat 255 (reaction g) ++ (k :: held) ++ [255])
      with ((repeat 255 (reaction g) ++ [k]) ++ held ++ [255]) in Hf2
      by (rewrite <- !app_assoc; reflexivity).
    apply feeds_app in Hf2. destruct Hf2 as [Hf2 Hf3].
    rewrite length_app, repeat_length in Hf3. cbn [length] in Hf3.
    pose proof (key_poll_pressed PIND (reaction g) key_budget k st1 Hf2 Hk Hto)
      as Hp.
    rewrite Hp. set (st2 := sampled PIND (S (reaction g)) st1) in *.
    assert (Hc2 : clock st2 = (clock st1 + (reaction g + 1))%nat).
    { unfold st2. rewrite sampled_clock. lia. }
    rewrite <- Hc2 in Hf3.
    assert (Hw2 : writes st2 = writes st)
      by (unfold st2, st1; now rewrite !sampled_writes).
    assert (Hk2 : keyboard st2 = k).
    { unfold st2. rewrite sampled_keyboard.
      rewrite (Hf2 (reaction g)) by (rewrite length_app, repeat_length; cbn; lia).
      rewrite app_nth2 by (rewrite repeat_length; lia).
      rewrite repeat_length, Nat.sub_diag. reflexivity. }
    cbn [length] in Hfp.
    destruct (wait_for_key_tail fuel key k held st2 Hk2 Hheld ltac:(lia) Hf3)
      as (st' & Hrun & Hc & Hw & Hg).
    exists st'. split; [exact Hrun|]. split; [cbn [length]; lia|]. split.
    + rewrite Hw, Hw2, Hc2, Hc1. cbn [length]. same_trace.
    + eapply same_globals_trans; [|exact Hg].
      unfold st2, st1. repeat split;
        now rewrite ?sampled_seq, ?sampled_seq_len, ?sampled_sleep.
Qed.

End WaitForKey.

(** ** Projections of the states the primitives produce *)

Lemma write_PORTB_seq v st : seq (write_PORTB v st) = seq st.
Proof. reflexivity. Qed.

Lemma write_PORTB_seq_len v st : seq_len (write_PORTB v st) = seq_len st.
Proof. reflexivity. Qed.

Lemma write_PORTB_sleep v st : sleep (write_PORTB v st) = sleep st.
Proof. reflexivity. Qed.

Lemma write_PORTB_clock v st : clock (write_PORTB v st) = clock st.
Proof. reflexivity. Qed.

Lemma write_PORTB_keyboard v st : keyboard (write_PORTB v st) = keyboard st.
Proof. reflexivity. Qed.

Lemma write_PORTB_rcalls v st : rcalls (write_PORTB v st) = rcalls st.
Proof. reflexivity. Qed.

Create Rewrite HintDb fields.

#[local] Hint Rewrite
  write_PORTB_seq write_PORTB_seq_len write_PORTB_sleep write_PORTB_clock
  write_PORTB_keyboard write_PORTB_rcalls
  idle_seq idle_seq_len idle_sleep idle_clock idle_rcalls
  sampled_seq sampled_seq_len sampled_sleep sampled_clock sampled_rcalls
  writes_write writes_idle sampled_writes : fields.

(** ** Playback *)

Lemma symbols_from_S s j n :
  symbols_from s j (S n) = symbol s j :: symbols_from s (j + 1) n.
Proof.
  unfold symbols_from. cbn [List.seq map]. rewrite Z.add_0_r. f_equal.
  rewrite <- seq_shift, map_map. apply map_ext. intros k. f_equal. lia.
Qed.

Lemma symbols_from_length s j n : length (symbols_from s j n) = n.
Proof. unfold symbols_from. now rewrite length_map, length_seq. Qed.

Section Playback.

Variable PIND : nat -> Z.

Lemma play_playback_trace (n : nat) (j : Z) (st : state) :
  let st' := play_playback PIND n j st in
  writes st' = writes st
    ++ periodic (clock st) (4 * delay_ticks)
                (frames (symbols_from (seq st) j n)) /\
  clock st' = (clock st + n * (8 * delay_ticks))%nat /\
  same_globals st st'.
Proof.
  revert j st. induction n as [|n IH]; intros j st.
  - cbn [play_playback]. cbn zeta. unfold symbols_from, frames.
    cbn [List.seq map flat_map].
    rewrite periodic_nil, app_nil_r. repeat split. lia.
  - cbn [play_playback]. cbn zeta. rewrite !delay_long_0. cbn [snd].
    change (Z.to_nat 4) with 4%nat.
    set (v := number2bits (symbol (seq st) j)).
    set (st4 := idle PIND (4 * delay_ticks)
                  (write_PORTB 255
                     (idle PIND (4 * delay_ticks) (write_PORTB v st)))).
    assert (Hs : seq st4 = seq st)
      by (unfold st4; now autorewrite with fields).
    assert (Hg : same_globals st st4).
    { unfold st4. repeat split; now autorewrite with fields. }
    assert (Hc : clock st4 = (clock st + 8 * delay_ticks)%nat).
    { unfold st4. autorewrite with fields. lia. }
    assert (Hw : writes st4 = writes st
              ++ [(clock st, v); ((clock st + 4 * delay_ticks)%nat, 255)]).
    { unfold st4. autorewrite with fields. now rewrite <- app_assoc. }
    destruct (IH (j + 1) st4) as (IHw & IHc & IHg). cbn zeta in *.
    rewrite IHw, IHc, Hw, Hc, Hs, symbols_from_S, <- app_assoc.
    split; [|split].
    + unfold frames. cbn [flat_map app]. rewrite !periodic_cons.
      fold v. same_trace.
    + lia.
    + exact (same_globals_trans _ _ _ Hg IHg).
Qed.

End Playback.

(** ** Verification of one round position *)

Section Verification.

Variable PIND : nat -> Z.

Lemma expected_keys_S s j n :
  expected_keys s j (S n)
  = number2bits (symbol s j) :: expected_keys s (j + 1) n.
Proof. unfold expected_keys. now rewrite symbols_from_S. Qed.

(** The player makes one gesture for each of the [length gs] symbols. *)
Lemma play_verify_script (fuel : nat) (gs : list gesture) (j : Z)
      (st : state) :
  Forall (valid_gesture fuel) gs ->
  feeds PIND (clock st) (flat_map samples gs) ->
  exists lost st',
    play_verify PIND fuel (length gs) j st = Ret lost st' /\
    (lost = false <-> map seen gs = expected_keys (seq st) j (length gs)) /\
    (lost = false ->
     clock st' = (clock st + length (flat_map samples gs))%nat) /\
    same_globals st st'.
Proof.
  revert j st. induction gs as [|g gs IH]; intros j st Hv Hf.
  - exists false, st. cbn. repeat split. lia.
  - apply Forall_cons_iff in Hv. destruct Hv as [Hg Hv].
    cbn [flat_map] in Hf. apply feeds_app in Hf. destruct Hf as [Hf1 Hf2].
    destruct (wait_for_key_gesture PIND fuel
                (number2bits (symbol (seq st) j)) g st Hg Hf1)
      as (st1 & Hrun & Hc & _ & Hglob).
    cbn [length play_verify]. rewrite Hrun. cbn [bind].
    rewrite expected_keys_S. cbn [map flat_map]. rewrite length_app.
    destruct (Z.eqb_spec (seen g) (number2bits (symbol (seq st) j)))
      as [E | E].
    + cbn [Z.eqb negb].
      rewrite <- Hc in Hf2.
      destruct (IH (j + 1) st1 Hv Hf2) as (lost & st' & Hrun' & Hiff & Hck & Hg').
      exists lost, st'. destruct Hglob as (Hs & Hglob').
      rewrite Hs in Hiff. split; [exact Hrun'|]. split; [|split].
      * rewrite Hiff. split; [intros ->; now rewrite E|].
        intros H. now injection H.
      * intros Hl. rewrite (Hck Hl), Hc. lia.
      * eapply same_globals_trans; [|exact Hg']. split; assumption.
    + cbn [Z.eqb negb]. exists true, st1.
      split; [reflexivity|]. split; [|split].
      * split; [discriminate|]. intros H. injection H as H _. contradiction.
      * discriminate.
      * exact Hglob.
Qed.

(** The gestures [good] match, the next one, [bad], does not: the loop
    leaves [play] at once. *)
Lemma play_verify_fails (fuel : nat) (good : list gesture) (bad : gesture)
      (n : nat) (j : Z) (st : state) :
  Forall (valid_gesture fuel) (good ++ [bad]) ->
  (length good < n)%nat ->
  feeds PIND (clock st) (flat_map samples (good ++ [bad])) ->
  map seen good = expected_keys (seq st) j (length good) ->
  seen bad <> number2bits (symbol (seq st) (j + Z.of_nat (length good))) ->
  exists st',
    play_verify PIND fuel n j st = Ret true st' /\
    clock st' = (clock st + length (flat_map samples (good ++ [bad])))%nat /\
    (exists before t,
        writes st' = before ++ [(t, seen bad); (clock st', 255)]) /\
    same_globals st st'.
Proof.
  revert n j st. induction good as [|g good IH]; intros n j st Hv Hn Hf Hok Hbad;
    (destruct n as [|n]; [cbn in Hn; lia|]).
  - cbn [app flat_map] in *. rewrite app_nil_r in *.
    apply Forall_cons_iff in Hv. destruct Hv as [Hg _].
    cbn [length] in Hbad. rewrite Z.add_0_r in Hbad.
    destruct (wait_for_key_gesture PIND fuel
                (number2bits (symbol (seq st) j)) bad st Hg Hf)
      as (st1 & Hrun & Hc & Hw & Hglob).
    cbn [play_verify]. rewrite Hrun. cbn [bind].
    destruct (Z.eqb_spec (seen bad) (number2bits (symbol (seq st) j)))
      as [E | _]; [contradiction|].
    cbn [Z.eqb negb]. exists st1. split; [reflexivity|].
    split; [exact Hc|]. split; [|exact Hglob].
    exists (writes st), (clock st + detect_ticks bad)%nat.
    now rewrite Hw, Hc.
  - cbn [app flat_map] in Hf, Hv.
    apply Forall_cons_iff in Hv. destruct Hv as [Hg Hv].
    apply feeds_app in Hf. destruct Hf as [Hf1 Hf2].
    cbn [length] in Hok. rewrite expected_keys_S in Hok.
    cbn [map] in Hok. injection Hok as Eg Hok.
    destruct (wait_for_key_gesture PIND fuel
                (number2bits (symbol (seq st) j)) g st Hg Hf1)
      as (st1 & Hrun & Hc & _ & Hglob).
    cbn [play_verify]. rewrite Hrun. cbn [bind].
    rewrite Eg, Z.eqb_refl. cbn [Z.eqb negb].
    destruct Hglob as (Hs & Hglob').
    rewrite <- Hc in Hf2. rewrite <- Hs in Hok, Hbad.
    cbn [length] in Hbad, Hn.
    replace (j + Z.of_nat (S (length good)))
      with (j + 1 + Z.of_nat (length good)) in Hbad by lia.
    destruct (IH n (j + 1) st1 Hv ltac:(lia) Hf2 Hok Hbad)
      as (st' & Hrun' & Hc' & Hw' & Hg').
    exists st'. split; [exact Hrun'|]. split; [|split].
    + rewrite Hc', Hc. cbn [app flat_map]. rewrite (length_app (samples g)). lia.
    + exact Hw'.
    + eapply same_globals_trans; [|exact Hg']. split; assumption.
Qed.

End Verification.

(** ** A whole game *)

Section Rounds.

Variable PIND : nat -> Z.

Lemma script_ticks_app i a b :
  script_ticks i (a ++ b)
  = (script_ticks i a + script_ticks (i + length a) b)%nat.
Proof.
  revert i. induction a as [|gs a IH]; intros i.
  - cbn [app script_ticks length]. now rewrite Nat.add_0_r.
  - cbn [app script_ticks length]. rewrite IH.
    replace (S i + length a)%nat with (i + S (length a))%nat by lia. lia.
Qed.

Lemma script_feeds_app c i a b :
  script_feeds PIND c i (a ++ b)
  <-> script_feeds PIND c i a /\
      script_feeds PIND (c + script_ticks i a) (i + length a) b.
Proof.
  revert c i. induction a as [|gs a IH]; intros c i.
  - cbn [app script_feeds script_ticks length].
    rewrite !Nat.add_0_r. tauto.
  - cbn [app script_feeds script_ticks length]. rewrite IH.
    replace (S i + length a)%nat with (i + S (length a))%nat by lia.
    replace (c + playback_ticks i + length (flat_map samples gs)
             + script_ticks (S i) a)%nat
      with (c + (playback_ticks i + length (flat_map samples gs)
                 + script_ticks (S i) a))%nat by lia.
    tauto.
Qed.

(** The state in which the verification of round position [i] starts. *)
Lemma round_start (i : nat) (st : state) :
  let st2 := play_playback PIND (Z.to_nat (Z.of_nat i)) 0
               (snd (delay_long PIND 12 0 st)) in
  clock st2 = (clock st + playback_ticks i)%nat /\ same_globals st st2.
Proof.
  cbn zeta. rewrite delay_long_0, Nat2Z.id. cbn [snd].
  change (Z.to_nat 12) with 12%nat.
  destruct (play_playback_trace PIND i 0 (idle PIND (12 * delay_ticks) st))
    as (_ & Hc & Hg). cbn zeta in *.
  split.
  - rewrite Hc, idle_clock. unfold playback_ticks. lia.
  - eapply same_globals_trans; [|exact Hg].
    repeat split; now autorewrite with fields.
Qed.

Lemma play_rounds_S fuel n i st :
  play_rounds PIND fuel (S n) (Z.of_nat i) st =
  (lost <- play_verify PIND fuel (Z.to_nat (Z.of_nat i)) 0
             (play_playback PIND (Z.to_nat (Z.of_nat i)) 0
                (snd (delay_long PIND 12 0 st))) ;; fun st3 =>
   if lost then Ret 0 st3
   else play_rounds PIND fuel n (Z.of_nat (S i)) st3).
Proof. cbn [play_rounds]. now rewrite Nat2Z.inj_succ, Z.add_1_r. Qed.

(** The player makes all the gestures of all the rounds of the script. *)
Lemma play_rounds_script (fuel : nat) (sc : script) (i : nat) (st : state) :
  well_formed fuel i sc ->
  script_feeds PIND (clock st) i sc ->
  exists win st',
    play_rounds PIND fuel (length sc) (Z.of_nat i) st = Ret win st' /\
    (win = 1 \/ win = 0) /\
    (win = 1 <-> reproduces (seq st) i sc) /\
    (win = 1 -> clock st' = (clock st + script_ticks i sc)%nat) /\
    same_globals st st'.
Proof.
  revert i st. induction sc as [|gs sc IH]; intros i st Hwf Hf.
  - exists 1, st. cbn. repeat split; auto; lia.
  - destruct Hwf as (Hlen & Hv & Hwf). destruct Hf as (Hf1 & Hf2).
    cbn [length]. rewrite play_rounds_S.
    destruct (round_start i st) as (Hc2 & Hg2). cbn zeta in Hc2, Hg2.
    set (st2 := play_playback PIND (Z.to_nat (Z.of_nat i)) 0
                  (snd (delay_long PIND 12 0 st))) in *.
    rewrite <- Hc2 in Hf1. rewrite Nat2Z.id, <- Hlen.
    destruct (play_verify_script PIND fuel gs 0 st2 Hv Hf1)
      as (lost & st3 & Hrun & Hiff & Hck & Hg3).
    rewrite Hrun. cbn [bind].
    assert (Hs2 : seq st2 = seq st) by apply Hg2.
    rewrite Hs2 in Hiff. unfold expected_keys in Hiff. fold (symbols (seq st) (length gs)) in Hiff.
    cbn [reproduces script_ticks]. rewrite Hlen in *.
    destruct lost.
    + exists 0, st3. split; [reflexivity|]. split; [now right|].
      split; [|split].
      * split; [discriminate|]. intros [H _].
        apply Hiff in H. discriminate.
      * discriminate.
      * eapply same_globals_trans; eassumption.
    + specialize (Hck eq_refl).
      rewrite <- Hc2, <- Hck in Hf2.
      destruct (IH (S i) st3 Hwf Hf2) as (win & st' & Hrun' & Hw & Hiff' & Hck' & Hg').
      assert (Hs3 : seq st3 = seq st)
        by (rewrite <- Hs2; apply Hg3).
      rewrite Hs3 in Hiff'.
      exists win, st'. split; [exact Hrun'|]. split; [exact Hw|].
      split; [|split].
      * rewrite Hiff'. split; [intros H; split; [now apply Hiff | exact H]|].
        now intros [_ H].
      * intros H. rewrite (Hck' H), Hck, Hc2. lia.
      * eapply same_globals_trans; [|exact Hg'].
        eapply same_globals_trans; eassumption.
Qed.

(** The player reproduces the rounds [won], then in the next round the
    gestures [good], and then makes the gesture [bad], which is a wrong key
    or none in time.  Nothing is asked of the switches after that. *)
Lemma play_rounds_fails (fuel : nat) (won : script) (good : list gesture)
      (bad : gesture) (n i : nat) (st : state) :
  well_formed fuel i won ->
  reproduces (seq st) i won ->
  (length won < n)%nat ->
  (length good < i + length won)%nat ->
  Forall (valid_gesture fuel) (good ++ [bad]) ->
  map seen good = map number2bits (symbols (seq st) (length good)) ->
  seen bad <> number2bits (symbol (seq st) (Z.of_nat (length good))) ->
  script_feeds PIND (clock st) i (won ++ [good ++ [bad]]) ->
  exists st',
    play_rounds PIND fuel n (Z.of_nat i) st = Ret 0 st' /\
    clock st'
    = (clock st + script_ticks i (won ++ [good ++ [bad]]))%nat /\
    (exists before t,
        writes st' = before ++ [(t, seen bad); (clock st', 255)]) /\
    same_globals st st'.
Proof.
  revert n i st.
  induction won as [|gs won IH];
    intros n i st Hwf Hrep Hn Hpos Hv Hgood Hbad Hf;
    (destruct n as [|n]; [cbn in Hn; lia|]);
    rewrite play_rounds_S;
    destruct (round_start i st) as (Hc2 & Hg2); cbn zeta in Hc2, Hg2;
    set (st2 := play_playback PIND (Z.to_nat (Z.of_nat i)) 0
                  (snd (delay_long PIND 12 0 st))) in *;
    assert (Hs2 : seq st2 = seq st) by apply Hg2;
    rewrite Nat2Z.id.
  - cbn [app script_feeds script_ticks length] in *.
    destruct Hf as [Hf _]. rewrite <- Hc2 in Hf.
    rewrite <- Hs2 in Hgood, Hbad.
    destruct (play_verify_fails PIND fuel good bad i 0 st2 Hv ltac:(lia)
                Hf Hgood Hbad) as (st' & Hrun & Hc & Hw & Hg).
    rewrite Hrun. cbn [bind]. exists st'.
    split; [reflexivity|]. split; [|split].
    + rewrite Hc, Hc2. lia.
    + exact Hw.
    + eapply same_globals_trans; eassumption.
  - cbn [app script_feeds script_ticks length] in *.
    destruct Hwf as (Hlen & Hvgs & Hwf). destruct Hrep as (Hgs & Hrep).
    destruct Hf as (Hf1 & Hf2). rewrite <- Hc2 in Hf1.
    destruct (play_verify_script PIND fuel gs 0 st2 Hvgs Hf1)
      as (lost & st3 & Hrun & Hiff & Hck & Hg3).
    rewrite Hlen in Hrun, Hiff. rewrite Hrun. cbn [bind].
    assert (Hlost : lost = false).
    { apply Hiff. rewrite Hs2. exact Hgs. }
    rewrite Hlost in *. specialize (Hck eq_refl).
    assert (Hs3 : seq st3 = seq st) by (rewrite <- Hs2; apply Hg3).
    rewrite <- Hc2, <- Hck in Hf2. rewrite <- Hs3 in Hrep, Hgood, Hbad.
    destruct (IH n (S i) st3 Hwf Hrep ltac:(lia) ltac:(lia) Hv Hgood Hbad Hf2)
      as (st' & Hrun' & Hc & Hw & Hg).
    exists st'. split; [exact Hrun'|]. split; [|split].
    + rewrite Hc, Hck, Hc2. lia.
    + exact Hw.
    + eapply same_globals_trans; [|exact Hg].
      eapply same_globals_trans; eassumption.
Qed.

End Rounds.

(** ** Soundness of the boolean checks, input of a script *)

Lemma not_255_sound (l : list Z) :
  forallb (fun v => negb (v =? 255)) l = true ->
  Forall (fun v => v <> 255) l.
Proof.
  intros H. apply Forall_forall. intros v Hv.
  rewrite forallb_forall in H. specialize (H v Hv).
  destruct (Z.eqb_spec v 255); [discriminate | assumption].
Qed.

Lemma valid_gestureb_sound fuel g :
  valid_gestureb fuel g = true -> valid_gesture fuel g.
Proof.
  unfold valid_gestureb, valid_gesture. rewrite !andb_true_iff.
  intros (((((H1 & H2) & H3) & H4) & H5) & H6).
  repeat split.
  - now apply not_255_sound.
  - now apply not_255_sound.
  - now apply Nat.leb_le.
  - intros Ht E. rewrite Ht, E in H4. discriminate.
  - now apply Nat.ltb_lt.
  - now apply Nat.ltb_lt.
Qed.

Lemma well_formedb_sound fuel i sc :
  well_formedb fuel i sc = true -> well_formed fuel i sc.
Proof.
  revert i. induction sc as [|gs sc IH]; intros i H; [exact I|].
  cbn [well_formedb] in H. rewrite !andb_true_iff in H.
  destruct H as ((H1 & H2) & H3). cbn [well_formed]. repeat split.
  - now apply Nat.eqb_eq.
  - apply Forall_forall. intros g Hg. apply valid_gestureb_sound.
    rewrite forallb_forall in H2. now apply H2.
  - now apply IH.
Qed.

Lemma keys_eqb_spec a b : keys_eqb a b = true <-> a = b.
Proof.
  revert b. induction a as [|x a IH]; intros [|y b]; cbn [keys_eqb];
    try (split; [discriminate | congruence]); [tauto|].
  rewrite andb_true_iff, Z.eqb_eq, IH. split.
  - now intros [-> ->].
  - intros H. injection H. auto.
Qed.

Lemma reproducesb_spec s i sc :
  reproducesb s i sc = true <-> reproduces s i sc.
Proof.
  revert i. induction sc as [|gs sc IH]; intros i; cbn; [tauto|].
  now rewrite andb_true_iff, keys_eqb_spec, IH.
Qed.

Lemma feeds_stream (a l b : list Z) :
  feeds (stream (a ++ l ++ b)) (length a) l.
Proof.
  intros n Hn. unfold stream.
  rewrite app_nth2 by lia.
  replace (length a + n - length a)%nat with n by lia.
  rewrite app_nth1 by lia. apply nth_indep. exact Hn.
Qed.

Lemma script_feeds_stream (a : list Z) (i : nat) (sc : script) (b : list Z) :
  script_feeds (stream (a ++ script_input i sc ++ b)) (length a) i sc.
Proof.
  revert a i. induction sc as [|gs sc IH]; intros a i; [exact I|].
  cbn [script_input script_feeds]. split.
  - replace (a ++ (repeat 255 (playback_ticks i) ++ flat_map samples gs
                   ++ script_input (S i) sc) ++ b)
      with ((a ++ repeat 255 (playback_ticks i)) ++ flat_map samples gs
            ++ (script_input (S i) sc ++ b))
      by (rewrite <- !app_assoc; reflexivity).
    replace (length a + playback_ticks i)%nat
      with (length (a ++ repeat 255 (playback_ticks i)))
      by (rewrite length_app, repeat_length; reflexivity).
    apply feeds_stream.
  - replace (a ++ (repeat 255 (playback_ticks i) ++ flat_map samples gs
                   ++ script_input (S i) sc) ++ b)
      with ((a ++ repeat 255 (playback_ticks i) ++ flat_map samples gs)
            ++ script_input (S i) sc ++ b)
      by (rewrite <- !app_assoc; reflexivity).
    replace (length a + playback_ticks i + length (flat_map samples gs))%nat
      with (length (a ++ repeat 255 (playback_ticks i)
                      ++ flat_map samples gs))
      by (rewrite !length_app, repeat_length; lia).
    apply IH.
Qed.

(** The input of a script played from the start of the register's life. *)
Lemma script_feeds_input (sc : script) (rest : list Z) :
  script_feeds (stream (script_input 1 sc ++ rest)) 0 1 sc.
Proof. exact (script_feeds_stream [] 1 sc rest). Qed.

Lemma script_feeds_own_input (sc : script) :
  script_feeds (stream (script_input 1 sc)) 0 1 sc.
Proof.
  rewrite <- (app_nil_r (script_input 1 sc)). apply script_feeds_input.
Qed.

(** ** The player who makes no mistake *)

Lemma key_budget_pos : (key_budget <=? 0)%nat = false.
Proof.
  unfold key_budget.
  rewrite Z2Nat.inj_add by (unfold KEYTIMEOUT; lia).
  change (Z.to_nat 1) with 1%nat. rewrite Nat.add_1_r. reflexivity.
Qed.

Lemma tap_seen (k : Z) : seen (tap k) = k.
Proof.
  unfold seen, timed_out, tap. cbn [reaction pressed hd].
  now rewrite key_budget_pos.
Qed.

Lemma tap_valid (fuel : nat) (k : Z) :
  k <> 255 -> (2 <= fuel)%nat -> valid_gesture fuel (tap k).
Proof.
  intros Hk Hfuel. unfold valid_gesture, tap.
  cbn [lead reaction pressed length].
  split; [constructor|]. split; [repeat constructor; exact Hk|].
  split; [lia|]. split; [discriminate|]. lia.
Qed.

Lemma perfect_well_formed (fuel : nat) (s : Z) (i n : nat) :
  (2 <= fuel)%nat ->
  well_formed fuel i
    (map (fun i => map (fun sym => tap (number2bits sym)) (symbols s i))
         (List.seq i n)).
Proof.
  intros Hfuel. revert i. induction n as [|n IH]; intros i; [exact I|].
  cbn [List.seq map well_formed]. split; [|split; [|apply IH]].
  - unfold symbols. now rewrite length_map, symbols_from_length.
  - apply Forall_forall. intros g Hg.
    apply in_map_iff in Hg. destruct Hg as (sym & <- & Hsym).
    unfold symbols, symbols_from in Hsym.
    apply in_map_iff in Hsym. destruct Hsym as (j & <- & _).
    apply tap_valid; [|exact Hfuel].
    apply number2bits_not_idle, symbol_range.
Qed.

Lemma perfect_reproduces (s : Z) (i n : nat) :
  reproduces s i
    (map (fun i => map (fun sym => tap (number2bits sym)) (symbols s i))
         (List.seq i n)).
Proof.
  revert i. induction n as [|n IH]; intros i; [exact I|].
  cbn [List.seq map reproduces]. split; [|apply IH].
  rewrite map_map. apply map_ext. intros sym. apply tap_seen.
Qed.

(** Whatever the sequence and its length, the player who repeats each
    playback wins. *)
Lemma perfect_player_wins (s : Z) (n : nat) :
  exists st',
    play (stream (script_input 1 (perfect_script s n))) 2
         (round_state s (Z.of_nat n))
    = Ret 1 st'.
Proof.
  set (sc := perfect_script s n).
  assert (Hlen : length sc = n)
    by (unfold sc, perfect_script; now rewrite length_map, length_seq).
  destruct (play_rounds_script (stream (script_input 1 sc)) 2 sc 1
              (round_state s (Z.of_nat n)))
    as (win & st' & Hrun & _ & Hiff & _).
  - apply perfect_well_formed. lia.
  - apply script_feeds_own_input.
  - exists st'. unfold play. cbn [round_state seq_len].
    rewrite Nat2Z.id. rewrite Hlen in Hrun.
    replace win with 1 in Hrun; [exact Hrun|].
    symmetry. apply Hiff. apply perfect_reproduces.
Qed.

(** The scenario of the specification: level 0, symbols 2, 0, 3, 1, 2. *)
Example scenario_win :
  symbols 626 5 = [2; 0; 3; 1; 2] /\
  exists st',
    play (stream (script_input 1 (perfect_script 626 5))) 2
         (round_state 626 5)
    = Ret 1 st'.
Proof. split; [reflexivity | exact (perfect_player_wins 626 5)]. Qed.

(** ** Invariants *)

(** A property of the state that the register accesses keep, as long as
    only values in [ok] are written to [PORTB], is kept by every function
    of the game, whether it returns or is still polling. *)
Section Invariant.

Variable PIND : nat -> Z.
Variable Inv : state -> Prop.
Variable ok : Z -> Prop.

Hypothesis Inv_read : forall st, Inv st -> Inv (read_PIND PIND st).
Hypothesis Inv_random : forall st, Inv st -> Inv (call_random st).
Hypothesis Inv_sleep : forall v st, Inv st -> Inv (set_sleep v st).
Hypothesis Inv_write : forall v st, ok v -> Inv st -> Inv (write_PORTB v st).
Hypothesis ok_keyboard : forall st, Inv st -> ok (keyboard st).
Hypothesis ok_number2bits : forall n, 0 <= n <= 3 -> ok (number2bits n).
Hypothesis ok_255 : ok 255.
Hypothesis ok_240 : ok 240.

Lemma delay_loop_inv n i st : Inv st -> Inv (snd (delay_loop PIND n i st)).
Proof.
  revert st. induction n as [|n IH]; intros st H; [exact H|].
  cbn [delay_loop].
  destruct (negb (i =? 0) && negb (keyboard (read_PIND PIND st) =? 255)).
  - cbn [snd]. apply Inv_write; auto.
  - apply IH. auto.
Qed.

Lemma delay_inv i st : Inv st -> Inv (snd (delay PIND i st)).
Proof. apply delay_loop_inv. Qed.

Lemma delay_long_loop_inv n i st :
  Inv st -> Inv (snd (delay_long_loop PIND n i st)).
Proof.
  revert st. induction n as [|n IH]; intros st H; [exact H|].
  cbn [delay_long_loop]. pose proof (delay_inv i st H) as Hd.
  destruct (delay PIND i st) as [r st1]. cbn [snd] in Hd.
  destruct (r =? 0); [now apply IH | exact Hd].
Qed.

Lemma delay_long_inv c i st : Inv st -> Inv (snd (delay_long PIND c i st)).
Proof. apply delay_long_loop_inv. Qed.

Lemma show_inv v st : ok v -> Inv st -> Inv (show PIND v st).
Proof. intros Hv H. unfold show. apply delay_inv. now apply Inv_write. Qed.

Lemma ok_254 : ok 254.
Proof. apply (ok_number2bits 0). lia. Qed.

Lemma ok_253 : ok 253.
Proof. apply (ok_number2bits 1). lia. Qed.

Lemma ok_251 : ok 251.
Proof. apply (ok_number2bits 2). lia. Qed.

Lemma ok_247 : ok 247.
Proof. apply (ok_number2bits 3). lia. Qed.

Lemma celebrate_inv st : Inv st -> Inv (celebrate PIND st).
Proof.
  pose proof ok_254. pose proof ok_253. pose proof ok_251. pose proof ok_247.
  assert (Hc : forall s, Inv s -> Inv (celebrate_cycle PIND s)).
  { intros s Hs. unfold celebrate_cycle. repeat apply show_inv; auto. }
  intros Hst. unfold celebrate. cbn [celebrate_loop]. auto.
Qed.

Lemma mock_loop_inv n st : Inv st -> Inv (mock_loop PIND n st).
Proof.
  revert st. induction n as [|n IH]; intros st H; [exact H|].
  cbn [mock_loop]. apply IH. repeat apply show_inv; auto.
Qed.

Lemma feedback_inv win st : Inv st -> Inv (feedback PIND win st).
Proof.
  intros H. unfold feedback. destruct (negb (win =? 0)).
  - now apply celebrate_inv.
  - now apply mock_loop_inv.
Qed.

Lemma while_key_inv fuel key st :
  Inv st -> Inv (final_state (while_key PIND fuel key st)).
Proof.
  revert st. induction fuel as [|fuel IH]; intros st H; [exact H|].
  cbn [while_key]. destruct (keyboard (read_PIND PIND st) =? key).
  - apply IH. auto.
  - cbn. auto.
Qed.

Lemma while_key_not_inv fuel key st :
  Inv st -> Inv (final_state (while_key_not PIND fuel key st)).
Proof.
  revert st. induction fuel as [|fuel IH]; intros st H; [exact H|].
  cbn [while_key_not]. destruct (keyboard (read_PIND PIND st) =? key).
  - cbn. auto.
  - apply IH. auto.
Qed.

Lemma key_poll_inv budget st : Inv st -> Inv (key_poll PIND budget st).
Proof.
  revert st. induction budget as [|budget IH]; intros st H; [exact H|].
  cbn [key_poll]. destruct (keyboard (read_PIND PIND st) =? 255); auto.
Qed.

(** Sequencing: the invariant passes through [bind]. *)
Lemma bind_inv {A B : Type} (m : outcome A) (k : A -> state -> outcome B) :
  Inv (final_state m) ->
  (forall a st, Inv st -> Inv (final_state (k a st))) ->
  Inv (final_state (bind m k)).
Proof. intros Hm Hk. destruct m; cbn in *; auto. Qed.

Lemma wait_for_key_inv fuel key st :
  Inv st -> Inv (final_state (wait_for_key PIND fuel key st)).
Proof.
  intros H. unfold wait_for_key.
  apply bind_inv; [now apply while_key_not_inv|]. intros _ st1 H1.
  cbn zeta. apply bind_inv.
  - apply while_key_not_inv. apply Inv_write.
    + apply ok_keyboard. now apply key_poll_inv.
    + now apply key_poll_inv.
  - intros _ st4 H4. cbn. apply Inv_write; auto.
Qed.

Lemma play_playback_inv n j st : Inv st -> Inv (play_playback PIND n j st).
Proof.
  revert j st. induction n as [|n IH]; intros j st H; [exact H|].
  cbn [play_playback]. apply IH.
  apply delay_long_inv, Inv_write; [exact ok_255|].
  apply delay_long_inv, Inv_write; [|exact H].
  apply ok_number2bits, symbol_range.
Qed.

Lemma play_verify_inv fuel n j st :
  Inv st -> Inv (final_state (play_verify PIND fuel n j st)).
Proof.
  revert j st. induction n as [|n IH]; intros j st H; [exact H|].
  cbn [play_verify]. apply bind_inv; [now apply wait_for_key_inv|].
  intros e st1 H1. destruct (negb (e =? 0)); [exact H1 | now apply IH].
Qed.

Lemma play_rounds_inv fuel n i st :
  Inv st -> Inv (final_state (play_rounds PIND fuel n i st)).
Proof.
  revert i st. induction n as [|n IH]; intros i st H; [exact H|].
  cbn [play_rounds]. apply bind_inv.
  - apply play_verify_inv, play_playback_inv, delay_long_inv, H.
  - intros lost st3 H3. destruct lost; [exact H3 | now apply IH].
Qed.

Lemma play_inv fuel st : Inv st -> Inv (final_state (play PIND fuel st)).
Proof. intros H. unfold play. now apply play_rounds_inv. Qed.

(** The same for the rest of the program, for a property that does not
    depend on the sequence that [gen_seq] draws. *)
Variable random : nat -> Z.

Hypothesis Inv_gen_seq : forall s len st,
  Inv st ->
  Inv (mkState (sleep st) (keyboard st) s len
               (portb st) (clock st) (S (rcalls st))).

Lemma gen_seq_inv level st :
  Inv st -> Inv (final_state (gen_seq random level st)).
Proof.
  intros H. unfold gen_seq. destruct (array_get lengths level); cbn; auto.
Qed.

Lemma standby_chase_inv n leds st :
  chase_ok ok n leds -> Inv st -> Inv (snd (standby_chase PIND n leds st)).
Proof.
  revert leds st. induction n as [|n IH]; intros leds st Hl H; [exact H|].
  destruct Hl as [Hleds Hnext]. cbn [standby_chase].
  set (st1 := if sleep st =? 0 then write_PORTB leds st else st).
  assert (H1 : Inv st1) by (unfold st1; destruct (sleep st =? 0); auto).
  pose proof (delay_inv 1 st1 H1) as Hd.
  destruct (delay PIND 1 st1) as [r st2]. cbn [snd] in Hd.
  destruct (r =? 0); [now apply IH|]. cbn [snd]. auto.
Qed.

Lemma standby_loop_inv n st :
  Inv st -> Inv (snd (standby_loop PIND n st)).
Proof.
  revert st. induction n as [|n IH]; intros st H.
  - cbn. auto.
  - cbn [standby_loop].
    assert (Hc : chase_ok ok 4 254).
    { cbn. pose proof ok_254. pose proof ok_253. pose proof ok_251.
      pose proof ok_247. tauto. }
    pose proof (standby_chase_inv 4 254 st Hc H) as Hs.
    destruct (standby_chase PIND 4 254 st) as [hit st1]. cbn [snd] in Hs.
    destruct hit; [exact Hs | now apply IH].
Qed.

Lemma standby_inv st : Inv st -> Inv (snd (standby PIND st)).
Proof. intros H. unfold standby. apply standby_loop_inv. auto. Qed.

Lemma while_keypattern_not_inv fuel keypattern st :
  Inv st -> Inv (final_state (while_keypattern_not PIND fuel keypattern st)).
Proof.
  revert st. induction fuel as [|fuel IH]; intros st H; [exact H|].
  cbn [while_keypattern_not]. pose proof (standby_inv st H) as Hs.
  destruct (standby PIND st) as [timeout st1]. cbn [snd] in Hs.
  destruct (negb (timeout =? 0)); [cbn; auto|].
  destruct (Z.land (Z.land (Z.lnot (keyboard st1)) keypattern) 255 =? 0);
    [now apply IH | cbn; auto].
Qed.

Lemma init_inv fuel st :
  Inv st -> Inv (final_state (init PIND random fuel st)).
Proof.
  intros H. unfold init.
  apply bind_inv; [now apply while_keypattern_not_inv|]. intros _ st1 H1.
  destruct (negb (sleep st1 =? 0)); [exact H1|]. cbn zeta.
  apply bind_inv; [apply while_key_not_inv; auto|]. intros _ st3 H3.
  apply bind_inv; [now apply while_keypattern_not_inv|]. intros _ st4 H4.
  destruct (negb (sleep st4 =? 0)); [exact H4|].
  apply bind_inv; [apply while_key_not_inv; auto|]. intros _ st6 H6.
  apply gen_seq_inv. auto.
Qed.

Lemma main_round_inv fuel st :
  Inv st -> Inv (final_state (main_round PIND random fuel st)).
Proof.
  intros H. unfold main_round.
  apply bind_inv; [now apply init_inv|]. intros _ st1 H1.
  destruct (negb (sleep st1 =? 0)); [exact H1|].
  apply bind_inv; [now apply play_inv|]. intros win st2 H2.
  now apply while_key_not_inv, feedback_inv.
Qed.

Lemma main_loop_inv rounds fuel st :
  Inv st -> Inv (final_state (main_loop PIND random rounds fuel st)).
Proof.
  revert st. induction rounds as [|rounds IH]; intros st H; [exact H|].
  cbn [main_loop]. apply bind_inv; [now apply main_round_inv|].
  intros _ st1 H1. now apply IH.
Qed.

End Invariant.

(** ** Bits of the sequence *)

Lemma gen_seq_in_bounds (random : nat -> Z) (level : Z) (st : state) :
  0 <= level <= 3 ->
  exists len,
    array_get lengths level = Some len /\
    gen_seq random level st
    = Ret tt (mkState (sleep st) (keyboard st)
                      (random (rcalls st) mod 2 ^ 32) len
                      (portb st) (clock st) (S (rcalls st))).
Proof.
  intros H. unfold gen_seq.
  destruct (small_cases level H) as [-> | [-> | [-> | ->]]];
    eexists; split; reflexivity.
Qed.

Lemma bits_above (x n b : Z) :
  0 <= x < 2 ^ n -> 0 <= n <= b -> Z.testbit x b = false.
Proof.
  intros Hx Hb.
  destruct (Z.eq_dec x 0) as [-> | Hne]; [apply Z.bits_0|].
  apply Z.bits_above_log2; [lia|].
  assert (Z.log2 x < n) by (apply Z.log2_lt_pow2; lia). lia.
Qed.

(** The symbols below index [n] only depend on the [2 * n] low bits. *)
Lemma symbol_low_bits (s n j : Z) :
  0 <= j < n -> symbol (s mod 2 ^ (2 * n)) j = symbol s j.
Proof.
  intros Hj. unfold symbol. rewrite Z.shiftl_mul_pow2 by lia.
  change (2 ^ 1) with 2.
  apply Z.bits_inj'. intros k Hk.
  rewrite !Z.land_spec, !Z.shiftr_spec by lia.
  destruct (Z.ltb_spec k 2) as [Hlt | Hge].
  - rewrite Z.mod_pow2_bits_low by lia. reflexivity.
  - rewrite (bits_above 3 2 k) by lia. now rewrite !andb_false_r.
Qed.

(** ** The rounds before a position *)

Section Positions.

Variable PIND : nat -> Z.

(** The playback that opens a round. *)
Lemma round_playback (i : nat) (st : state) :
  let st2 := play_playback PIND i 0 (snd (delay_long PIND 12 0 st)) in
  writes st2
  = writes st
    ++ periodic (clock st + 12 * delay_ticks) (4 * delay_ticks)
                (frames (symbols (seq st) i)) /\
  clock st2 = (clock st + playback_ticks i)%nat /\
  same_globals st st2.
Proof.
  cbn zeta. pose proof (round_start PIND i st) as H. cbn zeta in H.
  rewrite Nat2Z.id in H. split; [|exact H].
  rewrite delay_long_0. cbn [snd]. change (Z.to_nat 12) with 12%nat.
  destruct (play_playback_trace PIND i 0 (idle PIND (12 * delay_ticks) st))
    as (Hw & _). cbn zeta in Hw.
  rewrite Hw. autorewrite with fields. reflexivity.
Qed.

Lemma play_verify_adds_writes (fuel n : nat) (j : Z) (st : state) :
  exists more,
    writes (final_state (play_verify PIND fuel n j st)) = writes st ++ more.
Proof.
  apply (play_verify_inv PIND
           (fun s => exists more, writes s = writes st ++ more)
           (fun _ => True)); auto.
  - intros v s _ [more Hm]. exists (more ++ [(clock s, v)]).
    now rewrite writes_write, Hm, app_assoc.
  - exists []. now rewrite app_nil_r.
Qed.

(** The player who reproduces the rounds [won] brings [play_rounds] to
    the next position, with all the rounds that are left still to play. *)
Lemma play_rounds_prefix (fuel : nat) (won : script) (n i : nat)
      (st : state) :
  well_formed fuel i won ->
  reproduces (seq st) i won ->
  script_feeds PIND (clock st) i won ->
  exists st1 before,
    play_rounds PIND fuel (length won + n) (Z.of_nat i) st
    = play_rounds PIND fuel n (Z.of_nat (i + length won)) st1 /\
    clock st1 = (clock st + script_ticks i won)%nat /\
    writes st1 = writes st ++ before /\
    same_globals st st1.
Proof.
  revert i st. induction won as [|gs won IH]; intros i st Hwf Hrep Hf.
  - exists st, []. cbn [length Nat.add script_ticks].
    rewrite !Nat.add_0_r, app_nil_r.
    repeat split; reflexivity.
  - destruct Hwf as (Hlen & Hv & Hwf). destruct Hrep as (Hgs & Hrep).
    destruct Hf as (Hf1 & Hf2).
    cbn [length Nat.add]. rewrite play_rounds_S.
    destruct (round_playback i st) as (Hw2 & Hc2 & Hg2). cbn zeta in *.
    rewrite Nat2Z.id.
    set (st2 := play_playback PIND i 0 (snd (delay_long PIND 12 0 st))) in *.
    assert (Hs2 : seq st2 = seq st) by apply Hg2.
    rewrite <- Hc2 in Hf1.
    destruct (play_verify_script PIND fuel gs 0 st2 Hv Hf1)
      as (lost & st3 & Hrun & Hiff & Hck & Hg3).
    destruct (play_verify_adds_writes fuel (length gs) 0 st2)
      as [more3 Hw3].
    rewrite Hrun in Hw3. cbn [final_state] in Hw3.
    rewrite Hlen in Hrun, Hiff. rewrite Hrun. cbn [bind].
    assert (Hlost : lost = false).
    { apply Hiff. rewrite Hs2. exact Hgs. }
    rewrite Hlost in *. specialize (Hck eq_refl).
    assert (Hs3 : seq st3 = seq st) by (rewrite <- Hs2; apply Hg3).
    rewrite <- Hc2, <- Hck in Hf2. rewrite <- Hs3 in Hrep.
    destruct (IH (S i) st3 Hwf Hrep Hf2)
      as (st1 & before & Hrun' & Hc1 & Hw1 & Hg1).
    exists st1. eexists. split; [|split; [|split]].
    + rewrite Hrun'. now rewrite Nat.add_succ_r.
    + cbn [script_ticks]. rewrite Hc1, Hck, Hc2. lia.
    + rewrite Hw1, Hw3, Hw2, <- !app_assoc. reflexivity.
    + eapply same_globals_trans; [|exact Hg1].
      eapply same_globals_trans; eassumption.
Qed.

End Positions.

(** The symbols shown are two bits of the sequence each, and light one
    LED each. *)
Lemma symbols_shown (s : Z) (i : nat) :
  symbols s i
  = map (fun j => Z.land (Z.shiftr s (Z.of_nat j * 2)) 3) (List.seq 0 i) /\
  Forall (fun sym => 0 <= sym <= 3 /\
                     leds_lit (number2bits sym) = 1%nat /\
                     Z.testbit (number2bits sym) sym = false)
         (symbols s i).
Proof.
  split.
  - unfold symbols, symbols_from, symbol. apply map_ext. intros j.
    now rewrite Z.shiftl_mul_pow2 by lia.
  - unfold symbols, symbols_from. apply Forall_forall. intros sym Hin.
    apply in_map_iff in Hin. destruct Hin as (j & <- & _).
    pose proof (symbol_range s (0 + Z.of_nat j)) as Hr.
    split; [exact Hr|].
    destruct (small_cases _ Hr) as [-> | [-> | [-> | ->]]];
      split; reflexivity.
Qed.

(** * The claims *)



(** C2: when the player has reproduced the rounds [won] and, in the next
    round, the symbols [good], and then presses a wrong key pattern or lets
    the key time-out pass, [play] returns 0 at once: it stops at the
    release that ends this gesture, having read no later sample and
    written nothing after the two writes of [wait_for_key]; what the
    switches do afterwards plays no part. *)
Theorem play_loses_at_once (PIND : nat -> Z) (fuel : nat) (st : state)
        (won : script) (good : list gesture) (bad : gesture) :
  well_formed fuel 1 won ->
  reproduces (seq st) 1 won ->
  Z.of_nat (length won) < seq_len st ->
  (length good <= length won)%nat ->
  Forall (valid_gesture fuel) (good ++ [bad]) ->
  map seen good = map number2bits (symbols (seq st) (length good)) ->
  timed_out bad = true \/
  seen bad <> number2bits (symbol (seq st) (Z.of_nat (length good))) ->
  script_feeds PIND (clock st) 1 (won ++ [good ++ [bad]]) ->
  exists st',
    play PIND fuel st = Ret 0 st' /\
    clock st' = (clock st + script_ticks 1 (won ++ [good ++ [bad]]))%nat /\
    (exists before t,
        writes st' = before ++ [(t, seen bad); (clock st', 255)]) /\
    same_globals st st'.
Proof.
  intros Hwf Hrep Hlen Hpos Hv Hgood Hbad Hf.
  assert (Hne : seen bad
                <> number2bits (symbol (seq st) (Z.of_nat (length good)))).
  { destruct Hbad as [Hto | Hne]; [|exact Hne].
    unfold seen. rewrite Hto. intros E. symmetry in E. revert E.
    apply number2bits_not_idle, symbol_range. }
  unfold play.
  apply (play_rounds_fails PIND fuel won good bad
           (Z.to_nat (seq_len st)) 1 st); try assumption; lia.
Qed.

Lemma play_loses_at_once_witness :
  let won := [[tap 251]; [tap 251; tap 254]] in
  let good := [tap 251] in
  let bad := tap 253 in
  let PIND := stream (script_input 1 (won ++ [good ++ [bad]])) in
  let st := round_state 626 5 in
  exists st',
    play PIND 2 st = Ret 0 st' /\
    clock st' = (clock st + script_ticks 1 (won ++ [good ++ [bad]]))%nat /\
    (exists before t,
        writes st' = before ++ [(t, seen bad); (clock st', 255)]) /\
    same_globals st st'.
Proof.
  intros won good bad PIND st.
  apply (play_loses_at_once PIND 2 st won good bad).
  - apply well_formedb_sound. vm_compute. reflexivity.
  - apply reproducesb_spec. vm_compute. reflexivity.
  - cbn. lia.
  - cbn. lia.
  - apply Forall_forall. intros g Hg. apply valid_gestureb_sound.
    destruct Hg as [<- | [<- | []]]; vm_compute; reflexivity.
  - vm_compute. reflexivity.
  - right. vm_compute. discriminate.
  - apply script_feeds_own_input.
Defined.

(** C3: every round position of [play], from 1 to [seq_len], starts with
    the playback of the first symbols of the sequence, as many as the
    position.  Position [S (length won)] is the one that [play] reaches
    when the player has reproduced the [length won] rounds before it,
    [length won] being less than [seq_len].  After the pre-roll of
    [delay_long(12, 0)] the writes to [PORTB] are, [delay_long(4, 0)]
    apart, the pattern with the one LED of the symbol lit, then all LEDs
    off, for each of the first [S (length won)] symbols in turn, symbol
    [j] being [(seq >> (j*2)) & 0b11]; nothing else is written between
    the start of the position and the end of the playback, and [play]
    goes on with the verification of the position only after that. *)
Theorem playback_shows_prefix (PIND : nat -> Z) (fuel : nat) (st : state)
        (won : script) :
  well_formed fuel 1 won ->
  reproduces (seq st) 1 won ->
  Z.of_nat (length won) < seq_len st ->
  script_feeds PIND (clock st) 1 won ->
  exists st1 before,
    clock st1 = (clock st + script_ticks 1 won)%nat /\
    writes st1 = writes st ++ before /\
    exists st2,
      st2 = play_playback PIND (S (length won)) 0
              (snd (delay_long PIND 12 0 st1)) /\
      play PIND fuel st =
        (lost <- play_verify PIND fuel (S (length won)) 0 st2 ;; fun st3 =>
         if lost then Ret 0 st3
         else play_rounds PIND fuel
                (Z.to_nat (seq_len st) - S (length won))
                (Z.of_nat (S (S (length won)))) st3) /\
      writes st2
      = writes st1
        ++ periodic (clock st1 + 12 * delay_ticks) (4 * delay_ticks)
                    (frames (symbols (seq st) (S (length won)))) /\
      clock st2 = (clock st1 + playback_ticks (S (length won)))%nat /\
      symbols (seq st) (S (length won))
      = map (fun j => Z.land (Z.shiftr (seq st) (Z.of_nat j * 2)) 3)
            (List.seq 0 (S (length won))) /\
      Forall (fun sym => 0 <= sym <= 3 /\
                         leds_lit (number2bits sym) = 1%nat /\
                         Z.testbit (number2bits sym) sym = false)
             (symbols (seq st) (S (length won))) /\
      leds_lit 255 = 0%nat /\
      same_globals st st2.
Proof.
  intros Hwf Hrep Hlen Hf.
  destruct (play_rounds_prefix PIND fuel won
              (S (Z.to_nat (seq_len st) - S (length won))) 1 st
              Hwf Hrep Hf)
    as (st1 & before & Hrun & Hc1 & Hw1 & Hg1).
  assert (Hs1 : seq st1 = seq st) by apply Hg1.
  destruct (round_playback PIND (S (length won)) st1) as (Hw2 & Hc2 & Hg2).
  cbn zeta in *.
  destruct (symbols_shown (seq st) (S (length won))) as (Hsym & Hled).
  exists st1, before. split; [exact Hc1|]. split; [exact Hw1|].
  eexists. split; [reflexivity|].
  split; [|split; [|split; [|split; [|split; [|split]]]]].
  - unfold play.
    replace (Z.to_nat (seq_len st))
      with (length won + S (Z.to_nat (seq_len st) - S (length won)))%nat
      at 1 by lia.
    change 1 with (Z.of_nat 1) at 1. rewrite Hrun.
    change (1 + length won)%nat with (S (length won)).
    rewrite play_rounds_S, Nat2Z.id. reflexivity.
  - rewrite Hw2, Hs1. reflexivity.
  - exact Hc2.
  - exact Hsym.
  - exact Hled.
  - reflexivity.
  - eapply same_globals_trans; eassumption.
Qed.

Lemma playback_shows_prefix_witness :
  let won := [[tap 251]; [tap 251; tap 254]] in
  let PIND := stream (script_input 1 won) in
  let st := round_state 626 5 in
  symbols 626 3 = [2; 0; 3] /\
  frames [2; 0; 3] = [251; 255; 254; 255; 247; 255] /\
  exists st1 before,
    clock st1 = (clock st + script_ticks 1 won)%nat /\
    writes st1 = writes st ++ before /\
    exists st2,
      st2 = play_playback PIND 3 0 (snd (delay_long PIND 12 0 st1)) /\
      play PIND 2 st =
        (lost <- play_verify PIND 2 3 0 st2 ;; fun st3 =>
         if lost then Ret 0 st3
         else play_rounds PIND 2 (Z.to_nat (seq_len st) - 3)
                          (Z.of_nat 4) st3) /\
      writes st2
      = writes st1
        ++ periodic (clock st1 + 12 * delay_ticks) (4 * delay_ticks)
                    (frames (symbols (seq st) 3)) /\
      clock st2 = (clock st1 + playback_ticks 3)%nat /\
      symbols (seq st) 3
      = map (fun j => Z.land (Z.shiftr (seq st) (Z.of_nat j * 2)) 3)
            (List.seq 0 3) /\
      Forall (fun sym => 0 <= sym <= 3 /\
                         leds_lit (number2bits sym) = 1%nat /\
                         Z.testbit (number2bits sym) sym = false)
             (symbols (seq st) 3) /\
      leds_lit 255 = 0%nat /\
      same_globals st st2.
Proof.
  intros won PIND st.
  split; [reflexivity|]. split; [reflexivity|].
  apply (playback_shows_prefix PIND 2 st won).
  - apply well_formedb_sound. vm_compute. reflexivity.
  - apply reproducesb_spec. vm_compute. reflexivity.
  - cbn. lia.
  - apply script_feeds_own_input.
Defined.

(** C4: for every level in 0..3 [gen_seq] sets [seq_len] to the entry of
    the table for that level, 5, 7, 9 or 11, which is at most 15. *)
Theorem gen_seq_length (random : nat -> Z) (level : Z) (st : state) :
  0 <= level <= 3 ->
  exists st',
    gen_seq random level st = Ret tt st' /\
    seq_len st' = nth (Z.to_nat level) [5; 7; 9; 11] 0 /\
    array_get lengths level = Some (seq_len st') /\
    seq_len st' <= 15.
Proof.
  intros H.
  destruct (small_cases level H) as [-> | [-> | [-> | ->]]];
    (eexists; split; [reflexivity|]); cbn; repeat split; lia.
Qed.

Lemma gen_seq_length_witness :
  exists st',
    gen_seq (fun _ => 626) 2 initial_state = Ret tt st' /\
    seq_len st' = nth (Z.to_nat 2) [5; 7; 9; 11] 0 /\
    array_get lengths 2 = Some (seq_len st') /\
    seq_len st' <= 15.
Proof. apply (gen_seq_length (fun _ => 626) 2 initial_state). lia. Defined.

(** C5: for [n] in 0..3 the byte [number2bits n] has its only zero bit at
    position [n]; [bits2number] maps it back to [n], and it maps every
    value that is none of the four patterns to the sentinel 8. *)
Theorem number2bits_bits2number (n bits : Z) :
  0 <= n <= 3 ->
  ~ In bits (map number2bits [0; 1; 2; 3]) ->
  0 <= number2bits n < 256 /\
  (forall b, 0 <= b < 8 -> Z.testbit (number2bits n) b = negb (b =? n)) /\
  bits2number (number2bits n) = n /\
  bits2number bits = 8.
Proof.
  intros Hn Hbits.
  assert (Hb : bits2number bits = 8).
  { unfold bits2number.
    repeat match goal with
           | |- context [bits =? ?c] =>
               destruct (Z.eqb_spec bits c) as [E | _];
               [exfalso; apply Hbits; rewrite E; cbn; tauto|]
           end.
    reflexivity. }
  assert (Hcases : forall b, 0 <= b < 8 ->
            b = 0 \/ b = 1 \/ b = 2 \/ b = 3 \/ b = 4 \/ b = 5 \/ b = 6 \/ b = 7)
    by (intros; lia).
  destruct (small_cases n Hn) as [-> | [-> | [-> | ->]]];
    (split; [vm_compute; split; [discriminate | reflexivity]|]);
    (split; [|split; [reflexivity | exact Hb]]);
    intros b Hbound;
    destruct (Hcases b Hbound)
      as [-> | [-> | [-> | [-> | [-> | [-> | [-> | ->]]]]]]];
    reflexivity.
Qed.

Lemma number2bits_bits2number_witness :
  0 <= number2bits 2 < 256 /\
  (forall b, 0 <= b < 8 -> Z.testbit (number2bits 2) b = negb (b =? 2)) /\
  bits2number (number2bits 2) = 2 /\
  bits2number 252 = 8.
Proof.
  apply (number2bits_bits2number 2 252).
  - lia.
  - cbn. intros [H | [H | [H | [H | []]]]]; discriminate H.
Defined.

(** C6: two switches pressed together at the level selection (the key
    pattern 0b11111100) are decoded as level 8, with which [gen_seq] reads
    [lengths] outside its four entries; nothing between the decoding and
    the access checks the level. *)
Theorem level_select_reads_out_of_bounds :
  let PIND := stream [254; 254; 255; 252; 255] in
  bits2number 252 = 8 /\
  array_get lengths 8 = None /\
  (forall random st, gen_seq random 8 st = OutOfBounds 8 st) /\
  exists st,
    In (4%nat, 252) (portb st) /\
    forall random rounds,
      main PIND random (S rounds) 1 initial_state = OutOfBounds 8 st.
Proof.
  cbn zeta. split; [reflexivity|]. split; [reflexivity|].
  split; [reflexivity|].
  eexists. split; [|intros random rounds; vm_compute; reflexivity].
  cbn. tauto.
Qed.

(** C7 as stated does not hold: the pattern of the on phase does not light
    two LEDs. *)
Lemma mock_does_not_light_two_leds :
  ~ (forall (PIND : nat -> Z) (st : state),
        exists on,
          leds_lit on = 2%nat /\
          map snd (writes (mock PIND st))
          = map snd (writes st) ++ concat (repeat [on; 255] 15)).
Proof.
  intros H. destruct (H (fun _ => 255) initial_state) as (on & Hon & Hw).
  destruct (mock_loop_trace (fun _ => 255) 15 initial_state) as [Hm _].
  cbn zeta in Hm. unfold mock in Hw.
  rewrite Hm, map_app, periodic_values in Hw.
  apply app_inv_head in Hw. cbn in Hw.
  injection Hw as <-. vm_compute in Hon. discriminate Hon.
Qed.

(** C7 as the program has it: [mock], the feedback after a loss, writes
    fifteen times the pattern 0xF0, which lights the four LEDs LED0 to
    LED3, and then 0xFF, all LEDs off, one [delay(0)] apart, whatever the
    switches do. *)
Theorem mock_flashes_15_times (PIND : nat -> Z) (st : state) :
  feedback PIND 0 st = mock PIND st /\
  writes (mock PIND st)
  = writes st
    ++ periodic (clock st) delay_ticks (concat (repeat [240; 255] 15)) /\
  clock (mock PIND st) = (clock st + 15 * (2 * delay_ticks))%nat /\
  leds_lit 240 = 4%nat /\ leds_lit 255 = 0%nat.
Proof.
  split; [reflexivity|].
  destruct (mock_loop_trace PIND 15 st) as [Hw Hc]. cbn zeta in *.
  unfold mock. rewrite Hw, Hc. repeat split.
Qed.

(** C8 as stated does not hold: [gen_seq] keeps whatever bits [random]
    returns, also above the [2 * seq_len] low ones. *)
Lemma gen_seq_keeps_high_bits :
  ~ (forall (random : nat -> Z) (level : Z) (st st' : state),
        0 <= level <= 3 ->
        gen_seq random level st = Ret tt st' ->
        forall b, 2 * seq_len st' <= b -> Z.testbit (seq st') b = false).
Proof.
  intros H.
  specialize (H (fun _ => 1024) 0 initial_state
                (mkState 1 0 1024 5 [] 0 1) ltac:(lia) eq_refl 10 ltac:(cbn; lia)).
  discriminate H.
Qed.

(** C8 as the program has it: after [gen_seq(level)], for a level in 0..3,
    [seq] is the value [random()] returned, a number from 0 to
    RANDOM_MAX = 2^31 - 1, so that its bits from 31 on are zero; the bits
    above the [2 * seq_len] low ones play no part in the symbols below
    index [seq_len]; [play] does not modify [seq] or [seq_len], whether it
    returns or not. *)
Theorem seq_fixed_during_play (PIND random : nat -> Z) (level : Z)
        (fuel : nat) (st : state) :
  0 <= level <= 3 ->
  0 <= random (rcalls st) < 2 ^ 31 ->
  exists st1,
    gen_seq random level st = Ret tt st1 /\
    seq st1 = random (rcalls st) /\
    (forall b, 31 <= b -> Z.testbit (seq st1) b = false) /\
    (forall j, 0 <= j < seq_len st1 ->
               symbol (seq st1 mod 2 ^ (2 * seq_len st1)) j
               = symbol (seq st1) j) /\
    seq (final_state (play PIND fuel st1)) = seq st1 /\
    seq_len (final_state (play PIND fuel st1)) = seq_len st1.
Proof.
  intros Hl Hr.
  destruct (gen_seq_in_bounds random level st Hl) as (len & _ & Hgen).
  set (st1 := mkState (sleep st) (keyboard st)
                      (random (rcalls st) mod 2 ^ 32) len
                      (portb st) (clock st) (S (rcalls st))) in *.
  exists st1. split; [exact Hgen|].
  assert (Hseq : seq st1 = random (rcalls st))
    by (apply Z.mod_small; lia).
  split; [exact Hseq|]. split; [|split].
  - intros b Hb. rewrite Hseq. apply (bits_above _ 31); lia.
  - intros j Hj. now apply symbol_low_bits.
  - apply (play_inv PIND
             (fun s => seq s = seq st1 /\ seq_len s = seq_len st1)
             (fun _ => True)); auto.
Qed.

Lemma seq_fixed_during_play_witness :
  let PIND := stream [255; 253; 255] in
  exists st1,
    gen_seq (fun _ => 626) 0 initial_state = Ret tt st1 /\
    seq st1 = 626 /\
    (forall b, 31 <= b -> Z.testbit (seq st1) b = false) /\
    (forall j, 0 <= j < seq_len st1 ->
               symbol (seq st1 mod 2 ^ (2 * seq_len st1)) j
               = symbol (seq st1) j) /\
    seq (final_state (play PIND 2 st1)) = seq st1 /\
    seq_len (final_state (play PIND 2 st1)) = seq_len st1.
Proof.
  intros PIND.
  apply (seq_fixed_during_play PIND (fun _ => 626) 0 2 initial_state).
  - lia.
  - cbn. lia.
Defined.

(** C9 as stated does not hold: the program mirrors the sample of the
    switches to the LEDs, so that SW7 pressed lights LED7. *)
Lemma upper_led_driven :
  ~ (forall (PIND random : nat -> Z) (rounds fuel : nat),
        (forall n, 0 <= PIND n < 256) ->
        forall t v,
          In (t, v)
             (portb (final_state (main PIND random rounds fuel initial_state))) ->
          high_nibble_off v).
Proof.
  intros H.
  assert (Hin : forall n, 0 <= stream [127; 127] n < 256).
  { intros [|[|[|n]]]; cbn; lia. }
  specialize (H (stream [127; 127]) (fun _ => 0) 1%nat 1%nat Hin 2%nat 127).
  assert (Hw : In (2%nat, 127)
                 (portb (final_state
                    (main (stream [127; 127]) (fun _ => 0) 1 1 initial_state)))).
  { vm_compute. tauto. }
  specialize (H Hw). discriminate H.
Qed.

(** C9 as the program has it: as long as the upper four bits of every
    sample of the switches are one (SW4 to SW7 are not pressed), the upper
    four bits of every value written to [PORTB] are one, over any run of
    [main] up to an access outside [lengths]. *)
Theorem upper_leds_stay_off (PIND random : nat -> Z) (rounds fuel : nat)
        (t : nat) (v : Z) :
  (forall n, high_nibble_off (PIND n)) ->
  In (t, v)
     (portb (final_state (main PIND random rounds fuel initial_state))) ->
  high_nibble_off v.
Proof.
  intros Hin Hv.
  assert (Hloop : forall st, upper_leds_off st ->
            upper_leds_off
              (final_state (main_loop PIND random rounds fuel st))).
  { intros st Hst.
    apply (main_loop_inv PIND upper_leds_off high_nibble_off);
      try assumption; try reflexivity.
    - intros s [Hs _]. split; [exact Hs | apply Hin].
    - intros s [Hs Hk]. split; assumption.
    - intros x s [Hs Hk]. split; assumption.
    - intros x s Hx [Hs Hk]. split; [|exact Hk].
      constructor; assumption.
    - intros s [_ Hk]. exact Hk.
    - apply number2bits_high.
    - intros s len s0 [Hs Hk]. split; assumption. }
  set (st0 := write_PORTB 255 initial_state) in *.
  assert (H0 : Forall (fun w => high_nibble_off (snd w)) (portb st0))
    by (repeat constructor).
  assert (Hall : Forall (fun w => high_nibble_off (snd w))
            (portb (final_state
                      (main PIND random rounds fuel initial_state)))).
  { unfold main. fold st0. destruct fuel as [|fuel'].
    - exact H0.
    - assert (H1 : upper_leds_off (read_PIND PIND st0))
        by (split; [exact H0 | apply Hin]).
      apply (bind_inv upper_leds_off);
        [|intros _ st1 Hst1; now apply Hloop].
      cbn [while_key].
      destruct (keyboard (read_PIND PIND st0) =? 255); [|exact H1].
      apply (while_key_inv PIND upper_leds_off); [|exact H1].
      intros s [Hs _]. split; [exact Hs | apply Hin]. }
  rewrite Forall_forall in Hall. exact (Hall (t, v) Hv).
Qed.

Lemma upper_leds_stay_off_witness :
  let PIND := stream [254; 254; 254] in
  (forall n, high_nibble_off (PIND n)) /\
  In (2%nat, 254)
     (portb (final_state (main PIND (fun _ => 0) 1 1 initial_state))) /\
  high_nibble_off 254.
Proof.
  intros PIND.
  assert (Hin : forall n, high_nibble_off (PIND n))
    by (intros [|[|[|[|n]]]]; reflexivity).
  assert (Hw : In (2%nat, 254)
                 (portb (final_state
                           (main PIND (fun _ => 0) 1 1 initial_state))))
    by (vm_compute; tauto).
  split; [exact Hin|]. split; [exact Hw|].
  exact (upper_leds_stay_off PIND (fun _ => 0) 1 1 2 254 Hin Hw).
Defined.

(** C10: whatever the switches do, [delay(0)] returns 0 and writes nothing
    to [PORTB]; of the globals it only changes [keyboard], which holds the
    last sample read.  The same goes for [delay_long(count, 0)]. *)
Theorem delay_not_interruptible (PIND : nat -> Z) (count : Z) (st : state) :
  (fst (delay PIND 0 st) = 0 /\
   portb (snd (delay PIND 0 st)) = portb st /\
   same_globals st (snd (delay PIND 0 st)) /\
   keyboard (snd (delay PIND 0 st)) = PIND (clock st + 299)%nat /\
   clock (snd (delay PIND 0 st)) = (clock st + 300)%nat) /\
  (fst (delay_long PIND count 0 st) = 0 /\
   portb (snd (delay_long PIND count 0 st)) = portb st /\
   same_globals st (snd (delay_long PIND count 0 st)) /\
   clock (snd (delay_long PIND count 0 st))
   = (clock st + Z.to_nat count * 300)%nat).
Proof.
  rewrite delay_0, delay_long_0. cbn [fst snd].
  change delay_ticks with 300%nat.
  repeat split; autorewrite with fields; try reflexivity; apply idle_portb.
Qed.

(** * Further properties of the program *)

(** ** Interruptible delays *)

Section InterruptibleDelay.

Variable PIND : nat -> Z.

Lemma feeds_repeat_nth (c n : nat) (v : Z) (i : nat) :
  feeds PIND c (repeat v n) -> (i < n)%nat -> PIND (c + i)%nat = v.
Proof.
  intros Hf Hi. rewrite (Hf i) by (rewrite repeat_length; exact Hi).
  apply nth_repeat_lt. exact Hi.
Qed.

Lemma read_idle (m : nat) (st : state) :
  read_PIND PIND (call_random (read_PIND PIND (idle PIND m st)))
  = read_PIND PIND (idle PIND (S m) st).
Proof.
  destruct m as [|m]; unfold read_PIND, call_random; simpl;
    f_equal; try lia; f_equal; lia.
Qed.

Lemma idle_S (m : nat) (st : state) :
  call_random (read_PIND PIND (idle PIND m st)) = idle PIND (S m) st.
Proof.
  destruct m as [|m]; unfold read_PIND, call_random; simpl;
    f_equal; try lia; f_equal; lia.
Qed.

(** No key during the [n] iterations: the loop runs to its end, whether
    it is interruptible or not. *)
Lemma delay_loop_quiet (n : nat) (i : Z) (st : state) :
  feeds PIND (clock st) (repeat 255 n) ->
  delay_loop PIND n i st = (0, idle PIND n st).
Proof.
  revert st. induction n as [|n IH]; intros st Hf; [reflexivity|].
  cbn [repeat] in Hf. apply feeds_cons in Hf. destruct Hf as [H0 Hf].
  cbn [delay_loop]. cbn [read_PIND keyboard]. rewrite H0.
  cbn [Z.eqb Pos.eqb negb]. rewrite andb_false_r.
  rewrite IH by exact Hf.
  f_equal. change (call_random (read_PIND PIND st))
    with (call_random (read_PIND PIND (idle PIND 0 st))).
  rewrite idle_S. apply (idle_idle PIND n 1 st).
Qed.

(** The first sample with a key pressed is the one of index [m]. *)
Lemma delay_loop_hit (n m : nat) (i k : Z) (st : state) :
  (m < n)%nat -> i <> 0 -> k <> 255 ->
  feeds PIND (clock st) (repeat 255 m ++ [k]) ->
  delay_loop PIND n i st
  = (1, write_PORTB k (read_PIND PIND (idle PIND m st))).
Proof.
  revert n st. induction m as [|m IH]; intros n st Hm Hi Hk Hf;
    (destruct n as [|n]; [lia|]);
    cbn [repeat app] in Hf; apply feeds_cons in Hf; destruct Hf as [H0 Hf];
    cbn [delay_loop]; cbn [read_PIND keyboard]; rewrite H0.
  - destruct (Z.eqb_spec i 0) as [E|_]; [contradiction|].
    destruct (Z.eqb_spec k 255) as [E|_]; [contradiction|].
    cbn [negb andb idle]. reflexivity.
  - cbn [Z.eqb Pos.eqb negb]. rewrite andb_false_r.
    rewrite (IH n) by (try assumption; lia).
    change (call_random (read_PIND PIND st))
      with (call_random (read_PIND PIND (idle PIND 0 st))).
    rewrite idle_S, (idle_idle PIND m 1 st). reflexivity.
Qed.

Lemma feeds_repeat_split (c a b : nat) (rest : list Z) :
  feeds PIND c (repeat 255 (a + b) ++ rest) ->
  feeds PIND c (repeat 255 a) /\
  feeds PIND (c + a) (repeat 255 b ++ rest).
Proof.
  rewrite repeat_app, <- app_assoc. intros H.
  apply feeds_app in H. now rewrite repeat_length in H.
Qed.

Lemma delay_quiet (i : Z) (st : state) :
  feeds PIND (clock st) (repeat 255 delay_ticks) ->
  delay PIND i st = (0, idle PIND delay_ticks st).
Proof. apply delay_loop_quiet. Qed.

Lemma delay_hit (m : nat) (i k : Z) (st : state) :
  (m < delay_ticks)%nat -> i <> 0 -> k <> 255 ->
  feeds PIND (clock st) (repeat 255 m ++ [k]) ->
  delay PIND i st = (1, write_PORTB k (read_PIND PIND (idle PIND m st))).
Proof. apply delay_loop_hit. Qed.

Lemma delay_long_loop_quiet (n : nat) (i : Z) (st : state) :
  feeds PIND (clock st) (repeat 255 (n * delay_ticks)) ->
  delay_long_loop PIND n i st = (0, idle PIND (n * delay_ticks) st).
Proof.
  revert st. induction n as [|n IH]; intros st Hf; [reflexivity|].
  cbn [Nat.mul] in Hf.
  rewrite <- (app_nil_r (repeat 255 _)) in Hf.
  apply feeds_repeat_split in Hf. destruct Hf as [Hf1 Hf2].
  rewrite app_nil_r in Hf2.
  cbn [delay_long_loop]. rewrite (delay_quiet i st Hf1). cbn [Z.eqb].
  rewrite IH by (now rewrite idle_clock).
  rewrite idle_idle. reflexivity.
Qed.

Lemma delay_long_loop_hit (n m : nat) (i k : Z) (st : state) :
  (m < n * delay_ticks)%nat -> i <> 0 -> k <> 255 ->
  feeds PIND (clock st) (repeat 255 m ++ [k]) ->
  delay_long_loop PIND n i st
  = (1, write_PORTB k (read_PIND PIND (idle PIND m st))).
Proof.
  revert m st. induction n as [|n IH]; intros m st Hm Hi Hk Hf;
    [cbn in Hm; lia|].
  cbn [delay_long_loop].
  destruct (Nat.lt_ge_cases m delay_ticks) as [Hlt | Hge].
  - rewrite (delay_hit m i k st Hlt Hi Hk Hf). reflexivity.
  - replace m with (delay_ticks + (m - delay_ticks))%nat in Hf by lia.
    apply feeds_repeat_split in Hf. destruct Hf as [Hf1 Hf2].
    rewrite (delay_quiet i st Hf1). cbn [Z.eqb].
    rewrite (IH (m - delay_ticks)%nat); try assumption.
    + rewrite idle_idle.
      replace (delay_ticks + (m - delay_ticks))%nat with m by lia.
      reflexivity.
    + cbn [Nat.mul] in Hm. lia.
Qed.

End InterruptibleDelay.

Lemma feeds_own (l : list Z) : feeds (stream l) 0 l.
Proof.
  pose proof (feeds_stream [] l []) as H. cbn [app length] in H.
  now rewrite app_nil_r in H.
Qed.

Lemma read_PIND_clock PIND st : clock (read_PIND PIND st) = S (clock st).
Proof. reflexivity. Qed.

Lemma read_PIND_keyboard PIND st :
  keyboard (read_PIND PIND st) = PIND (clock st).
Proof. reflexivity. Qed.

Lemma read_PIND_writes PIND st : writes (read_PIND PIND st) = writes st.
Proof. reflexivity. Qed.

Lemma read_PIND_seq PIND st : seq (read_PIND PIND st) = seq st.
Proof. reflexivity. Qed.

Lemma read_PIND_seq_len PIND st : seq_len (read_PIND PIND st) = seq_len st.
Proof. reflexivity. Qed.

Lemma read_PIND_sleep PIND st : sleep (read_PIND PIND st) = sleep st.
Proof. reflexivity. Qed.

Lemma read_PIND_rcalls PIND st : rcalls (read_PIND PIND st) = rcalls st.
Proof. reflexivity. Qed.

#[local] Hint Rewrite
  read_PIND_clock read_PIND_keyboard read_PIND_writes read_PIND_seq
  read_PIND_seq_len read_PIND_sleep read_PIND_rcalls : fields.

(** The state in which an interruptible delay stops at a key press. *)
Lemma key_in_delay_fields (PIND : nat -> Z) (m : nat) (k : Z) (st : state) :
  PIND (clock st + m)%nat = k ->
  let st' := write_PORTB k (read_PIND PIND (idle PIND m st)) in
  keyboard st' = k /\
  writes st' = writes st ++ [((clock st + m + 1)%nat, k)] /\
  clock st' = (clock st + m + 1)%nat /\
  rcalls st' = (rcalls st + m)%nat /\
  same_globals st st'.
Proof.
  intros Hk. cbn zeta. unfold same_globals. autorewrite with fields.
  rewrite Hk. repeat split; try lia.
  do 3 f_equal. lia.
Qed.

Lemma feeds_last (PIND : nat -> Z) (c m : nat) (k : Z) :
  feeds PIND c (repeat 255 m ++ [k]) -> PIND (c + m)%nat = k.
Proof.
  intros H. apply feeds_app in H. destruct H as [_ H].
  rewrite repeat_length in H. apply feeds_cons in H. apply H.
Qed.

(** X1: a key pressed during an interruptible [delay] ends it at once:
    with the first pressed sample at index [m] of the 300, [delay] returns
    1 after [m + 1] reads, has called [random] [m] times, and its one
    write mirrors the sample to the LEDs. *)
Theorem delay_interrupted (PIND : nat -> Z) (m : nat) (i k : Z)
        (st : state) :
  (m < 300)%nat -> i <> 0 -> k <> 255 ->
  feeds PIND (clock st) (repeat 255 m ++ [k]) ->
  fst (delay PIND i st) = 1 /\
  keyboard (snd (delay PIND i st)) = k /\
  writes (snd (delay PIND i st))
  = writes st ++ [((clock st + m + 1)%nat, k)] /\
  clock (snd (delay PIND i st)) = (clock st + m + 1)%nat /\
  rcalls (snd (delay PIND i st)) = (rcalls st + m)%nat /\
  same_globals st (snd (delay PIND i st)).
Proof.
  intros Hm Hi Hk Hf.
  rewrite (delay_hit PIND m i k st) by assumption. cbn [fst snd].
  split; [reflexivity|].
  apply key_in_delay_fields. now apply feeds_last.
Qed.

Lemma delay_interrupted_witness :
  let PIND := stream [255; 255; 251] in
  let st := initial_state in
  fst (delay PIND 1 st) = 1 /\
  keyboard (snd (delay PIND 1 st)) = 251 /\
  writes (snd (delay PIND 1 st)) = writes st ++ [((clock st + 2 + 1)%nat, 251)] /\
  clock (snd (delay PIND 1 st)) = (clock st + 2 + 1)%nat /\
  rcalls (snd (delay PIND 1 st)) = (rcalls st + 2)%nat /\
  same_globals st (snd (delay PIND 1 st)).
Proof.
  intros PIND st.
  apply (delay_interrupted PIND 2 1 251 st).
  - lia.
  - discriminate.
  - discriminate.
  - apply (feeds_own [255; 255; 251]).
Defined.

(** X2: [delay_long(count, i)] with [i] not 0 stops at the first pressed
    sample as well, in whichever of its [count] delays it falls: it
    returns 1 after [m + 1] reads, not at the end of a delay. *)
Theorem delay_long_interrupted (PIND : nat -> Z) (count : Z) (m : nat)
        (i k : Z) (st : state) :
  (m < Z.to_nat count * 300)%nat -> i <> 0 -> k <> 255 ->
  feeds PIND (clock st) (repeat 255 m ++ [k]) ->
  fst (delay_long PIND count i st) = 1 /\
  keyboard (snd (delay_long PIND count i st)) = k /\
  writes (snd (delay_long PIND count i st))
  = writes st ++ [((clock st + m + 1)%nat, k)] /\
  clock (snd (delay_long PIND count i st)) = (clock st + m + 1)%nat /\
  rcalls (snd (delay_long PIND count i st)) = (rcalls st + m)%nat /\
  same_globals st (snd (delay_long PIND count i st)).
Proof.
  intros Hm Hi Hk Hf. unfold delay_long.
  rewrite (delay_long_loop_hit PIND (Z.to_nat count) m i k st)
    by assumption.
  cbn [fst snd]. split; [reflexivity|].
  apply key_in_delay_fields. now apply feeds_last.
Qed.

Lemma delay_long_interrupted_witness :
  let PIND := stream (repeat 255 301 ++ [254]) in
  let st := initial_state in
  fst (delay_long PIND 2 1 st) = 1 /\
  keyboard (snd (delay_long PIND 2 1 st)) = 254 /\
  writes (snd (delay_long PIND 2 1 st))
  = writes st ++ [((clock st + 301 + 1)%nat, 254)] /\
  clock (snd (delay_long PIND 2 1 st)) = (clock st + 301 + 1)%nat /\
  rcalls (snd (delay_long PIND 2 1 st)) = (rcalls st + 301)%nat /\
  same_globals st (snd (delay_long PIND 2 1 st)).
Proof.
  intros PIND st.
  apply (delay_long_interrupted PIND 2 301 1 254 st).
  - cbn. lia.
  - discriminate.
  - discriminate.
  - apply (feeds_own (repeat 255 301 ++ [254])).
Defined.

(** X3: when no key is pressed while it runs, an interruptible
    [delay_long] does exactly what the plain one does: it returns 0 after
    [count * 300] reads and writes nothing. *)
Theorem quiet_delay_long (PIND : nat -> Z) (count i : Z) (st : state) :
  feeds PIND (clock st) (repeat 255 (Z.to_nat count * 300)) ->
  delay_long PIND count i st = delay_long PIND count 0 st /\
  fst (delay_long PIND count i st) = 0 /\
  writes (snd (delay_long PIND count i st)) = writes st /\
  clock (snd (delay_long PIND count i st))
  = (clock st + Z.to_nat count * 300)%nat.
Proof.
  intros Hf. unfold delay_long.
  rewrite (delay_long_loop_quiet PIND (Z.to_nat count) i st Hf).
  rewrite delay_long_loop_0. cbn [fst snd].
  change delay_ticks with 300%nat. autorewrite with fields.
  repeat split.
Qed.

Lemma quiet_delay_long_witness :
  let PIND := stream (repeat 255 600) in
  let st := initial_state in
  delay_long PIND 2 1 st = delay_long PIND 2 0 st /\
  fst (delay_long PIND 2 1 st) = 0 /\
  writes (snd (delay_long PIND 2 1 st)) = writes st /\
  clock (snd (delay_long PIND 2 1 st)) = (clock st + Z.to_nat 2 * 300)%nat.
Proof.
  intros PIND st.
  apply (quiet_delay_long PIND 2 1 st).
  apply (feeds_own (repeat 255 600)).
Defined.

(** ** Standby *)

Lemma add_writes_nil st : add_writes [] st = st.
Proof. destruct st. reflexivity. Qed.

Lemma add_writes_add a b st :
  add_writes b (add_writes a st) = add_writes (a ++ b) st.
Proof.
  unfold add_writes. cbn [sleep keyboard seq seq_len portb clock rcalls].
  now rewrite rev_app_distr, app_assoc.
Qed.

Lemma write_PORTB_add v st :
  write_PORTB v st = add_writes [(clock st, v)] st.
Proof. reflexivity. Qed.

Lemma add_writes_idle PIND w n st :
  add_writes w (idle PIND n st) = idle PIND n (add_writes w st).
Proof. destruct n; reflexivity. Qed.

Lemma add_writes_writes w st : writes (add_writes w st) = writes st ++ w.
Proof.
  unfold writes, add_writes. cbn [portb].
  now rewrite rev_app_distr, rev_involutive.
Qed.

Lemma add_writes_clock w st : clock (add_writes w st) = clock st.
Proof. reflexivity. Qed.

Lemma add_writes_keyboard w st : keyboard (add_writes w st) = keyboard st.
Proof. reflexivity. Qed.

Lemma add_writes_rcalls w st : rcalls (add_writes w st) = rcalls st.
Proof. reflexivity. Qed.

Lemma add_writes_sleep w st : sleep (add_writes w st) = sleep st.
Proof. reflexivity. Qed.

Lemma add_writes_seq w st : seq (add_writes w st) = seq st.
Proof. reflexivity. Qed.

Lemma add_writes_seq_len w st : seq_len (add_writes w st) = seq_len st.
Proof. reflexivity. Qed.

#[local] Hint Rewrite
  add_writes_writes add_writes_clock add_writes_keyboard add_writes_rcalls
  add_writes_sleep add_writes_seq add_writes_seq_len : fields.

Lemma chase_writes_nil sl c : chase_writes sl c [] = [].
Proof. unfold chase_writes. now destruct (sl =? 0). Qed.

Lemma chase_writes_cons sl c v vs :
  chase_writes sl c (v :: vs)
  = chase_writes sl c [v] ++ chase_writes sl (c + delay_ticks) vs.
Proof.
  unfold chase_writes. destruct (sl =? 0); [|reflexivity].
  now rewrite !periodic_cons, periodic_nil.
Qed.

Lemma chase_writes_app sl c a b :
  chase_writes sl c (a ++ b)
  = chase_writes sl c a
    ++ chase_writes sl (c + length a * delay_ticks) b.
Proof.
  unfold chase_writes. destruct (sl =? 0); [|reflexivity].
  apply periodic_app.
Qed.

Section Standby.

Variable PIND : nat -> Z.

(** The state before the [delay(1)] of an iteration of the inner loop. *)
Lemma chase_step_state leds st :
  (if sleep st =? 0 then write_PORTB leds st else st)
  = add_writes (chase_writes (sleep st) (clock st) [leds]) st.
Proof.
  unfold chase_writes. destruct (sleep st =? 0).
  - now rewrite periodic_cons, periodic_nil.
  - now rewrite add_writes_nil.
Qed.

Lemma standby_chase_quiet (n : nat) (leds : Z) (st : state) :
  feeds PIND (clock st) (repeat 255 (n * delay_ticks)) ->
  standby_chase PIND n leds st
  = (false,
     idle PIND (n * delay_ticks)
          (add_writes (chase_writes (sleep st) (clock st) (leds_seq n leds))
                      st)).
Proof.
  revert leds st. induction n as [|n IH]; intros leds st Hf.
  - cbn [standby_chase leds_seq Nat.mul idle].
    now rewrite chase_writes_nil, add_writes_nil.
  - cbn [Nat.mul] in Hf.
    rewrite <- (app_nil_r (repeat 255 _)) in Hf.
    apply feeds_repeat_split in Hf. destruct Hf as [Hf1 Hf2].
    rewrite app_nil_r in Hf2.
    cbn [standby_chase leds_seq]. rewrite chase_step_state.
    set (st1 := add_writes (chase_writes (sleep st) (clock st) [leds]) st).
    rewrite (delay_quiet PIND 1 st1) by exact Hf1. cbn [Z.eqb].
    rewrite IH by (rewrite idle_clock; exact Hf2).
    unfold st1. autorewrite with fields.
    rewrite add_writes_idle, add_writes_add, idle_idle,
      <- chase_writes_cons.
    reflexivity.
Qed.

Lemma standby_chase_hit (n q r : nat) (leds k : Z) (st : state) :
  (q < n)%nat -> (r < delay_ticks)%nat -> k <> 255 ->
  feeds PIND (clock st) (repeat 255 (q * delay_ticks + r) ++ [k]) ->
  standby_chase PIND n leds st
  = (true,
     write_PORTB 255
       (write_PORTB k
          (read_PIND PIND
             (idle PIND (q * delay_ticks + r)
                (add_writes
                   (chase_writes (sleep st) (clock st)
                                 (leds_seq (S q) leds)) st))))).
Proof.
  revert n leds st. induction q as [|q IH]; intros n leds st Hq Hr Hk Hf;
    (destruct n as [|n]; [lia|]);
    cbn [standby_chase]; rewrite chase_step_state;
    set (st1 := add_writes (chase_writes (sleep st) (clock st) [leds]) st).
  - cbn [Nat.mul Nat.add] in *.
    rewrite (delay_hit PIND r 1 k st1) by (assumption || discriminate).
    reflexivity.
  - cbn [Nat.mul] in Hf. rewrite <- Nat.add_assoc in Hf.
    apply feeds_repeat_split in Hf. destruct Hf as [Hf1 Hf2].
    rewrite (delay_quiet PIND 1 st1) by exact Hf1. cbn [Z.eqb].
    rewrite (IH n) by (try assumption; try lia;
                       rewrite idle_clock; exact Hf2).
    unfold st1. autorewrite with fields.
    rewrite add_writes_idle, add_writes_add, idle_idle.
    cbn [leds_seq]. rewrite <- chase_writes_cons.
    cbn [Nat.mul]. rewrite Nat.add_assoc. reflexivity.
Qed.

Lemma leds_seq_chase : leds_seq 4 254 = chase_pattern.
Proof. reflexivity. Qed.

Lemma leds_seq_firstn (b : nat) :
  (b < 4)%nat -> leds_seq (S b) 254 = firstn (S b) chase_pattern.
Proof.
  intros Hb. destruct b as [|[|[|[|b]]]]; try reflexivity. lia.
Qed.

Lemma standby_loop_quiet (n : nat) (st : state) :
  feeds PIND (clock st) (repeat 255 (n * (4 * delay_ticks))) ->
  standby_loop PIND n st
  = (1,
     write_PORTB 255
       (idle PIND (n * (4 * delay_ticks))
          (add_writes
             (chase_writes (sleep st) (clock st)
                           (concat (repeat chase_pattern n))) st))).
Proof.
  revert st. induction n as [|n IH]; intros st Hf.
  - cbn [standby_loop repeat concat Nat.mul idle].
    now rewrite chase_writes_nil, add_writes_nil.
  - cbn [Nat.mul] in Hf.
    rewrite <- (app_nil_r (repeat 255 _)) in Hf.
    apply feeds_repeat_split in Hf. destruct Hf as [Hf1 Hf2].
    rewrite app_nil_r in Hf2.
    cbn [standby_loop]. rewrite (standby_chase_quiet 4 254 st Hf1).
    rewrite leds_seq_chase.
    rewrite IH by (rewrite idle_clock, add_writes_clock; exact Hf2).
    autorewrite with fields.
    rewrite add_writes_idle, add_writes_add, idle_idle.
    cbn [repeat concat]. rewrite chase_writes_app.
    change (length chase_pattern) with 4%nat.
    reflexivity.
Qed.

Lemma standby_loop_hit (n a b r : nat) (k : Z) (st : state) :
  (a < n)%nat -> (b < 4)%nat -> (r < delay_ticks)%nat -> k <> 255 ->
  feeds PIND (clock st)
        (repeat 255 (a * (4 * delay_ticks) + (b * delay_ticks + r)) ++ [k]) ->
  standby_loop PIND n st
  = (0,
     write_PORTB 255
       (write_PORTB k
          (read_PIND PIND
             (idle PIND (a * (4 * delay_ticks) + (b * delay_ticks + r))
                (add_writes
                   (chase_writes (sleep st) (clock st)
                      (concat (repeat chase_pattern a)
                       ++ firstn (S b) chase_pattern)) st))))).
Proof.
  revert n st. induction a as [|a IH]; intros n st Ha Hb Hr Hk Hf;
    (destruct n as [|n]; [lia|]); cbn [standby_loop].
  - rewrite Nat.mul_0_l, Nat.add_0_l in *. cbn [repeat concat app].
    rewrite (standby_chase_hit 4 b r 254 k st) by assumption.
    now rewrite leds_seq_firstn.
  - replace (S a * (4 * delay_ticks) + (b * delay_ticks + r))%nat
      with (4 * delay_ticks
            + (a * (4 * delay_ticks) + (b * delay_ticks + r)))%nat in *
      by lia.
    apply feeds_repeat_split in Hf. destruct Hf as [Hf1 Hf2].
    rewrite (standby_chase_quiet 4 254 st Hf1), leds_seq_chase.
    rewrite (IH n) by (try assumption; try lia;
                       rewrite idle_clock, add_writes_clock; exact Hf2).
    autorewrite with fields.
    rewrite add_writes_idle, add_writes_add, idle_idle.
    cbn [repeat concat].
    rewrite <- app_assoc,
      (chase_writes_app (sleep st) (clock st) chase_pattern).
    change (length chase_pattern) with 4%nat.
    reflexivity.
Qed.

End Standby.

Lemma delay_ticks_pos : (0 < delay_ticks)%nat.
Proof. unfold delay_ticks, DELAYTIME. lia. Qed.

Lemma standby_ticks_eq : standby_ticks = (20 * (4 * delay_ticks))%nat.
Proof. reflexivity. Qed.

(** A tick of a standby lies in round [a] of the chase, in its delay [b],
    at index [r] of that delay. *)
Lemma split_ticks (n m : nat) :
  (m < n * (4 * delay_ticks))%nat ->
  exists a b r,
    (a < n)%nat /\ (b < 4)%nat /\ (r < delay_ticks)%nat /\
    m = (a * (4 * delay_ticks) + (b * delay_ticks + r))%nat /\
    (m / delay_ticks)%nat = (4 * a + b)%nat.
Proof.
  intros Hm. pose proof delay_ticks_pos as Hd.
  set (d := delay_ticks) in *.
  exists (m / (4 * d))%nat, ((m mod (4 * d)) / d)%nat,
         ((m mod (4 * d)) mod d)%nat.
  assert (H1 : m = (4 * d * (m / (4 * d)) + m mod (4 * d))%nat)
    by (apply Nat.div_mod_eq).
  assert (H2 : (m mod (4 * d) < 4 * d)%nat)
    by (apply Nat.mod_upper_bound; lia).
  assert (H3 : (m mod (4 * d)
                = d * ((m mod (4 * d)) / d) + (m mod (4 * d)) mod d)%nat)
    by (apply Nat.div_mod_eq).
  assert (H4 : ((m mod (4 * d)) mod d < d)%nat)
    by (apply Nat.mod_upper_bound; lia).
  assert (Ha : (m / (4 * d) < n)%nat)
    by (apply Nat.Div0.div_lt_upper_bound; lia).
  assert (Hb : ((m mod (4 * d)) / d < 4)%nat)
    by (apply Nat.Div0.div_lt_upper_bound; lia).
  set (a := (m / (4 * d))%nat) in *.
  set (b := ((m mod (4 * d)) / d)%nat) in *.
  set (r := ((m mod (4 * d)) mod d)%nat) in *.
  assert (Hm' : m = (a * (4 * d) + (b * d + r))%nat) by lia.
  repeat split; try assumption.
  symmetry. apply (Nat.div_unique m d (4 * a + b) r); lia.
Qed.

Lemma firstn_chase (n a b : nat) :
  (a < n)%nat -> (b < 4)%nat ->
  firstn (S (4 * a + b)) (concat (repeat chase_pattern n))
  = concat (repeat chase_pattern a) ++ firstn (S b) chase_pattern.
Proof.
  revert n. induction a as [|a IH]; intros n Ha Hb;
    (destruct n as [|n]; [lia|]); cbn [repeat concat].
  - rewrite Nat.mul_0_r, Nat.add_0_l. unfold chase_pattern at 1 3.
    destruct b as [|[|[|[|b]]]]; try reflexivity. lia.
  - replace (S (4 * S a + b)) with (4 + S (4 * a + b))%nat by lia.
    rewrite <- app_assoc, <- (IH n) by lia.
    unfold chase_pattern at 1 3. reflexivity.
Qed.

Section StandbyRuns.

Variable PIND : nat -> Z.

Lemma standby_quiet_state (st : state) :
  feeds PIND (clock st) (repeat 255 standby_ticks) ->
  standby PIND st
  = (1,
     write_PORTB 255
       (idle PIND standby_ticks
          (add_writes
             ((clock st, 255)
              :: chase_writes (sleep st) (clock st)
                              (concat (repeat chase_pattern 20))) st))).
Proof.
  intros Hf. unfold standby. change (Z.to_nat STANDBYTIMEOUT) with 20%nat.
  rewrite (standby_loop_quiet PIND 20 (write_PORTB 255 st)) by exact Hf.
  autorewrite with fields.
  now rewrite (write_PORTB_add 255 st), add_writes_add.
Qed.

Lemma standby_hit_state (m : nat) (k : Z) (st : state) :
  (m < standby_ticks)%nat -> k <> 255 ->
  feeds PIND (clock st) (repeat 255 m ++ [k]) ->
  standby PIND st
  = (0,
     write_PORTB 255
       (write_PORTB k
          (read_PIND PIND
             (idle PIND m
                (add_writes
                   ((clock st, 255)
                    :: chase_writes (sleep st) (clock st)
                         (firstn (S (m / delay_ticks))
                                 (concat (repeat chase_pattern 20)))) st))))).
Proof.
  intros Hm Hk Hf. rewrite standby_ticks_eq in Hm.
  destruct (split_ticks 20 m Hm) as (a & b & r & Ha & Hb & Hr & Em & Eq).
  rewrite Eq, firstn_chase by assumption.
  unfold standby. change (Z.to_nat STANDBYTIMEOUT) with 20%nat.
  rewrite Em in Hf |- *.
  rewrite (standby_loop_hit PIND 20 a b r k (write_PORTB 255 st))
    by assumption.
  autorewrite with fields.
  now rewrite (write_PORTB_add 255 st), add_writes_add.
Qed.

End StandbyRuns.

Lemma idle_keyboard_quiet (PIND : nat -> Z) (n : nat) (st : state) :
  (0 < n)%nat -> feeds PIND (clock st) (repeat 255 n) ->
  keyboard (idle PIND n st) = 255.
Proof.
  intros Hn Hf. destruct n as [|n]; [lia|].
  rewrite idle_keyboard. apply (feeds_repeat_nth PIND _ (S n)); [exact Hf|lia].
Qed.

Lemma standby_ticks_pos : (0 < standby_ticks)%nat.
Proof. rewrite standby_ticks_eq. pose proof delay_ticks_pos. lia. Qed.

(** X4: a [standby] during which no key is pressed runs for its whole
    budget of 20 * 4 * 300 = 24000 samples and returns 1.  While the game
    sleeps ([sleep] not 0) the LEDs stay dark: it only writes 0xFF at its
    start and at its end.  While the game is awake it shows, after the
    first 0xFF, twenty rounds of the chase LED0, LED1, LED2, LED3, one
    pattern per [delay], and ends with 0xFF. *)
Theorem standby_times_out (PIND : nat -> Z) (st : state) :
  feeds PIND (clock st) (repeat 255 standby_ticks) ->
  Z.of_nat standby_ticks = 24000 /\
  fst (standby PIND st) = 1 /\
  keyboard (snd (standby PIND st)) = 255 /\
  clock (snd (standby PIND st)) = (clock st + standby_ticks)%nat /\
  rcalls (snd (standby PIND st)) = (rcalls st + standby_ticks)%nat /\
  same_globals st (snd (standby PIND st)) /\
  (sleep st <> 0 ->
   writes (snd (standby PIND st))
   = writes st ++ [(clock st, 255); ((clock st + standby_ticks)%nat, 255)]) /\
  (sleep st = 0 ->
   writes (snd (standby PIND st))
   = writes st
     ++ (clock st, 255)
        :: periodic (clock st) delay_ticks (concat (repeat chase_pattern 20))
     ++ [((clock st + standby_ticks)%nat, 255)]).
Proof.
  intros Hf. rewrite (standby_quiet_state PIND st Hf). cbn [fst snd].
  split; [reflexivity|]. split; [reflexivity|].
  unfold same_globals. autorewrite with fields.
  rewrite idle_keyboard_quiet
    by (autorewrite with fields; auto using standby_ticks_pos).
  repeat split.
  - intros Hs. unfold chase_writes.
    destruct (Z.eqb_spec (sleep st) 0) as [E|_]; [contradiction|].
    now rewrite <- app_assoc.
  - intros Hs. unfold chase_writes. rewrite Hs. cbn [Z.eqb].
    now rewrite <- app_assoc.
Qed.

Lemma standby_times_out_witness :
  let PIND := stream (repeat 255 standby_ticks) in
  let st := initial_state in
  Z.of_nat standby_ticks = 24000 /\
  fst (standby PIND st) = 1 /\
  keyboard (snd (standby PIND st)) = 255 /\
  clock (snd (standby PIND st)) = (clock st + standby_ticks)%nat /\
  rcalls (snd (standby PIND st)) = (rcalls st + standby_ticks)%nat /\
  same_globals st (snd (standby PIND st)) /\
  (sleep st <> 0 ->
   writes (snd (standby PIND st))
   = writes st ++ [(clock st, 255); ((clock st + standby_ticks)%nat, 255)]) /\
  (sleep st = 0 ->
   writes (snd (standby PIND st))
   = writes st
     ++ (clock st, 255)
        :: periodic (clock st) delay_ticks (concat (repeat chase_pattern 20))
     ++ [((clock st + standby_ticks)%nat, 255)]).
Proof.
  intros PIND st.
  apply (standby_times_out PIND st).
  apply (feeds_own (repeat 255 standby_ticks)).
Defined.

(** X5: a key pressed during [standby], the first pressed sample being
    the one of index [m] < 24000, makes it return 0 after [m + 1] reads,
    with [keyboard] holding the sample.  Its last two writes mirror the
    sample and switch all LEDs off again; before them a sleeping game has
    only written 0xFF, an awake one 0xFF and the patterns of the chase
    for the [m / 300 + 1] delays begun. *)
Theorem standby_interrupted (PIND : nat -> Z) (m : nat) (k : Z)
        (st : state) :
  (m < standby_ticks)%nat -> k <> 255 ->
  feeds PIND (clock st) (repeat 255 m ++ [k]) ->
  fst (standby PIND st) = 0 /\
  keyboard (snd (standby PIND st)) = k /\
  clock (snd (standby PIND st)) = (clock st + m + 1)%nat /\
  rcalls (snd (standby PIND st)) = (rcalls st + m)%nat /\
  same_globals st (snd (standby PIND st)) /\
  (sleep st <> 0 ->
   writes (snd (standby PIND st))
   = writes st
     ++ [(clock st, 255); ((clock st + m + 1)%nat, k);
         ((clock st + m + 1)%nat, 255)]) /\
  (sleep st = 0 ->
   writes (snd (standby PIND st))
   = writes st
     ++ (clock st, 255)
        :: periodic (clock st) delay_ticks
                    (firstn (S (m / delay_ticks))
                            (concat (repeat chase_pattern 20)))
     ++ [((clock st + m + 1)%nat, k); ((clock st + m + 1)%nat, 255)]).
Proof.
  intros Hm Hk Hf. rewrite (standby_hit_state PIND m k st Hm Hk Hf).
  cbn [fst snd]. split; [reflexivity|].
  unfold same_globals. autorewrite with fields.
  rewrite (feeds_last PIND _ _ _ Hf).
  replace (S (clock st + m)) with (clock st + m + 1)%nat by lia.
  repeat split.
  - intros Hs. unfold chase_writes.
    destruct (Z.eqb_spec (sleep st) 0) as [E|_]; [contradiction|].
    now rewrite <- !app_assoc.
  - intros Hs. unfold chase_writes. rewrite Hs. cbn [Z.eqb].
    rewrite <- !app_assoc. reflexivity.
Qed.

Lemma standby_interrupted_witness :
  let PIND := stream (repeat 255 700 ++ [253]) in
  let st := round_state 626 5 in
  fst (standby PIND st) = 0 /\
  keyboard (snd (standby PIND st)) = 253 /\
  clock (snd (standby PIND st)) = (clock st + 700 + 1)%nat /\
  rcalls (snd (standby PIND st)) = (rcalls st + 700)%nat /\
  same_globals st (snd (standby PIND st)) /\
  (sleep st <> 0 ->
   writes (snd (standby PIND st))
   = writes st
     ++ [(clock st, 255); ((clock st + 700 + 1)%nat, 253);
         ((clock st + 700 + 1)%nat, 255)]) /\
  (sleep st = 0 ->
   writes (snd (standby PIND st))
   = writes st
     ++ (clock st, 255)
        :: periodic (clock st) delay_ticks
                    (firstn (S (700 / delay_ticks))
                            (concat (repeat chase_pattern 20)))
     ++ [((clock st + 700 + 1)%nat, 253); ((clock st + 700 + 1)%nat, 255)]).
Proof.
  intros PIND st.
  apply (standby_interrupted PIND 700 253 st).
  - apply Nat.ltb_lt. vm_compute. reflexivity.
  - discriminate.
  - apply (feeds_own (repeat 255 700 ++ [253])).
Defined.

(** ** The selections *)

Lemma advanced_refl st : advanced st st 0 0.
Proof.
  unfold advanced. rewrite !Nat.add_0_r. repeat split.
  exists []. now rewrite app_nil_r.
Qed.

Lemma advanced_trans a b c t r t' r' :
  advanced a b t r -> advanced b c t' r' ->
  advanced a c (t + t') (r + r').
Proof.
  intros (Hc & Hr & Hs & Hl & (w & Hw)) (Hc' & Hr' & Hs' & Hl' & (w' & Hw')).
  unfold advanced. rewrite Hc', Hr', Hs', Hl', Hw', Hc, Hr, Hs, Hl, Hw.
  repeat split; try lia.
  exists (w ++ w'). now rewrite app_assoc.
Qed.

Lemma advanced_eq a b t r t' r' :
  advanced a b t r -> t = t' -> r = r' -> advanced a b t' r'.
Proof. now intros H <- <-. Qed.

Lemma port_value_write v st : port_value (write_PORTB v st) = Some v.
Proof. reflexivity. Qed.

Lemma idle_ticks_app a b :
  idle_ticks (a ++ b) = (idle_ticks a + idle_ticks b)%nat.
Proof.
  unfold idle_ticks. induction a as [|x a IH]; [reflexivity|].
  cbn [app fold_right]. rewrite IH. lia.
Qed.

Section Selection.

Variable PIND : nat -> Z.

(** What the callers of [standby] need to know of it. *)
Lemma standby_hit_fields (m : nat) (k : Z) (st : state) :
  (m < standby_ticks)%nat -> k <> 255 ->
  feeds PIND (clock st) (repeat 255 m ++ [k]) ->
  exists st1,
    standby PIND st = (0, st1) /\
    keyboard st1 = k /\ sleep st1 = sleep st /\
    advanced st st1 (m + 1) m /\
    port_value st1 = Some 255.
Proof.
  intros Hm Hk Hf. rewrite (standby_hit_state PIND m k st Hm Hk Hf).
  eexists. split; [reflexivity|].
  unfold advanced. autorewrite with fields.
  rewrite (feeds_last PIND _ _ _ Hf).
  repeat split; try lia.
  eexists. rewrite <- !app_assoc. reflexivity.
Qed.

Lemma standby_quiet_fields (st : state) :
  feeds PIND (clock st) (repeat 255 standby_ticks) ->
  exists st1,
    standby PIND st = (1, st1) /\
    keyboard st1 = 255 /\ sleep st1 = sleep st /\
    advanced st st1 standby_ticks standby_ticks /\
    port_value st1 = Some 255.
Proof.
  intros Hf. rewrite (standby_quiet_state PIND st Hf).
  eexists. split; [reflexivity|].
  unfold advanced. autorewrite with fields.
  rewrite idle_keyboard_quiet
    by (autorewrite with fields; auto using standby_ticks_pos).
  repeat split.
  eexists. rewrite <- !app_assoc. reflexivity.
Qed.

Lemma set_sleep_advanced v st st1 t r :
  advanced st st1 t r -> advanced st (set_sleep v st1) t r.
Proof. intros H. exact H. Qed.

(** The presses [tries] are skipped one by one. *)
Lemma while_keypattern_not_skips (keypattern : Z) (tries : list (nat * Z))
      (rest : list Z) (fuel : nat) (st : state) :
  Forall (ignored keypattern) tries ->
  feeds PIND (clock st) (flat_map attempt_samples tries ++ rest) ->
  exists st1,
    while_keypattern_not PIND (length tries + fuel) keypattern st
    = while_keypattern_not PIND fuel keypattern st1 /\
    sleep st1 = sleep st /\
    advanced st st1 (length (flat_map attempt_samples tries))
             (idle_ticks tries) /\
    feeds PIND (clock st1) rest.
Proof.
  revert st. induction tries as [|a tries IH]; intros st Hign Hf.
  - exists st. cbn [length Nat.add flat_map app idle_ticks fold_right] in *.
    split; [reflexivity|]. split; [reflexivity|].
    split; [apply advanced_refl | exact Hf].
  - apply Forall_cons_iff in Hign. destruct Hign as [(Hm & Hk & Hp) Hign].
    cbn [flat_map] in Hf. rewrite <- app_assoc in Hf.
    apply feeds_app in Hf. destruct Hf as [Hf1 Hf2].
    destruct (standby_hit_fields (fst a) (snd a) st Hm Hk Hf1)
      as (st1 & Hrun & Hkb & Hsl & Hadv & _).
    assert (Hc1 : clock st1 = (clock st + length (attempt_samples a))%nat).
    { destruct Hadv as [Hc _]. rewrite Hc. unfold attempt_samples.
      rewrite length_app, repeat_length. reflexivity. }
    rewrite <- Hc1 in Hf2.
    destruct (IH st1 Hign Hf2) as (st2 & Hrun2 & Hsl2 & Hadv2 & Hf3).
    exists st2. split; [|split; [congruence|split; [|exact Hf3]]].
    + cbn [length Nat.add while_keypattern_not]. rewrite Hrun.
      cbn [Z.eqb negb]. rewrite Hkb.
      unfold pattern_hit in Hp. apply negb_false_iff in Hp. rewrite Hp.
      exact Hrun2.
    + eapply advanced_eq; [exact (advanced_trans _ _ _ _ _ _ _ Hadv Hadv2)| |].
      * cbn [flat_map]. rewrite length_app. unfold attempt_samples.
        rewrite length_app, repeat_length. reflexivity.
      * reflexivity.
Qed.

Lemma while_keypattern_not_accepts (keypattern : Z)
      (tries : list (nat * Z)) (a : nat * Z) (rest : list Z) (fuel : nat)
      (st : state) :
  Forall (ignored keypattern) tries -> accepted keypattern a ->
  (length tries < fuel)%nat ->
  feeds PIND (clock st)
        (flat_map attempt_samples (tries ++ [a]) ++ rest) ->
  exists st',
    while_keypattern_not PIND fuel keypattern st = Ret tt st' /\
    sleep st' = 0 /\ keyboard st' = snd a /\
    advanced st st' (length (flat_map attempt_samples (tries ++ [a])))
             (idle_ticks (tries ++ [a])) /\
    port_value st' = Some 255 /\
    feeds PIND (clock st') rest.
Proof.
  intros Hign (Hm & Hk & Hp) Hfuel Hf.
  rewrite flat_map_app, <- app_assoc in Hf.
  replace fuel with (length tries + S (fuel - length tries - 1))%nat by lia.
  destruct (while_keypattern_not_skips keypattern tries _
              (S (fuel - length tries - 1)) st Hign Hf)
    as (st1 & Hrun & _ & Hadv & Hf1).
  cbn [flat_map] in Hf1. rewrite app_nil_r in Hf1.
  apply feeds_app in Hf1. destruct Hf1 as [Hfa Hfr].
  destruct (standby_hit_fields (fst a) (snd a) st1 Hm Hk Hfa)
    as (st2 & Hrun2 & Hkb & _ & Hadv2 & Hport).
  exists (set_sleep 0 st2). rewrite Hrun.
  cbn [while_keypattern_not]. rewrite Hrun2. cbn [Z.eqb negb]. rewrite Hkb.
  unfold pattern_hit in Hp. apply negb_true_iff in Hp. rewrite Hp.
  split; [reflexivity|]. split; [reflexivity|]. split; [exact Hkb|].
  split; [|split; [exact Hport|]].
  - apply set_sleep_advanced.
    eapply advanced_eq; [exact (advanced_trans _ _ _ _ _ _ _ Hadv Hadv2)| |].
    + rewrite flat_map_app, length_app. cbn [flat_map].
      rewrite app_nil_r. unfold attempt_samples.
      now rewrite length_app, repeat_length.
    + rewrite idle_ticks_app. cbn. lia.
  - destruct Hadv2 as [Hc _]. cbn [set_sleep clock]. rewrite Hc.
    unfold attempt_samples in Hfr.
    rewrite length_app, repeat_length in Hfr. exact Hfr.
Qed.

Lemma while_keypattern_not_gives_up (keypattern : Z)
      (tries : list (nat * Z)) (rest : list Z) (fuel : nat) (st : state) :
  Forall (ignored keypattern) tries ->
  (length tries < fuel)%nat ->
  feeds PIND (clock st)
        (flat_map attempt_samples tries ++ repeat 255 standby_ticks ++ rest) ->
  exists st',
    while_keypattern_not PIND fuel keypattern st = Ret tt st' /\
    sleep st' = 1 /\ keyboard st' = 255 /\
    advanced st st'
             (length (flat_map attempt_samples tries) + standby_ticks)
             (idle_ticks tries + standby_ticks) /\
    port_value st' = Some 255 /\
    feeds PIND (clock st') rest.
Proof.
  intros Hign Hfuel Hf.
  replace fuel with (length tries + S (fuel - length tries - 1))%nat by lia.
  destruct (while_keypattern_not_skips keypattern tries _
              (S (fuel - length tries - 1)) st Hign Hf)
    as (st1 & Hrun & _ & Hadv & Hf1).
  apply feeds_app in Hf1. destruct Hf1 as [Hfa Hfr].
  destruct (standby_quiet_fields st1 Hfa)
    as (st2 & Hrun2 & Hkb & _ & Hadv2 & Hport).
  exists (set_sleep 1 st2). rewrite Hrun.
  cbn [while_keypattern_not]. rewrite Hrun2. cbn [Z.eqb negb].
  split; [reflexivity|]. split; [reflexivity|]. split; [exact Hkb|].
  split; [|split; [exact Hport|]].
  - apply set_sleep_advanced.
    exact (advanced_trans _ _ _ _ _ _ _ Hadv Hadv2).
  - destruct Hadv2 as [Hc _]. cbn [set_sleep clock]. rewrite Hc.
    rewrite repeat_length in Hfr. exact Hfr.
Qed.

End Selection.

Section Init.

Variable PIND : nat -> Z.
Variable random : nat -> Z.

Lemma write_advanced v st : advanced st (write_PORTB v st) 0 0.
Proof.
  unfold advanced. autorewrite with fields. rewrite !Nat.add_0_r.
  repeat split. eexists. reflexivity.
Qed.

(** Waiting for the release of all keys. *)
Lemma release_advanced (fuel : nat) (held rest : list Z) (st : state) :
  Forall (fun v => v <> 255) held -> (length held < fuel)%nat ->
  feeds PIND (clock st) ((held ++ [255]) ++ rest) ->
  exists st',
    while_key_not PIND fuel 255 st = Ret tt st' /\
    keyboard st' = 255 /\ sleep st' = sleep st /\
    advanced st st' (length held + 1) 0 /\
    port_value st' = port_value st /\
    feeds PIND (clock st') rest.
Proof.
  intros Hheld Hfuel Hf. apply feeds_app in Hf. destruct Hf as [Hf1 Hf2].
  rewrite (while_key_not_feeds PIND 255 held fuel st) by assumption.
  eexists. split; [reflexivity|].
  rewrite sampled_keyboard.
  split; [|split; [apply sampled_sleep|split; [|split]]].
  - destruct (proj1 (feeds_app PIND _ _ _) Hf1) as [_ H].
    apply feeds_cons in H. apply H.
  - unfold advanced. autorewrite with fields.
    repeat split; try lia. exists []. now rewrite app_nil_r.
  - unfold port_value. now rewrite sampled_portb.
  - rewrite sampled_clock. rewrite length_app in Hf2. cbn [length] in Hf2.
    now replace (clock st + S (length held))%nat
      with (clock st + (length held + 1))%nat by lia.
Qed.

(** The selection of a mode or a level as [init] makes it: the accepted
    pattern is mirrored to the LEDs until all keys are released. *)
Lemma select_and_release (fuel : nat) (keypattern : Z)
      (tries : list (nat * Z)) (a : nat * Z) (held rest : list Z)
      (st : state) :
  valid_selection fuel keypattern tries a held ->
  feeds PIND (clock st) (selection_samples tries a held ++ rest) ->
  exists st1 st3,
    while_keypattern_not PIND fuel keypattern st = Ret tt st1 /\
    sleep st1 = 0 /\ keyboard st1 = snd a /\
    while_key_not PIND fuel 255 (write_PORTB (keyboard st1) st1)
    = Ret tt st3 /\
    sleep st3 = 0 /\ keyboard st3 = 255 /\
    advanced st st3 (length (selection_samples tries a held))
             (idle_ticks (tries ++ [a])) /\
    port_value st3 = Some (snd a) /\
    feeds PIND (clock st3) rest.
Proof.
  intros (Hign & Hacc & Hheld & Hft & Hfh) Hf.
  unfold selection_samples in Hf.
  replace ((flat_map attempt_samples tries ++ attempt_samples a
            ++ held ++ [255]) ++ rest)
    with (flat_map attempt_samples (tries ++ [a])
          ++ (held ++ [255]) ++ rest) in Hf
    by (rewrite flat_map_app; cbn [flat_map];
        rewrite app_nil_r, <- !app_assoc; reflexivity).
  destruct (while_keypattern_not_accepts PIND keypattern tries a _ fuel st
              Hign Hacc Hft Hf)
    as (st1 & Hrun1 & Hsl1 & Hkb1 & Hadv1 & _ & Hf1).
  destruct (release_advanced fuel held rest
              (write_PORTB (keyboard st1) st1) Hheld Hfh Hf1)
    as (st3 & Hrun3 & Hkb3 & Hsl3 & Hadv3 & Hport3 & Hf3).
  exists st1, st3. repeat (split; [assumption|]).
  split; [rewrite Hsl3; exact Hsl1|]. split; [exact Hkb3|].
  split; [|split; [|exact Hf3]].
  - pose proof (advanced_trans _ _ _ _ _ _ _ Hadv1
                  (advanced_trans _ _ _ _ _ _ _
                     (write_advanced (keyboard st1) st1) Hadv3)) as H.
    eapply advanced_eq; [exact H| |lia].
    unfold selection_samples.
    rewrite flat_map_app, !length_app. cbn [flat_map length].
    rewrite app_nil_r. lia.
  - rewrite Hport3, port_value_write, Hkb1. reflexivity.
Qed.

(** After the two selections [init] calls [gen_seq] with the level that
    [bits2number] makes of the second accepted pattern. *)
Lemma init_reaches_gen_seq (fuel : nat)
      (tries1 : list (nat * Z)) (a1 : nat * Z) (held1 : list Z)
      (tries2 : list (nat * Z)) (a2 : nat * Z) (held2 : list Z)
      (st : state) :
  valid_selection fuel 3 tries1 a1 held1 ->
  valid_selection fuel 15 tries2 a2 held2 ->
  feeds PIND (clock st)
        (selection_samples tries1 a1 held1
         ++ selection_samples tries2 a2 held2) ->
  exists st7,
    init PIND random fuel st
    = gen_seq random (bits2number (snd a2)) st7 /\
    sleep st7 = 0 /\ keyboard st7 = 255 /\
    advanced st st7
             (length (selection_samples tries1 a1 held1
                      ++ selection_samples tries2 a2 held2))
             (idle_ticks (tries1 ++ [a1]) + idle_ticks (tries2 ++ [a2])) /\
    port_value st7 = Some 255.
Proof.
  intros Hv1 Hv2 Hf.
  destruct (select_and_release fuel 3 tries1 a1 held1 _ st Hv1 Hf)
    as (st1 & st3 & Hrun1 & Hsl1 & Hkb1 & Hrun3 & Hsl3 & Hkb3 & Hadv3
        & _ & Hf3).
  rewrite <- (app_nil_r (selection_samples tries2 a2 held2)) in Hf3.
  destruct (select_and_release fuel 15 tries2 a2 held2 _ st3 Hv2 Hf3)
    as (st4 & st6 & Hrun4 & Hsl4 & Hkb4 & Hrun6 & Hsl6 & Hkb6 & Hadv6
        & _ & _).
  exists (write_PORTB (keyboard st6) st6).
  unfold init. rewrite Hrun1. cbn [bind]. rewrite Hsl1. cbn [Z.eqb negb].
  rewrite Hrun3. cbn [bind]. rewrite Hrun4. cbn [bind].
  rewrite Hsl4. cbn [Z.eqb negb]. rewrite Hrun6. cbn [bind].
  autorewrite with fields. rewrite Hkb4.
  split; [reflexivity|]. split; [exact Hsl6|]. split; [exact Hkb6|]. split.
  - pose proof (advanced_trans _ _ _ _ _ _ _ Hadv3
                  (advanced_trans _ _ _ _ _ _ _ Hadv6
                     (write_advanced (keyboard st6) st6))) as H.
    eapply advanced_eq; [exact H| |lia].
    rewrite length_app. lia.
  - rewrite port_value_write, Hkb6. reflexivity.
Qed.

End Init.

Lemma ignoredb_sound keypattern a :
  ignoredb keypattern a = true -> ignored keypattern a.
Proof.
  unfold ignoredb, ignored. rewrite !andb_true_iff, !negb_true_iff.
  intros [[H1 H2] H3]. repeat split.
  - now apply Nat.ltb_lt.
  - now apply Z.eqb_neq.
  - exact H3.
Qed.

Lemma acceptedb_sound keypattern a :
  acceptedb keypattern a = true -> accepted keypattern a.
Proof.
  unfold acceptedb, accepted. rewrite !andb_true_iff, !negb_true_iff.
  intros [[H1 H2] H3]. repeat split.
  - now apply Nat.ltb_lt.
  - now apply Z.eqb_neq.
  - exact H3.
Qed.

Lemma all_ignoredb_sound keypattern tries :
  forallb (ignoredb keypattern) tries = true ->
  Forall (ignored keypattern) tries.
Proof.
  intros H. apply Forall_forall. intros a Ha. apply ignoredb_sound.
  rewrite forallb_forall in H. now apply H.
Qed.

Lemma valid_selectionb_sound fuel keypattern tries a held :
  valid_selectionb fuel keypattern tries a held = true ->
  valid_selection fuel keypattern tries a held.
Proof.
  unfold valid_selectionb, valid_selection. rewrite !andb_true_iff.
  intros [[[[H1 H2] H3] H4] H5].
  split; [now apply all_ignoredb_sound|].
  split; [now apply acceptedb_sound|].
  split; [now apply not_255_sound|].
  split; now apply Nat.ltb_lt.
Qed.

(** X6: [while_keypattern_not] ends a selection at the first press that
    includes a switch of the pattern: it returns with [sleep] = 0 and
    [keyboard] holding that sample, the LEDs off.  Presses that include
    none are mirrored by [standby] and otherwise skipped; [random] has been
    called once for every sample without a key. *)
Theorem selection_accepts_key (PIND : nat -> Z) (keypattern : Z)
        (tries : list (nat * Z)) (a : nat * Z) (fuel : nat) (st : state) :
  Forall (ignored keypattern) tries -> accepted keypattern a ->
  (length tries < fuel)%nat ->
  feeds PIND (clock st) (flat_map attempt_samples (tries ++ [a])) ->
  exists st',
    while_keypattern_not PIND fuel keypattern st = Ret tt st' /\
    sleep st' = 0 /\ keyboard st' = snd a /\
    advanced st st' (length (flat_map attempt_samples (tries ++ [a])))
             (idle_ticks (tries ++ [a])) /\
    port_value st' = Some 255.
Proof.
  intros Hign Hacc Hfuel Hf.
  rewrite <- (app_nil_r (flat_map _ _)) in Hf.
  destruct (while_keypattern_not_accepts PIND keypattern tries a [] fuel st
              Hign Hacc Hfuel Hf) as (st' & H1 & H2 & H3 & H4 & H5 & _).
  exists st'. repeat (split; [assumption|]). exact H5.
Qed.

Lemma selection_accepts_key_witness :
  let tries := [(2%nat, 251)] in
  let a := (3%nat, 253) in
  let PIND := stream (flat_map attempt_samples (tries ++ [a])) in
  let st := initial_state in
  exists st',
    while_keypattern_not PIND 2 3 st = Ret tt st' /\
    sleep st' = 0 /\ keyboard st' = snd a /\
    advanced st st' (length (flat_map attempt_samples (tries ++ [a])))
             (idle_ticks (tries ++ [a])) /\
    port_value st' = Some 255.
Proof.
  intros tries a PIND st.
  apply (selection_accepts_key PIND 3 tries a 2 st).
  - apply all_ignoredb_sound. vm_compute. reflexivity.
  - apply acceptedb_sound. vm_compute. reflexivity.
  - cbn. lia.
  - apply (feeds_own (flat_map attempt_samples (tries ++ [a]))).
Defined.

(** X7: when, after presses that are ignored, no key is pressed for a
    whole standby budget, [while_keypattern_not] gives up: it returns with
    [sleep] = 1, the LEDs off.  The budget of 24000 samples starts anew
    after every ignored press. *)
Theorem selection_gives_up (PIND : nat -> Z) (keypattern : Z)
        (tries : list (nat * Z)) (fuel : nat) (st : state) :
  Forall (ignored keypattern) tries ->
  (length tries < fuel)%nat ->
  feeds PIND (clock st)
        (flat_map attempt_samples tries ++ repeat 255 standby_ticks) ->
  exists st',
    while_keypattern_not PIND fuel keypattern st = Ret tt st' /\
    sleep st' = 1 /\ keyboard st' = 255 /\
    advanced st st'
             (length (flat_map attempt_samples tries) + standby_ticks)
             (idle_ticks tries + standby_ticks) /\
    port_value st' = Some 255.
Proof.
  intros Hign Hfuel Hf.
  rewrite <- (app_nil_r (repeat _ _)) in Hf.
  destruct (while_keypattern_not_gives_up PIND keypattern tries [] fuel st
              Hign Hfuel Hf) as (st' & H1 & H2 & H3 & H4 & H5 & _).
  exists st'. repeat (split; [assumption|]). exact H5.
Qed.

Lemma selection_gives_up_witness :
  let tries := [(4000%nat, 251)] in
  let PIND := stream (flat_map attempt_samples tries
                      ++ repeat 255 standby_ticks) in
  let st := round_state 626 5 in
  exists st',
    while_keypattern_not PIND 2 3 st = Ret tt st' /\
    sleep st' = 1 /\ keyboard st' = 255 /\
    advanced st st'
             (length (flat_map attempt_samples tries) + standby_ticks)
             (idle_ticks tries + standby_ticks) /\
    port_value st' = Some 255.
Proof.
  intros tries PIND st.
  apply (selection_gives_up PIND 3 tries 2 st).
  - apply all_ignoredb_sound. vm_compute. reflexivity.
  - cbn. lia.
  - apply (feeds_own (flat_map attempt_samples tries
                      ++ repeat 255 standby_ticks)).
Defined.

(** ** init *)

Lemma bits2number_level (level : Z) :
  0 <= level <= 3 -> bits2number (number2bits level) = level.
Proof.
  intros H. destruct (small_cases level H) as [-> | [-> | [-> | ->]]];
    reflexivity.
Qed.

Lemma bits2number_other (bits : Z) :
  ~ In bits (map number2bits [0; 1; 2; 3]) -> bits2number bits = 8.
Proof.
  intros Hbits. unfold bits2number.
  repeat match goal with
         | |- context [bits =? ?c] =>
             destruct (Z.eqb_spec bits c) as [E | _];
             [exfalso; apply Hbits; rewrite E; cbn; tauto|]
         end.
  reflexivity.
Qed.

(** X8: [init] starts a round when a mode is selected with SW0 or SW1 and
    then a level with exactly one of SW0 to SW3: for the pattern of switch
    [level] it returns with [sleep] = 0, all keys released, the LEDs off,
    [seq_len] the entry [level] of the table and [seq] the value of the
    call of [random] whose number is the count of samples without a key
    during the two selections: the sequence depends on how long the
    player took. *)
Theorem init_starts_round (PIND random : nat -> Z) (fuel : nat)
        (tries1 : list (nat * Z)) (a1 : nat * Z) (held1 : list Z)
        (tries2 : list (nat * Z)) (a2 : nat * Z) (held2 : list Z)
        (level : Z) (st : state) :
  0 <= level <= 3 ->
  snd a2 = number2bits level ->
  valid_selection fuel 3 tries1 a1 held1 ->
  valid_selection fuel 15 tries2 a2 held2 ->
  feeds PIND (clock st)
        (selection_samples tries1 a1 held1
         ++ selection_samples tries2 a2 held2) ->
  exists st',
    init PIND random fuel st = Ret tt st' /\
    sleep st' = 0 /\ keyboard st' = 255 /\ port_value st' = Some 255 /\
    seq_len st' = nth (Z.to_nat level) lengths 0 /\
    seq st'
    = random (rcalls st + (idle_ticks (tries1 ++ [a1])
                           + idle_ticks (tries2 ++ [a2])))%nat mod 2 ^ 32 /\
    clock st'
    = (clock st + length (selection_samples tries1 a1 held1
                          ++ selection_samples tries2 a2 held2))%nat.
Proof.
  intros Hl Ha2 Hv1 Hv2 Hf.
  destruct (init_reaches_gen_seq PIND random fuel tries1 a1 held1
              tries2 a2 held2 st Hv1 Hv2 Hf)
    as (st7 & Hrun & Hsl & Hkb & (Hc & Hr & _) & Hport).
  rewrite Ha2, bits2number_level in Hrun by exact Hl.
  destruct (gen_seq_in_bounds random level st7 Hl) as (len & Hlen & Hgen).
  rewrite Hgen in Hrun. eexists. split; [exact Hrun|].
  cbn [sleep keyboard seq seq_len clock]. unfold port_value. cbn [portb].
  rewrite Hr. repeat split; try assumption.
  unfold array_get in Hlen.
  destruct (level <? 0); [discriminate|].
  symmetry. now apply nth_error_nth.
Qed.

Lemma init_starts_round_witness :
  let tries1 := [] in
  let a1 := (1%nat, 254) in
  let held1 := [254] in
  let tries2 := [(2%nat, 239)] in
  let a2 := (0%nat, 251) in
  let held2 := [] in
  let PIND := stream (selection_samples tries1 a1 held1
                      ++ selection_samples tries2 a2 held2) in
  let random := fun n => Z.of_nat n + 600 in
  let st := initial_state in
  exists st',
    init PIND random 2 st = Ret tt st' /\
    sleep st' = 0 /\ keyboard st' = 255 /\ port_value st' = Some 255 /\
    seq_len st' = nth (Z.to_nat 2) lengths 0 /\
    seq st'
    = random (rcalls st + (idle_ticks (tries1 ++ [a1])
                           + idle_ticks (tries2 ++ [a2])))%nat mod 2 ^ 32 /\
    clock st'
    = (clock st + length (selection_samples tries1 a1 held1
                          ++ selection_samples tries2 a2 held2))%nat.
Proof.
  intros tries1 a1 held1 tries2 a2 held2 PIND random st.
  apply (init_starts_round PIND random 2 tries1 a1 held1 tries2 a2 held2
           2 st).
  - lia.
  - reflexivity.
  - apply valid_selectionb_sound. vm_compute. reflexivity.
  - apply valid_selectionb_sound. vm_compute. reflexivity.
  - apply (feeds_own (selection_samples tries1 a1 held1
                      ++ selection_samples tries2 a2 held2)).
Defined.

(** X9: whenever the pattern accepted at the level selection is not that
    of exactly one of SW0 to SW3 (several switches together, or one of
    them together with an upper switch), [init] ends in [gen_seq] reading
    [lengths] at index 8, outside the table, with [seq] and [seq_len]
    still unchanged. *)
Theorem init_level_out_of_bounds (PIND random : nat -> Z) (fuel : nat)
        (tries1 : list (nat * Z)) (a1 : nat * Z) (held1 : list Z)
        (tries2 : list (nat * Z)) (a2 : nat * Z) (held2 : list Z)
        (st : state) :
  ~ In (snd a2) (map number2bits [0; 1; 2; 3]) ->
  valid_selection fuel 3 tries1 a1 held1 ->
  valid_selection fuel 15 tries2 a2 held2 ->
  feeds PIND (clock st)
        (selection_samples tries1 a1 held1
         ++ selection_samples tries2 a2 held2) ->
  exists st',
    init PIND random fuel st = OutOfBounds 8 st' /\
    seq st' = seq st /\ seq_len st' = seq_len st /\
    clock st'
    = (clock st + length (selection_samples tries1 a1 held1
                          ++ selection_samples tries2 a2 held2))%nat.
Proof.
  intros Ha2 Hv1 Hv2 Hf.
  destruct (init_reaches_gen_seq PIND random fuel tries1 a1 held1
              tries2 a2 held2 st Hv1 Hv2 Hf)
    as (st7 & Hrun & _ & _ & (Hc & _ & Hs & Hn & _) & _).
  rewrite (bits2number_other _ Ha2) in Hrun.
  exists st7. split; [exact Hrun|]. repeat split; assumption.
Qed.

Lemma init_level_out_of_bounds_witness :
  let tries1 := [] in
  let a1 := (1%nat, 253) in
  let held1 := [] in
  let tries2 := [] in
  let a2 := (5%nat, 246) in
  let held2 := [254] in
  let PIND := stream (selection_samples tries1 a1 held1
                      ++ selection_samples tries2 a2 held2) in
  let random := fun _ => 626 in
  let st := initial_state in
  exists st',
    init PIND random 2 st = OutOfBounds 8 st' /\
    seq st' = seq st /\ seq_len st' = seq_len st /\
    clock st'
    = (clock st + length (selection_samples tries1 a1 held1
                          ++ selection_samples tries2 a2 held2))%nat.
Proof.
  intros tries1 a1 held1 tries2 a2 held2 PIND random st.
  apply (init_level_out_of_bounds PIND random 2 tries1 a1 held1
           tries2 a2 held2 st).
  - cbn. intros [H | [H | [H | [H | []]]]]; discriminate H.
  - apply valid_selectionb_sound. vm_compute. reflexivity.
  - apply valid_selectionb_sound. vm_compute. reflexivity.
  - apply (feeds_own (selection_samples tries1 a1 held1
                      ++ selection_samples tries2 a2 held2)).
Defined.





(** ** Symbols as base-4 digits *)

Lemma symbol_div (s j : Z) : 0 <= j -> symbol s j = (s / 4 ^ j) mod 4.
Proof.
  intros Hj. unfold symbol.
  rewrite Z.shiftl_mul_pow2 by lia. change (2 ^ 1) with 2.
  rewrite Z.shiftr_div_pow2 by lia.
  change 3 with (Z.ones 2). rewrite Z.land_ones by lia.
  change (2 ^ 2) with 4.
  replace (2 ^ (j * 2)) with (4 ^ j); [reflexivity|].
  rewrite Z.mul_comm, Z.pow_mul_r by lia. reflexivity.
Qed.

Lemma symbol_head (d p : Z) : 0 <= d <= 3 -> symbol (d + 4 * p) 0 = d.
Proof.
  intros Hd. rewrite symbol_div by lia. change (4 ^ 0) with 1.
  rewrite Z.div_1_r, (Z.mul_comm 4 p), Z.mod_add by lia.
  apply Z.mod_small. lia.
Qed.

Lemma symbol_tail (d p j : Z) :
  0 <= d <= 3 -> 0 <= j -> symbol (d + 4 * p) (j + 1) = symbol p j.
Proof.
  intros Hd Hj. rewrite !symbol_div by lia.
  rewrite Z.pow_add_r by lia. change (4 ^ 1) with 4.
  rewrite (Z.mul_comm (4 ^ j) 4), <- Z.div_div by lia.
  replace ((d + 4 * p) / 4) with p; [reflexivity|].
  rewrite (Z.mul_comm 4 p), Z.div_add by lia.
  rewrite (Z.div_small d 4) by lia. lia.
Qed.

Lemma symbols_from_shift (d p j : Z) (n : nat) :
  0 <= d <= 3 -> 0 <= j ->
  symbols_from (d + 4 * p) (j + 1) n = symbols_from p j n.
Proof.
  intros Hd Hj. unfold symbols_from. apply map_ext. intros k.
  replace (j + 1 + Z.of_nat k) with (j + Z.of_nat k + 1) by lia.
  apply symbol_tail; lia.
Qed.

Lemma pack_bounds (l : list Z) :
  Forall (fun d => 0 <= d <= 3) l -> 0 <= pack l < 4 ^ Z.of_nat (length l).
Proof.
  induction 1 as [|d l Hd Hl IH]; [cbn; lia|].
  cbn [pack length]. rewrite Nat2Z.inj_succ, Z.pow_succ_r by lia. lia.
Qed.

(** X12: the symbols are the base-4 digits of the sequence, least
    significant first.  Packing a list of symbols and reading back as many
    symbols as it has gives the list again, with a packed value below
    4^length; reading [n] symbols of any [s] and packing them gives the
    [2 * n] low bits of [s]. *)
Theorem symbols_pack_round_trip (l : list Z) (s : Z) (n : nat) :
  Forall (fun d => 0 <= d <= 3) l ->
  symbols (pack l) (length l) = l /\
  0 <= pack l < 4 ^ Z.of_nat (length l) /\
  pack (symbols s n) = s mod 2 ^ (2 * Z.of_nat n).
Proof.
  intros Hl. split; [|split; [now apply pack_bounds|]].
  - unfold symbols. induction Hl as [|d l Hd Hl IH]; [reflexivity|].
    cbn [pack length]. rewrite symbols_from_S, symbol_head by exact Hd.
    rewrite (symbols_from_shift d (pack l) 0) by lia.
    now rewrite IH.
  - unfold symbols. revert s. induction n as [|n IH]; intros s.
    + cbn. now rewrite Z.mod_1_r.
    + rewrite symbols_from_S. cbn [pack].
      assert (Hshift : symbols_from s (0 + 1) n = symbols_from (s / 4) 0 n).
      { unfold symbols_from. apply map_ext. intros k.
        rewrite !symbol_div by lia.
        replace (0 + 1 + Z.of_nat k) with (1 + Z.of_nat k) by lia.
        rewrite Z.pow_add_r by lia. change (4 ^ 1) with 4.
        now rewrite Z.div_div by lia. }
      rewrite Hshift, IH, symbol_div by lia.
      change (4 ^ 0) with 1. rewrite Z.div_1_r.
      replace (2 ^ (2 * Z.of_nat (S n))) with (4 * 2 ^ (2 * Z.of_nat n)).
      * rewrite Z.rem_mul_r by lia. reflexivity.
      * rewrite Nat2Z.inj_succ.
        replace (2 * Z.succ (Z.of_nat n)) with (2 + 2 * Z.of_nat n) by lia.
        rewrite Z.pow_add_r by lia. reflexivity.
Qed.

Lemma symbols_pack_round_trip_witness :
  symbols (pack [2; 0; 3; 1; 2]) (length [2; 0; 3; 1; 2]) = [2; 0; 3; 1; 2] /\
  0 <= pack [2; 0; 3; 1; 2] < 4 ^ Z.of_nat (length [2; 0; 3; 1; 2]) /\
  pack (symbols 1650 3) = 1650 mod 2 ^ (2 * Z.of_nat 3).
Proof.
  apply (symbols_pack_round_trip [2; 0; 3; 1; 2] 1650 3).
  repeat constructor; lia.
Defined.

(** X13: the table's "Max length is 15": for a value of [random], from 0
    to RANDOM_MAX = 2^31 - 1, the symbol of index 15, the last one that
    the 32 bits of [seq] hold, is only 0 or 1, whereas the value that
    packs any list of up to 15 symbols is one that [random] can return;
    the lengths of the table are all within 15. *)
Theorem fifteen_symbols_at_most (s : Z) (l : list Z) :
  0 <= s < 2 ^ 31 ->
  Forall (fun d => 0 <= d <= 3) l -> (length l <= 15)%nat ->
  0 <= symbol s 15 <= 1 /\
  0 <= pack l < 2 ^ 31 /\
  Forall (fun len => len <= 15) lengths.
Proof.
  intros Hs Hl Hlen. split; [|split].
  - rewrite symbol_div by lia.
    assert (H : 0 <= s / 4 ^ 15 < 2).
    { split; [apply Z.div_pos; lia|].
      apply Z.div_lt_upper_bound; [reflexivity|].
      change (4 ^ 15 * 2) with (2 ^ 31). lia. }
    rewrite Z.mod_small by lia. lia.
  - pose proof (pack_bounds l Hl) as Hb.
    assert (4 ^ Z.of_nat (length l) <= 4 ^ 15)
      by (apply Z.pow_le_mono_r; lia).
    change (4 ^ 15) with (2 ^ 30) in *.
    assert (2 ^ 30 < 2 ^ 31) by reflexivity. lia.
  - unfold lengths. repeat constructor; lia.
Qed.

Lemma fifteen_symbols_at_most_witness :
  0 <= symbol 2147483647 15 <= 1 /\
  0 <= pack [3; 3; 1] < 2 ^ 31 /\
  Forall (fun len => len <= 15) lengths.
Proof.
  apply (fifteen_symbols_at_most 2147483647 [3; 3; 1]).
  - split; [lia | reflexivity].
  - repeat constructor; lia.
  - cbn. lia.
Defined.

(** ** The polling loops *)

(** X14: [while_key_not(key)] returns exactly when a sample equal to [key]
    comes within the fuel, and then at the first such sample: it has read
    the samples up to that one and nothing else has changed. *)
Theorem while_key_not_returns_iff (PIND : nat -> Z) (fuel : nat) (key : Z)
        (st st' : state) :
  while_key_not PIND fuel key st = Ret tt st' <->
  exists n,
    (n < fuel)%nat /\
    (forall i, (i < n)%nat -> PIND (clock st + i)%nat <> key) /\
    PIND (clock st + n)%nat = key /\
    st' = sampled PIND (S n) st.
Proof.
  revert st st'. induction fuel as [|fuel IH]; intros st st'.
  - cbn [while_key_not]. split; [discriminate|].
    intros (n & Hn & _). lia.
  - cbn [while_key_not]. cbn [read_PIND keyboard].
    fold (read_PIND PIND st). rewrite read_PIND_sampled.
    destruct (Z.eqb_spec (PIND (clock st)) key) as [E | E].
    + split.
      * intros H. injection H as H. subst st'. exists 0%nat.
        split; [lia|]. split; [intros; lia|].
        split; [now rewrite Nat.add_0_r | reflexivity].
      * intros (n & Hn & Hbefore & Hat & ->).
        destruct n as [|n]; [reflexivity|].
        exfalso. apply (Hbefore 0%nat); [lia|].
        now rewrite Nat.add_0_r.
    + rewrite IH. rewrite sampled_clock. split.
      * intros (n & Hn & Hbefore & Hat & ->). exists (S n).
        split; [lia|]. split; [|split].
        -- intros [|i] Hi; [now rewrite Nat.add_0_r|].
           replace (clock st + S i)%nat with (clock st + 1 + i)%nat by lia.
           apply Hbefore. lia.
        -- now replace (clock st + S n)%nat
             with (clock st + 1 + n)%nat by lia.
        -- now rewrite sampled_sampled.
      * intros (n & Hn & Hbefore & Hat & ->).
        destruct n as [|n]; [now rewrite Nat.add_0_r in Hat|].
        exists n. split; [lia|]. split; [|split].
        -- intros i Hi.
           replace (clock st + 1 + i)%nat with (clock st + S i)%nat by lia.
           apply Hbefore. lia.
        -- now replace (clock st + 1 + n)%nat
             with (clock st + S n)%nat by lia.
        -- now rewrite sampled_sampled.
Qed.

(** X15: [while_key(key)], with which [main] waits for the first key after
    power-on, returns exactly when a sample that differs from [key] comes
    within the fuel, at the first such sample; there is no time-out. *)
Theorem while_key_returns_iff (PIND : nat -> Z) (fuel : nat) (key : Z)
        (st st' : state) :
  while_key PIND fuel key st = Ret tt st' <->
  exists n,
    (n < fuel)%nat /\
    (forall i, (i < n)%nat -> PIND (clock st + i)%nat = key) /\
    PIND (clock st + n)%nat <> key /\
    st' = sampled PIND (S n) st.
Proof.
  revert st st'. induction fuel as [|fuel IH]; intros st st'.
  - cbn [while_key]. split; [discriminate|].
    intros (n & Hn & _). lia.
  - cbn [while_key]. cbn [read_PIND keyboard].
    fold (read_PIND PIND st). rewrite read_PIND_sampled.
    destruct (Z.eqb_spec (PIND (clock st)) key) as [E | E].
    + rewrite IH. rewrite sampled_clock. split.
      * intros (n & Hn & Hbefore & Hat & ->). exists (S n).
        split; [lia|]. split; [|split].
        -- intros [|i] Hi; [now rewrite Nat.add_0_r|].
           replace (clock st + S i)%nat with (clock st + 1 + i)%nat by lia.
           apply Hbefore. lia.
        -- now replace (clock st + S n)%nat
             with (clock st + 1 + n)%nat by lia.
        -- now rewrite sampled_sampled.
      * intros (n & Hn & Hbefore & Hat & ->).
        destruct n as [|n]; [now rewrite Nat.add_0_r in Hat|].
        exists n. split; [lia|]. split; [|split].
        -- intros i Hi.
           replace (clock st + 1 + i)%nat with (clock st + S i)%nat by lia.
           apply Hbefore. lia.
        -- now replace (clock st + 1 + n)%nat
             with (clock st + S n)%nat by lia.
        -- now rewrite sampled_sampled.
    + split.
      * intros H. injection H as H. subst st'. exists 0%nat.
        split; [lia|]. split; [intros; lia|].
        split; [now rewrite Nat.add_0_r | reflexivity].
      * intros (n & Hn & Hbefore & Hat & ->).
        destruct n as [|n]; [reflexivity|].
        exfalso. apply E. rewrite <- (Hbefore 0%nat) by lia.
        now rewrite Nat.add_0_r.
Qed.

(** ** One key, in full *)

Lemma key_budget_spec (m : nat) :
  (m < key_budget)%nat <-> Z.of_nat m <= KEYTIMEOUT.
Proof.
  assert (Hk : 0 <= KEYTIMEOUT + 1) by (unfold KEYTIMEOUT; lia).
  unfold key_budget. split; intros H.
  - apply Nat2Z.inj_lt in H. rewrite Z2Nat.id in H by exact Hk. lia.
  - apply Nat2Z.inj_lt. rewrite Z2Nat.id by exact Hk. lia.
Qed.

Lemma feeds_const (v : Z) (c : nat) (l : list Z) :
  Forall (fun x => x = v) l -> feeds (fun _ => v) c l.
Proof.
  intros H n Hn. rewrite Forall_forall in H. symmetry.
  apply H, nth_In, Hn.
Qed.

(** X16: [wait_for_key(key)] first lets keys that are still held be
    released, then takes the first sample with a key pressed as the
    answer, provided it comes among the first [KEYTIMEOUT + 1] samples
    after the release (as late as the sample of index [KEYTIMEOUT]): it
    returns 0 when the sample is [key] and 1 otherwise, mirrors the sample
    to the LEDs, and switches them off once all keys are released. *)
Theorem wait_for_key_takes_first_press (PIND : nat -> Z) (fuel : nat)
        (key : Z) (old : list Z) (m : nat) (k : Z) (held : list Z)
        (st : state) :
  Forall (fun v => v <> 255) old -> Forall (fun v => v <> 255) held ->
  k <> 255 -> Z.of_nat m <= KEYTIMEOUT ->
  (length old < fuel)%nat -> (S (length held) < fuel)%nat ->
  feeds PIND (clock st)
        ((old ++ [255]) ++ repeat 255 m ++ (k :: held) ++ [255]) ->
  exists st',
    wait_for_key PIND fuel key st = Ret (if k =? key then 0 else 1) st' /\
    clock st' = (clock st + (length old + 1 + m + 1 + length held + 1))%nat /\
    writes st'
    = writes st ++ [((clock st + (length old + 1 + m + 1))%nat, k);
                    (clock st', 255)] /\
    same_globals st st'.
Proof.
  intros Hold Hheld Hk Hm Hfl Hfh Hf.
  set (g := mkGesture old m (k :: held)).
  assert (Hto : timed_out g = false).
  { unfold timed_out, g. cbn [reaction]. apply Nat.leb_gt.
    now apply key_budget_spec. }
  assert (Hv : valid_gesture fuel g).
  { unfold valid_gesture, g. cbn [lead reaction pressed length].
    split; [exact Hold|]. split; [now constructor|].
    split; [apply Nat.lt_le_incl; now apply key_budget_spec|].
    split; [discriminate|]. split; assumption. }
  destruct (wait_for_key_gesture PIND fuel key g st Hv Hf)
    as (st' & Hrun & Hc & Hw & Hg).
  assert (Hseen : seen g = k) by (unfold seen; now rewrite Hto).
  assert (Hdet : detect_ticks g = (length old + 1 + m + 1)%nat)
    by (unfold detect_ticks; now rewrite Hto).
  assert (Hlen : length (samples g)
                 = (length old + 1 + m + 1 + length held + 1)%nat).
  { unfold samples, g. cbn [lead reaction pressed].
    rewrite !length_app, repeat_length. cbn [length]. lia. }
  rewrite Hseen in Hrun. rewrite Hseen, Hdet, Hlen in Hw. rewrite Hlen in Hc.
  exists st'. split; [exact Hrun|]. split; [exact Hc|]. split; [|exact Hg].
  rewrite Hw, Hc. reflexivity.
Qed.

Lemma wait_for_key_takes_first_press_witness :
  let PIND := stream (([254] ++ [255]) ++ repeat 255 3 ++ (251 :: [251; 243])
                      ++ [255]) in
  let st := initial_state in
  exists st',
    wait_for_key PIND 4 251 st = Ret (if 251 =? 251 then 0 else 1) st' /\
    clock st' = (clock st + (length [254] + 1 + 3 + 1
                             + length [251; 243] + 1))%nat /\
    writes st'
    = writes st ++ [((clock st + (length [254] + 1 + 3 + 1))%nat, 251);
                    (clock st', 255)] /\
    same_globals st st'.
Proof.
  intros PIND st.
  apply (wait_for_key_takes_first_press PIND 4 251 [254] 3 251 [251; 243] st).
  - repeat constructor; discriminate.
  - repeat constructor; discriminate.
  - discriminate.
  - unfold KEYTIMEOUT. lia.
  - cbn. lia.
  - cbn. lia.
  - apply (feeds_own (([254] ++ [255]) ++ repeat 255 3
                      ++ (251 :: [251; 243]) ++ [255])).
Defined.

(** X17: when no key is pressed in the [KEYTIMEOUT + 1] = 1000001 samples
    after the release, [wait_for_key(key)] gives up and compares the
    released pattern 0xFF with [key]: it returns 1 for every [key] but
    0xFF (and 0 for 0xFF), having written 0xFF twice; keys pressed later
    only delay its return until they are released. *)
Theorem wait_for_key_times_out (PIND : nat -> Z) (fuel : nat) (key : Z)
        (old held : list Z) (st : state) :
  Forall (fun v => v <> 255) old -> Forall (fun v => v <> 255) held ->
  (length old < fuel)%nat -> (length held < fuel)%nat ->
  feeds PIND (clock st)
        ((old ++ [255]) ++ repeat 255 key_budget ++ held ++ [255]) ->
  Z.of_nat key_budget = 1000001 /\
  exists st',
    wait_for_key PIND fuel key st = Ret (if key =? 255 then 0 else 1) st' /\
    clock st'
    = (clock st + (length old + 1 + key_budget + length held + 1))%nat /\
    writes st'
    = writes st ++ [((clock st + (length old + 1 + key_budget))%nat, 255);
                    (clock st', 255)] /\
    same_globals st st'.
Proof.
  intros Hold Hheld Hfl Hfh Hf.
  split; [unfold key_budget; rewrite Z2Nat.id by (unfold KEYTIMEOUT; lia);
          reflexivity|].
  remember key_budget as budget eqn:Eb.
  set (g := mkGesture old budget held).
  assert (Hto : timed_out g = true).
  { unfold timed_out, g. cbn [reaction]. rewrite Eb. apply Nat.leb_refl. }
  assert (Hv : valid_gesture fuel g).
  { unfold valid_gesture, g. cbn [lead reaction pressed length].
    split; [exact Hold|]. split; [exact Hheld|].
    split; [rewrite Eb; apply Nat.le_refl|].
    split; [intros E; change (timed_out g = false) in E; congruence|].
    split; assumption. }
  destruct (wait_for_key_gesture PIND fuel key g st Hv Hf)
    as (st' & Hrun & Hc & Hw & Hg).
  assert (Hseen : seen g = 255) by (unfold seen; now rewrite Hto).
  assert (Hdet : detect_ticks g = (length old + 1 + budget)%nat)
    by (unfold detect_ticks; rewrite Hto; unfold g; cbn [lead reaction]; lia).
  assert (Hlen : length (samples g)
                 = (length old + 1 + budget + length held + 1)%nat).
  { unfold samples, g. cbn [lead reaction pressed].
    rewrite !length_app, repeat_length. cbn [length]. lia. }
  rewrite Hseen in Hrun. rewrite Hseen, Hdet, Hlen in Hw. rewrite Hlen in Hc.
  exists st'. split; [|split; [exact Hc|split; [|exact Hg]]].
  - rewrite Hrun. rewrite (Z.eqb_sym key 255). reflexivity.
  - rewrite Hw, Hc. reflexivity.
Qed.

Lemma wait_for_key_times_out_witness :
  let PIND := fun _ : nat => 255 in
  let st := initial_state in
  Z.of_nat key_budget = 1000001 /\
  exists st',
    wait_for_key PIND 1 254 st = Ret (if 254 =? 255 then 0 else 1) st' /\
    clock st'
    = (clock st + (length (@nil Z) + 1 + key_budget
                   + length (@nil Z) + 1))%nat /\
    writes st'
    = writes st
      ++ [((clock st + (length (@nil Z) + 1 + key_budget))%nat, 255);
          (clock st', 255)] /\
    same_globals st st'.
Proof.
  intros PIND st.
  apply (wait_for_key_times_out PIND 1 254 [] [] st).
  - constructor.
  - constructor.
  - cbn. lia.
  - cbn. lia.
  - apply (feeds_const 255 0). apply Forall_forall. intros x Hx.
    repeat (apply in_app_or in Hx; destruct Hx as [Hx | Hx]);
      try (apply repeat_spec in Hx; exact Hx);
      try (destruct Hx as [Hx | []]; now symmetry);
      try contradiction.
Defined.

Lemma key_budget_pos' : (key_budget =? 0)%nat = false.
Proof.
  unfold key_budget.
  rewrite Z2Nat.inj_add by (unfold KEYTIMEOUT; lia).
  change (Z.to_nat 1) with 1%nat. rewrite Nat.add_1_r. reflexivity.
Qed.

Lemma while_key_not_post (PIND : nat -> Z) (fuel : nat) (key : Z)
      (st st' : state) :
  while_key_not PIND fuel key st = Ret tt st' ->
  keyboard st' = key /\ portb st' = portb st /\ rcalls st' = rcalls st /\
  same_globals st st' /\ (clock st < clock st')%nat.
Proof.
  revert st. induction fuel as [|fuel IH]; intros st H; [discriminate|].
  cbn [while_key_not] in H.
  destruct (Z.eqb_spec (keyboard (read_PIND PIND st)) key) as [E | E].
  - injection H as <-. cbn. repeat split; try lia. exact E.
  - destruct (IH _ H) as (Hk & Hp & Hr & (Hs & Hl & Hz) & Hc).
    cbn in Hp, Hr, Hs, Hl, Hz, Hc. repeat split; try assumption. lia.
Qed.

Lemma key_poll_post (PIND : nat -> Z) (budget : nat) (st : state) :
  portb (key_poll PIND budget st) = portb st /\
  rcalls (key_poll PIND budget st) = rcalls st /\
  same_globals st (key_poll PIND budget st) /\
  (clock st + (if (budget =? 0)%nat then 0 else 1)
   <= clock (key_poll PIND budget st))%nat.
Proof.
  revert st. induction budget as [|budget IH]; intros st.
  - cbn. repeat split. lia.
  - cbn [key_poll Nat.eqb].
    destruct (keyboard (read_PIND PIND st) =? 255).
    + destruct (IH (read_PIND PIND st)) as (Hp & Hr & (Hs & Hl & Hz) & Hc).
      cbn in Hp, Hr, Hs, Hl, Hz, Hc. repeat split; try assumption. lia.
    + cbn. repeat split. lia.
Qed.

(** X18: whatever the switches do, a [wait_for_key] that returns has made
    exactly two writes, the pattern it compared and then 0xFF, so that the
    LEDs are off; its result is 0 or 1 according to that pattern; all keys
    are released ([keyboard] is 0xFF); it has read at least three samples
    and has not called [random]. *)
Theorem wait_for_key_returns (PIND : nat -> Z) (fuel : nat) (key e : Z)
        (st st' : state) :
  wait_for_key PIND fuel key st = Ret e st' ->
  exists t k,
    e = (if k =? key then 0 else 1) /\
    writes st' = writes st ++ [(t, k); (clock st', 255)] /\
    keyboard st' = 255 /\ rcalls st' = rcalls st /\
    same_globals st st' /\ (clock st + 3 <= clock st')%nat.
Proof.
  intros H. unfold wait_for_key in H.
  destruct (while_key_not PIND fuel 255 st) as [[] st1 | |] eqn:E1;
    cbn [bind] in H; try discriminate.
  cbn zeta in H.
  pose proof (key_poll_post PIND key_budget st1) as Hpoll.
  rewrite key_budget_pos' in Hpoll.
  remember (key_poll PIND key_budget st1) as st2 eqn:Est2. clear Est2.
  destruct Hpoll as (Hp2 & Hr2 & (Hs2 & Hl2 & Hz2) & Hc2).
  destruct (while_key_not PIND fuel 255 (write_PORTB (keyboard st2) st2))
    as [[] st4 | |] eqn:E2; cbn [bind] in H; try discriminate.
  injection H as He Hst.
  destruct (while_key_not_post _ _ _ _ _ E1)
    as (_ & Hp1 & Hr1 & (Hs1 & Hl1 & Hz1) & Hc1).
  destruct (while_key_not_post _ _ _ _ _ E2)
    as (Hk4 & Hp4 & Hr4 & (Hs4 & Hl4 & Hz4) & Hc4).
  rewrite write_PORTB_rcalls in Hr4. rewrite write_PORTB_seq in Hs4.
  rewrite write_PORTB_seq_len in Hl4. rewrite write_PORTB_sleep in Hz4.
  rewrite write_PORTB_clock in Hc4. rewrite ?write_PORTB_keyboard in He.
  exists (clock st2), (keyboard st2).
  subst st'. unfold same_globals.
  rewrite writes_write, write_PORTB_keyboard, write_PORTB_rcalls,
    write_PORTB_seq, write_PORTB_seq_len, write_PORTB_sleep,
    write_PORTB_clock.
  unfold writes at 1. rewrite Hp4. fold (writes (write_PORTB (keyboard st2) st2)).
  rewrite writes_write. unfold writes. rewrite Hp2, Hp1, Hk4, <- app_assoc.
  repeat split; try congruence; lia.
Qed.

Lemma wait_for_key_returns_witness :
  let PIND := stream [255; 253; 255] in
  let st' := mkState 1 255 0 0 [(3%nat, 255); (2%nat, 253)] 3 0 in
  exists t k,
    0 = (if k =? 253 then 0 else 1) /\
    writes st' = writes initial_state ++ [(t, k); (clock st', 255)] /\
    keyboard st' = 255 /\ rcalls st' = rcalls initial_state /\
    same_globals initial_state st' /\
    (clock initial_state + 3 <= clock st')%nat.
Proof.
  intros PIND st'.
  apply (wait_for_key_returns PIND 1 253 0 initial_state st').
  vm_compute. reflexivity.
Defined.

(** ** Power-on *)

Lemma while_key_waits (PIND : nat -> Z) (n fuel : nat) (key : Z)
      (st : state) :
  (forall i, (i < n)%nat -> PIND (clock st + i)%nat = key) ->
  while_key PIND (n + fuel) key st
  = while_key PIND fuel key (sampled PIND n st).
Proof.
  revert st. induction n as [|n IH]; intros st Hn; [reflexivity|].
  cbn [Nat.add while_key]. cbn [read_PIND keyboard].
  fold (read_PIND PIND st).
  rewrite <- (Nat.add_0_r (clock st)) at 1.
  rewrite (Hn 0%nat) by lia. rewrite Z.eqb_refl.
  rewrite read_PIND_sampled, IH.
  - now rewrite sampled_sampled.
  - intros i Hi. rewrite sampled_clock.
    replace (clock st + 1 + i)%nat with (clock st + S i)%nat by lia.
    apply Hn. lia.
Qed.

(** X19: at power-on [main] switches the LEDs off and waits for the first
    key without any time-out and without calling [random]: as long as the
    switches show 0xFF it only reads them; the game starts with the first
    sample that shows a key, which is left in [keyboard], [sleep] still
    being 1. *)
Theorem power_on_waits_for_key (PIND random : nat -> Z) (rounds fuel n : nat) :
  (forall i, (i < n)%nat -> PIND i = 255) ->
  (PIND n <> 255 ->
   main PIND random rounds (n + S fuel) initial_state
   = main_loop PIND random rounds (n + S fuel)
               (mkState 1 (PIND n) 0 0 [(0%nat, 255)] (S n) 0)) /\
  main PIND random rounds n initial_state
  = OutOfFuel (sampled PIND n (write_PORTB 255 initial_state)).
Proof.
  intros Hn.
  assert (Hw : forall f,
             while_key PIND (n + f) 255 (write_PORTB 255 initial_state)
             = while_key PIND f 255
                 (sampled PIND n (write_PORTB 255 initial_state)))
    by (intros f; apply while_key_waits; intros i Hi; now apply Hn).
  split.
  - intros Hk. unfold main. rewrite Hw.
    cbn [while_key]. cbn [read_PIND keyboard].
    rewrite sampled_clock. cbn [write_PORTB initial_state clock Nat.add].
    destruct (Z.eqb_spec (PIND n) 255) as [E | _]; [contradiction|].
    cbn [bind]. f_equal.
    destruct n as [|n']; reflexivity.
  - unfold main. rewrite <- (Nat.add_0_r n) at 1. rewrite Hw. reflexivity.
Qed.

Lemma power_on_waits_for_key_witness :
  let PIND := stream [255; 255; 255; 254] in
  let random := fun _ : nat => 626 in
  (PIND 3%nat <> 255 ->
   main PIND random 1 (3 + S 0) initial_state
   = main_loop PIND random 1 (3 + S 0)
               (mkState 1 (PIND 3%nat) 0 0 [(0%nat, 255)] 4 0)) /\
  main PIND random 1 3 initial_state
  = OutOfFuel (sampled PIND 3 (write_PORTB 255 initial_state)).
Proof.
  intros PIND random.
  apply (power_on_waits_for_key PIND random 1 0 3).
  intros [|[|[|i]]] Hi; try reflexivity. lia.
Defined.

(** ** A whole round *)

Section Round.

Variable PIND : nat -> Z.
Variable random : nat -> Z.

Lemma init_draws (fuel : nat)
      (tries1 : list (nat * Z)) (a1 : nat * Z) (held1 : list Z)
      (tries2 : list (nat * Z)) (a2 : nat * Z) (held2 : list Z)
      (level : Z) (st : state) :
  0 <= level <= 3 ->
  snd a2 = number2bits level ->
  valid_selection fuel 3 tries1 a1 held1 ->
  valid_selection fuel 15 tries2 a2 held2 ->
  feeds PIND (clock st)
        (both_selections tries1 a1 held1 tries2 a2 held2) ->
  exists st1,
    init PIND random fuel st = Ret tt st1 /\
    sleep st1 = 0 /\
    seq st1 = drawn_sequence random st tries1 a1 tries2 a2 /\
    seq_len st1 = nth (Z.to_nat level) lengths 0 /\
    clock st1
    = (clock st
       + length (both_selections tries1 a1 held1 tries2 a2 held2))%nat /\
    exists more, writes st1 = writes st ++ more.
Proof.
  intros Hl Ha2 Hv1 Hv2 Hf. unfold both_selections in *.
  destruct (init_reaches_gen_seq PIND random fuel tries1 a1 held1
              tries2 a2 held2 st Hv1 Hv2 Hf)
    as (st7 & Hrun & Hsl & Hkb & (Hc & Hr & _ & _ & Hw) & Hport).
  rewrite Ha2, bits2number_level in Hrun by exact Hl.
  destruct (gen_seq_in_bounds random level st7 Hl) as (len & Hlen & Hgen).
  rewrite Hgen in Hrun. eexists. split; [exact Hrun|].
  cbn [sleep seq seq_len clock]. unfold drawn_sequence. rewrite Hr.
  split; [exact Hsl|]. split; [reflexivity|]. split; [|split; [exact Hc|]].
  - unfold array_get in Hlen. destruct (level <? 0); [discriminate|].
    symmetry. now apply nth_error_nth.
  - exact Hw.
Qed.

Lemma play_adds_writes (fuel : nat) (st : state) :
  exists more, writes (final_state (play PIND fuel st)) = writes st ++ more.
Proof.
  apply (play_inv PIND (fun s => exists more, writes s = writes st ++ more)
                  (fun _ => True)); auto.
  - intros v s _ [more Hm]. exists (more ++ [(clock s, v)]).
    now rewrite writes_write, Hm, app_assoc.
  - exists []. now rewrite app_nil_r.
Qed.

Lemma port_value_show v st : port_value (show PIND v st) = Some v.
Proof. unfold port_value. now rewrite show_eq, idle_portb. Qed.

Lemma feedback_fields (win : Z) (st : state) :
  same_globals st (feedback PIND win st) /\
  clock (feedback PIND win st) = (clock st + feedback_ticks win)%nat /\
  port_value (feedback PIND win st) = Some 255 /\
  writes (feedback PIND win st)
  = writes st ++ periodic (clock st) delay_ticks (feedback_values win).
Proof.
  split.
  { pose proof (feedback_inv PIND (same_globals st) (fun _ => True)) as H.
    apply H; auto. apply same_globals_refl. }
  unfold feedback, feedback_ticks, feedback_values.
  destruct (win =? 0); cbn [negb].
  - destruct (mock_loop_trace PIND 15 st) as [Hw Hc]. cbn zeta in *.
    unfold mock. rewrite Hw, Hc. split; [|split; [|reflexivity]].
    + rewrite length_concat. cbn. lia.
    + cbn [mock_loop]. apply port_value_show.
  - destruct (celebrate_loop_trace PIND 3 st) as [Hw Hc]. cbn zeta in *.
    unfold celebrate. rewrite Hw, Hc. split; [|split; [|reflexivity]].
    + rewrite length_concat. cbn. lia.
    + cbn [celebrate_loop]. unfold celebrate_cycle at 1.
      apply port_value_show.
Qed.

Lemma main_round_after_play (fuel : nat) (st st1 st2 : state) (win : Z)
      (held : list Z) :
  init PIND random fuel st = Ret tt st1 -> sleep st1 = 0 ->
  play PIND fuel st1 = Ret win st2 ->
  Forall (fun v => v <> 255) held -> (length held < fuel)%nat ->
  feeds PIND (clock st2 + feedback_ticks win) (held ++ [255]) ->
  main_round PIND random fuel st
  = Ret tt (sampled PIND (S (length held)) (feedback PIND win st2)).
Proof.
  intros Hinit Hsl Hplay Hheld Hfuel Hf.
  unfold main_round. rewrite Hinit. cbn [bind]. rewrite Hsl.
  cbn [Z.eqb negb]. rewrite Hplay. cbn [bind].
  apply while_key_not_feeds; try assumption.
  destruct (feedback_fields win st2) as (_ & Hc & _). now rewrite Hc.
Qed.

End Round.

Lemma main_round_finishes (PIND random : nat -> Z) (fuel : nat)
      (st st1 st2 : state) (win : Z) (held : list Z) :
  init PIND random fuel st = Ret tt st1 -> sleep st1 = 0 ->
  play PIND fuel st1 = Ret win st2 ->
  same_globals st1 st2 ->
  Forall (fun v => v <> 255) held -> (length held < fuel)%nat ->
  feeds PIND (clock st2 + feedback_ticks win) (held ++ [255]) ->
  exists st',
    main_round PIND random fuel st = Ret tt st' /\
    sleep st' = 0 /\ keyboard st' = 255 /\ port_value st' = Some 255 /\
    seq st' = seq st1 /\
    clock st'
    = (clock st2 + feedback_ticks win + length held + 1)%nat /\
    writes st'
    = writes st2 ++ periodic (clock st2) delay_ticks (feedback_values win).
Proof.
  intros Hinit Hsl Hplay Hg Hheld Hfuel Hf.
  destruct (feedback_fields PIND win st2) as (Hg' & Hc & Hp & Hw).
  destruct Hg as (Hs & _ & Hz). destruct Hg' as (Hs' & _ & Hz').
  eexists. split.
  { apply (main_round_after_play PIND random fuel st st1 st2 win held);
      assumption. }
  rewrite sampled_sleep, sampled_keyboard, sampled_seq, sampled_clock,
    sampled_writes, Hc.
  split; [congruence|]. split; [|split; [|split; [congruence|split]]].
  - rewrite (Hf (length held)) by (rewrite length_app; cbn; lia).
    now rewrite app_nth2, Nat.sub_diag by lia.
  - unfold port_value. now rewrite sampled_portb.
  - lia.
  - exact Hw.
Qed.

Lemma script_input_length (i : nat) (sc : script) :
  length (script_input i sc) = script_ticks i sc.
Proof.
  revert i. induction sc as [|gs sc IH]; intros i; [reflexivity|].
  cbn [script_input script_ticks].
  rewrite !length_app, repeat_length, IH. lia.
Qed.

Lemma feeds_beyond (l : list Z) (c : nat) :
  (length l <= c)%nat -> feeds (stream l) c [255].
Proof.
  intros H n Hn. unfold stream. rewrite nth_overflow by lia.
  destruct n as [|n]; [reflexivity | cbn in Hn; lia].
Qed.

Lemma feedback_ticks_eq :
  feedback_ticks 1 = (48 * delay_ticks)%nat /\
  feedback_ticks 0 = (30 * delay_ticks)%nat.
Proof. split; reflexivity. Qed.

Lemma feedback_values_eq :
  feedback_values 1 = concat (repeat celebrate_pattern 3) /\
  feedback_values 0 = concat (repeat [240; 255] 15).
Proof. split; reflexivity. Qed.

(** X20: a whole round that is won.  From a state of the main loop, the
    player chooses a mode and then the level [level] (one of SW0 to SW3),
    possibly after presses that are ignored and spells of standby,
    reproduces every growing prefix of the sequence drawn for that level,
    and releases the switches after the animation.  Then the iteration of
    the loop of [main] returns; the sequence is the value drawn by
    [gen_seq]; after the writes of the selections and of the rounds come
    the 48 frames of the three cycles of [celebrate], 300 reads apart;
    and the round ends awake, with all LEDs off, one read after the
    release. *)
Theorem round_won (PIND random : nat -> Z) (fuel : nat)
        (tries1 : list (nat * Z)) (a1 : nat * Z) (held1 : list Z)
        (tries2 : list (nat * Z)) (a2 : nat * Z) (held2 : list Z)
        (level : Z) (sc : script) (held : list Z) (st : state) :
  0 <= level <= 3 ->
  snd a2 = number2bits level ->
  valid_selection fuel 3 tries1 a1 held1 ->
  valid_selection fuel 15 tries2 a2 held2 ->
  Z.of_nat (length sc) = nth (Z.to_nat level) lengths 0 ->
  well_formed fuel 1 sc ->
  reproduces (drawn_sequence random st tries1 a1 tries2 a2) 1 sc ->
  Forall (fun v => v <> 255) held -> (length held < fuel)%nat ->
  feeds PIND (clock st)
        (both_selections tries1 a1 held1 tries2 a2 held2) ->
  script_feeds PIND
    (clock st + length (both_selections tries1 a1 held1 tries2 a2 held2))
    1 sc ->
  feeds PIND
    (clock st + length (both_selections tries1 a1 held1 tries2 a2 held2)
     + script_ticks 1 sc + 48 * delay_ticks)
    (held ++ [255]) ->
  exists st',
    main_round PIND random fuel st = Ret tt st' /\
    sleep st' = 0 /\ keyboard st' = 255 /\ port_value st' = Some 255 /\
    seq st' = drawn_sequence random st tries1 a1 tries2 a2 /\
    clock st'
    = (clock st + length (both_selections tries1 a1 held1 tries2 a2 held2)
       + script_ticks 1 sc + 48 * delay_ticks + length held + 1)%nat /\
    exists before,
      writes st'
      = writes st ++ before
        ++ periodic
             (clock st
              + length (both_selections tries1 a1 held1 tries2 a2 held2)
              + script_ticks 1 sc)
             delay_ticks (concat (repeat celebrate_pattern 3)).
Proof.
  intros Hl Ha2 Hv1 Hv2 Hlen Hwf Hrep Hheld Hfuel Hf1 Hf2 Hf3.
  destruct (init_draws PIND random fuel tries1 a1 held1 tries2 a2 held2
              level st Hl Ha2 Hv1 Hv2 Hf1)
    as (st1 & Hinit & Hsl & Hseq & Hsl' & Hc1 & more1 & Hw1).
  rewrite <- Hc1 in *. rewrite <- Hseq in *.
  destruct (play_rounds_script PIND fuel sc 1 st1 Hwf Hf2)
    as (win & st2 & Hrun & _ & Hiff & Hck & Hg).
  assert (Hwin : win = 1) by now apply Hiff.
  subst win. specialize (Hck eq_refl). rewrite <- Hck in *.
  assert (Hplay : play PIND fuel st1 = Ret 1 st2).
  { unfold play. rewrite Hsl', <- Hlen, Nat2Z.id. exact Hrun. }
  destruct (play_adds_writes PIND fuel st1) as [more2 Hw2].
  rewrite Hplay in Hw2. cbn [final_state] in Hw2.
  destruct feedback_ticks_eq as [Ht _]. rewrite <- Ht in *.
  destruct feedback_values_eq as [Hfv _]. rewrite <- Hfv.
  destruct (main_round_finishes PIND random fuel st st1 st2 1 held
              Hinit Hsl Hplay Hg Hheld Hfuel Hf3)
    as (st' & Hmain & Hs & Hk & Hp & Hq & Hc & Hw).
  exists st'. split; [exact Hmain|].
  split; [exact Hs|]. split; [exact Hk|]. split; [exact Hp|].
  split; [exact Hq|]. split; [exact Hc|].
  exists (more1 ++ more2). rewrite Hw, Hw2, Hw1, <- !app_assoc. reflexivity.
Qed.

Lemma round_won_witness :
  let a := (0%nat, 254) in
  let sc := perfect_script 626 5 in
  let sels := both_selections [] a [] [] a [] in
  let PIND := stream (sels ++ script_input 1 sc ++ [255]) in
  let random := fun _ : nat => 626 in
  let st := initial_state in
  exists st',
    main_round PIND random 2 st = Ret tt st' /\
    sleep st' = 0 /\ keyboard st' = 255 /\ port_value st' = Some 255 /\
    seq st' = drawn_sequence random st [] a [] a /\
    clock st'
    = (clock st + length sels + script_ticks 1 sc + 48 * delay_ticks
       + length (@nil Z) + 1)%nat /\
    exists before,
      writes st'
      = writes st ++ before
        ++ periodic (clock st + length sels + script_ticks 1 sc)
                    delay_ticks (concat (repeat celebrate_pattern 3)).
Proof.
  intros a sc sels PIND random st.
  apply (round_won PIND random 2 [] a [] [] a [] 0 sc [] st).
  - lia.
  - reflexivity.
  - apply valid_selectionb_sound. vm_compute. reflexivity.
  - apply valid_selectionb_sound. vm_compute. reflexivity.
  - reflexivity.
  - apply well_formedb_sound. vm_compute. reflexivity.
  - apply reproducesb_spec. vm_compute. reflexivity.
  - constructor.
  - cbn. lia.
  - exact (feeds_stream [] sels (script_input 1 sc ++ [255])).
  - exact (script_feeds_stream sels 1 sc [255]).
  - apply feeds_beyond.
    rewrite !length_app, script_input_length.
    pose proof delay_ticks_pos.
    change (both_selections [] a [] [] a []) with sels.
    change (clock st) with 0%nat. change (length [255]) with 1%nat. lia.
Defined.

(** X21: a whole round that is lost.  After the two selections the player
    reproduces the rounds [won], fewer than the level asks, then in the
    next round the keys [good], and then presses a wrong key or lets the
    time run out.  The iteration of the loop of [main] returns without any
    further round of the sequence: the last writes are the answer mirrored
    to the LEDs, all LEDs off, and then the 30 frames of [mock], 300 reads
    apart; the round ends awake, with all LEDs off, one read after the
    release of the switches. *)
Theorem round_lost (PIND random : nat -> Z) (fuel : nat)
        (tries1 : list (nat * Z)) (a1 : nat * Z) (held1 : list Z)
        (tries2 : list (nat * Z)) (a2 : nat * Z) (held2 : list Z)
        (level : Z) (won : script) (good : list gesture) (bad : gesture)
        (held : list Z) (st : state) :
  0 <= level <= 3 ->
  snd a2 = number2bits level ->
  valid_selection fuel 3 tries1 a1 held1 ->
  valid_selection fuel 15 tries2 a2 held2 ->
  Z.of_nat (length won) < nth (Z.to_nat level) lengths 0 ->
  well_formed fuel 1 won ->
  reproduces (drawn_sequence random st tries1 a1 tries2 a2) 1 won ->
  (length good <= length won)%nat ->
  Forall (valid_gesture fuel) (good ++ [bad]) ->
  map seen good
  = map number2bits
        (symbols (drawn_sequence random st tries1 a1 tries2 a2)
                 (length good)) ->
  timed_out bad = true \/
  seen bad
  <> number2bits (symbol (drawn_sequence random st tries1 a1 tries2 a2)
                         (Z.of_nat (length good))) ->
  Forall (fun v => v <> 255) held -> (length held < fuel)%nat ->
  feeds PIND (clock st)
        (both_selections tries1 a1 held1 tries2 a2 held2) ->
  script_feeds PIND
    (clock st + length (both_selections tries1 a1 held1 tries2 a2 held2))
    1 (won ++ [good ++ [bad]]) ->
  feeds PIND
    (clock st + length (both_selections tries1 a1 held1 tries2 a2 held2)
     + script_ticks 1 (won ++ [good ++ [bad]]) + 30 * delay_ticks)
    (held ++ [255]) ->
  exists st',
    main_round PIND random fuel st = Ret tt st' /\
    sleep st' = 0 /\ keyboard st' = 255 /\ port_value st' = Some 255 /\
    seq st' = drawn_sequence random st tries1 a1 tries2 a2 /\
    clock st'
    = (clock st + length (both_selections tries1 a1 held1 tries2 a2 held2)
       + script_ticks 1 (won ++ [good ++ [bad]]) + 30 * delay_ticks
       + length held + 1)%nat /\
    exists before t,
      writes st'
      = before
        ++ [(t, seen bad);
            ((clock st
              + length (both_selections tries1 a1 held1 tries2 a2 held2)
              + script_ticks 1 (won ++ [good ++ [bad]]))%nat, 255)]
        ++ periodic
             (clock st
              + length (both_selections tries1 a1 held1 tries2 a2 held2)
              + script_ticks 1 (won ++ [good ++ [bad]]))
             delay_ticks (concat (repeat [240; 255] 15)).
Proof.
  intros Hl Ha2 Hv1 Hv2 Hlen Hwf Hrep Hpos Hv Hgood Hbad Hheld Hfuel
         Hf1 Hf2 Hf3.
  destruct (init_draws PIND random fuel tries1 a1 held1 tries2 a2 held2
              level st Hl Ha2 Hv1 Hv2 Hf1)
    as (st1 & Hinit & Hsl & Hseq & Hsl' & Hc1 & _).
  rewrite <- Hc1 in *. rewrite <- Hseq in *.
  assert (Hne : seen bad
                <> number2bits (symbol (seq st1) (Z.of_nat (length good)))).
  { destruct Hbad as [Hto | Hne]; [|exact Hne].
    unfold seen. rewrite Hto. intros E. symmetry in E. revert E.
    apply number2bits_not_idle, symbol_range. }
  destruct (play_rounds_fails PIND fuel won good bad
              (Z.to_nat (seq_len st1)) 1 st1 Hwf Hrep ltac:(lia)
              ltac:(lia) Hv Hgood Hne Hf2)
    as (st2 & Hplay & Hck & (before & t & Hw2) & Hg).
  fold (play PIND fuel st1) in Hplay. rewrite <- Hck in *.
  destruct feedback_ticks_eq as [_ Ht]. rewrite <- Ht in *.
  destruct feedback_values_eq as [_ Hfv]. rewrite <- Hfv.
  destruct (main_round_finishes PIND random fuel st st1 st2 0 held
              Hinit Hsl Hplay Hg Hheld Hfuel Hf3)
    as (st' & Hmain & Hs & Hk & Hp & Hq & Hc & Hw).
  exists st'. split; [exact Hmain|].
  split; [exact Hs|]. split; [exact Hk|]. split; [exact Hp|].
  split; [exact Hq|]. split; [exact Hc|].
  exists before, t. rewrite Hw, Hw2, <- !app_assoc. reflexivity.
Qed.

Lemma round_lost_witness :
  let a := (0%nat, 254) in
  let won := [[tap 251]; [tap 251; tap 254]] in
  let good := [tap 251] in
  let bad := tap 253 in
  let sels := both_selections [] a [] [] a [] in
  let PIND := stream (sels ++ script_input 1 (won ++ [good ++ [bad]])
                      ++ [255]) in
  let random := fun _ : nat => 626 in
  let st := initial_state in
  exists st',
    main_round PIND random 2 st = Ret tt st' /\
    sleep st' = 0 /\ keyboard st' = 255 /\ port_value st' = Some 255 /\
    seq st' = drawn_sequence random st [] a [] a /\
    clock st'
    = (clock st + length sels
       + script_ticks 1 (won ++ [good ++ [bad]]) + 30 * delay_ticks
       + length (@nil Z) + 1)%nat /\
    exists before t,
      writes st'
      = before
        ++ [(t, seen bad);
            ((clock st + length sels
              + script_ticks 1 (won ++ [good ++ [bad]]))%nat, 255)]
        ++ periodic
             (clock st + length sels
              + script_ticks 1 (won ++ [good ++ [bad]]))
             delay_ticks (concat (repeat [240; 255] 15)).
Proof.
  intros a won good bad sels PIND random st.
  apply (round_lost PIND random 2 [] a [] [] a [] 0 won good bad [] st).
  - lia.
  - reflexivity.
  - apply valid_selectionb_sound. vm_compute. reflexivity.
  - apply valid_selectionb_sound. vm_compute. reflexivity.
  - cbn. lia.
  - apply well_formedb_sound. vm_compute. reflexivity.
  - apply reproducesb_spec. vm_compute. reflexivity.
  - cbn. lia.
  - apply Forall_forall. intros g Hg. apply valid_gestureb_sound.
    destruct Hg as [<- | [<- | []]]; vm_compute; reflexivity.
  - vm_compute. reflexivity.
  - right. vm_compute. discriminate.
  - constructor.
  - cbn. lia.
  - exact (feeds_stream [] sels
             (script_input 1 (won ++ [good ++ [bad]]) ++ [255])).
  - exact (script_feeds_stream sels 1 (won ++ [good ++ [bad]]) [255]).
  - apply feeds_beyond.
    rewrite !length_app, script_input_length.
    pose proof delay_ticks_pos.
    change (both_selections [] a [] [] a []) with sels.
    change (clock st) with 0%nat. change (length [255]) with 1%nat. lia.
Defined.
